(** * CineSuggest: the TMDb lookup layer and the text-generation clients

    A shallow embedding of [services/tmdbService.ts] and of the provider
    clients ([services/aiService.ts], and the SDK-mediated variant of the same
    two functions, in its two forms), followed by the properties the
    specification states about them.

    Conventions of the embedding.
    - A JavaScript string is a [string] whose characters are read as UTF-16
      code units below 256; the built-ins [toLowerCase], [trim] and
      [encodeURIComponent] are given on that range.
    - A JavaScript [number] that the code only ever uses as an integer (ids,
      page, year, HTTP status) is a [Z].
    - An [async] function is a state-passing function on the module's
      [Process] that ends in a [Completion]: the promise fulfils
      ([Returned]) or rejects ([Thrown]).  The remote side is an argument:
      a function from the request to what [fetch] does with it.
    - That is a call taken alone.  Calls made while others are under way
      are the same bodies cut at the [await] of their requests, [begin]
      and [resume], in any interleaving ([run]). *)

From Stdlib Require Import ZArith NArith Ascii String.
From stdpp Require Import base decidable option list strings pretty gmap.

Local Open Scope string_scope.

(** ** JavaScript built-ins used by the services *)

Module JS.

Definition in_range (lo hi n : N) : bool := ((lo <=? n) && (n <=? hi))%N.

(** [String.prototype.toLowerCase], one code unit at a time: A-Z and the
    Latin-1 capitals (U+00C0..U+00DE, the multiplication sign apart). *)
Definition lower_unit (c : ascii) : ascii :=
  let n := N_of_ascii c in
  if in_range 65 90 n || (in_range 192 222 n && negb (n =? 215)%N)
  then ascii_of_N (n + 32) else c.

Fixpoint toLowerCase (s : string) : string :=
  match s with
  | EmptyString => EmptyString
  | String c r => String (lower_unit c) (toLowerCase r)
  end.

(** White space and line terminators below U+0100: TAB, LF, VT, FF, CR,
    SP and NBSP. *)
Definition is_white (c : ascii) : bool :=
  let n := N_of_ascii c in
  in_range 9 13 n || (n =? 32)%N || (n =? 160)%N.

Fixpoint trimStart (s : string) : string :=
  match s with
  | EmptyString => EmptyString
  | String c r => if is_white c then trimStart r else s
  end.

Fixpoint trimEnd (s : string) : string :=
  match s with
  | EmptyString => EmptyString
  | String c r =>
      match trimEnd r with
      | EmptyString => if is_white c then EmptyString else String c EmptyString
      | r' => String c r'
      end
  end.

Definition trim (s : string) : string := trimEnd (trimStart s).

(** [s.includes(c)] for a one-character needle. *)
Fixpoint includes (s : string) (c : ascii) : bool :=
  match s with
  | EmptyString => false
  | String d r => if Ascii.eqb d c then true else includes r c
  end.

Definition hex_digit (n : N) : ascii :=
  if (n <? 10)%N then ascii_of_N (48 + n) else ascii_of_N (55 + n).

Definition percent (byte : N) : string :=
  String "%" (String (hex_digit (byte / 16)) (String (hex_digit (byte mod 16)) EmptyString)).

(** The characters [encodeURIComponent] leaves alone: A-Z a-z 0-9 and
    - _ . ! ~ * ' ( ) *)
Definition unreserved (n : N) : bool :=
  in_range 65 90 n || in_range 97 122 n || in_range 48 57 n
  || (n =? 45)%N || (n =? 95)%N || (n =? 46)%N || (n =? 33)%N
  || (n =? 126)%N || (n =? 42)%N || in_range 39 41 n.

(** Every other code unit is written as the percent-escaped bytes of its
    UTF-8 encoding: one byte below U+0080, two from there to U+00FF. *)
Definition encode_unit (c : ascii) : string :=
  let n := N_of_ascii c in
  if unreserved n then String c EmptyString
  else if (n <? 128)%N then percent n
  else percent (192 + n / 64) +:+ percent (128 + n mod 64).

Fixpoint encodeURIComponent (s : string) : string :=
  match s with
  | EmptyString => EmptyString
  | String c r => encode_unit c +:+ encodeURIComponent r
  end.

(** [`${n}`] for an integer-valued number. *)
Definition show (n : Z) : string := pretty n.

(** [ids.join(',')] *)
Fixpoint join (sep : string) (l : list string) : string :=
  match l with
  | [] => ""
  | [x] => x
  | x :: r => x +:+ sep +:+ join sep r
  end.

(** Truthiness of a string and of an optional number ([undefined] is
    [None]); [0] and the empty string are falsy. *)
Definition truthy_string (s : string) : bool :=
  match s with EmptyString => false | _ => true end.

Definition truthy_number (n : option Z) : bool :=
  match n with Some z => negb (z =? 0)%Z | None => false end.

Definition truthy_opt_string (s : option string) : bool :=
  match s with Some t => truthy_string t | None => false end.

(** [[...new Set(l)]]: the distinct elements, each at the place of its
    first occurrence. *)
Fixpoint distinct {A} `{EqDecision A} (l : list A) : list A :=
  match l with
  | [] => []
  | x :: r => x :: filter (λ y, y ≠ x) (distinct r)
  end.

(** The property names that every object inherits from
    [Object.prototype]; what is read under each of them (a function, or
    the prototype itself for [__proto__]) is truthy. *)
Definition Object_prototype : list string :=
  [ "constructor"; "hasOwnProperty"; "isPrototypeOf"; "propertyIsEnumerable";
    "toLocaleString"; "toString"; "valueOf"; "__proto__";
    "__defineGetter__"; "__defineSetter__"; "__lookupGetter__"; "__lookupSetter__" ].

End JS.

(** ** Promises: completions over a mutable process state *)

Inductive Exn : Type :=
  | Error (message : string)   (* [new Error(message)] *)
  | SyntaxError                (* a body or a reply that is not JSON *)
  | TypeError.                 (* a property read on [undefined] *)

Inductive Completion (A : Type) : Type :=
  | Returned (a : A)
  | Thrown (e : Exn).
Arguments Returned {A} a.
Arguments Thrown {A} e.

Definition Async (St A : Type) : Type := St → Completion A * St.

Definition ret {St A} (a : A) : Async St A := λ s, (Returned a, s).

Definition throw {St A} (e : Exn) : Async St A := λ s, (Thrown e, s).

Definition bind {St A B} (m : Async St A) (k : A → Async St B) : Async St B :=
  λ s, match m s with
       | (Returned a, s') => k a s'
       | (Thrown e, s') => (Thrown e, s')
       end.

(** [try { body } catch (error) { handler }]: what [body] did to the state
    before it threw stays done. *)
Definition try_catch {St A} (body : Async St A) (handler : Exn → Async St A) : Async St A :=
  λ s, match body s with
       | (Returned a, s') => (Returned a, s')
       | (Thrown e, s') => handler e s'
       end.

Definition get_state {St} : Async St St := λ s, (Returned s, s).

Definition update {St} (f : St → St) : Async St unit := λ s, (Returned tt, f s).

Declare Scope async_scope.
Delimit Scope async_scope with async.
Notation "x <- m ;; k" := (bind m (λ x, k))
  (at level 100, m at next level, right associativity) : async_scope.
Local Open Scope async_scope.

(** What the remote side does with one request. *)
Record Response (T : Type) : Type := {
  ok : bool;
  status : Z;
  statusText : string;
  json : option T              (* [None]: the body is not JSON *)
}.
Arguments ok {T} _.
Arguments status {T} _.
Arguments statusText {T} _.
Arguments json {T} _.

Inductive FetchOutcome (T : Type) : Type :=
  | rejects                    (* network failure *)
  | resolves (response : Response T).
Arguments rejects {T}.
Arguments resolves {T} response.

(** The requests of an array of promises are all issued, in array order,
    when the array is built; each promise settles on its own. *)
Fixpoint start_all {St A} (ps : list (Async St A)) (s : St) : list (Completion A) * St :=
  match ps with
  | [] => ([], s)
  | p :: rest =>
      let '(c, s1) := p s in
      let '(cs, s2) := start_all rest s1 in
      (c :: cs, s2)
  end.

(** [Promise.all] rejects as soon as one promise rejects, with that
    promise's reason; which one is first in time is not modelled, the
    leftmost is taken.  It fulfils with all the values, in array order. *)
Fixpoint all_settled {A} (cs : list (Completion A)) : Completion (list A) :=
  match cs with
  | [] => Returned []
  | Thrown e :: _ => Thrown e
  | Returned a :: rest =>
      match all_settled rest with
      | Returned l => Returned (a :: l)
      | Thrown e => Thrown e
      end
  end.

Definition Promise_all {St A} (ps : list (Async St A)) : Async St (list A) :=
  λ s, let '(cs, s') := start_all ps s in (all_settled cs, s').

(** ** services/tmdbService.ts *)

Inductive MediaType : Type := movie | tv.

#[global] Instance MediaType_eq_dec : EqDecision MediaType.
Proof. solve_decision. Defined.

Definition media_type_name (t : MediaType) : string :=
  match t with movie => "movie" | tv => "tv" end.

(** The declarations of [types.ts] that the service reads.  A result
    carries more provider metadata than the three fields the code looks at;
    [media_type] is absent from the replies of the category-specific
    endpoints, and [poster_path] may be [null]. *)
Record TMDbResult : Type := {
  id : Z;
  media_type : option string;
  poster_path : option string
}.

Record TMDbResponse : Type := { results : list TMDbResult }.

Record Keyword : Type := { keyword_id : Z; keyword_name : string }.

Record TMDbKeywordResponse : Type := { keyword_results : list Keyword }.

Record Genre : Type := { genre_id : Z; genre_name : string }.

Record GenreListResponse : Type := { genres : list Genre }.

(** [{ movie: Genre[], tv: Genre[] }] *)
Record GenreCache : Type := { movie_genres : list Genre; tv_genres : list Genre }.

(** One call of [fetch]: the endpoint it was made for and the URL sent. *)
Record Fetch : Type := { fetch_endpoint : string; fetch_url : string }.

(** The module's two [let] bindings, and the calls of [fetch] made so far
    (oldest first). *)
Record Process : Type := {
  keywordCache : gmap string Z;
  genreCache : GenreCache;
  fetched : list Fetch
}.

Definition genreCache_get (c : GenreCache) (type : MediaType) : list Genre :=
  match type with movie => movie_genres c | tv => tv_genres c end.

Definition genreCache_set (c : GenreCache) (type : MediaType) (l : list Genre) : GenreCache :=
  match type with
  | movie => {| movie_genres := l; tv_genres := tv_genres c |}
  | tv => {| movie_genres := movie_genres c; tv_genres := l |}
  end.

Definition set_genres (type : MediaType) (l : list Genre) (p : Process) : Process :=
  {| keywordCache := keywordCache p;
     genreCache := genreCache_set (genreCache p) type l; fetched := fetched p |}.

Definition record_fetch (f : Fetch) (p : Process) : Process :=
  {| keywordCache := keywordCache p;
     genreCache := genreCache p; fetched := (fetched p ++ [f])%list |}.

(** A process that has just loaded the module. *)
Definition fresh : Process :=
  {| keywordCache := ∅;
     genreCache := {| movie_genres := []; tv_genres := [] |}; fetched := [] |}.

Definition SortOption : Type := string.

Section TMDbService.

(** [constants.ts] *)
Variable TMDB_API_KEY : string.
Variable TMDB_API_BASE_URL : string.

Definition final_url (endpoint language : string) : string :=
  let url := TMDB_API_BASE_URL +:+ "/" +:+ endpoint in
  let separator := if JS.includes url "?" then "&" else "?" in
  url +:+ separator +:+ "api_key=" +:+ TMDB_API_KEY +:+ "&language=" +:+ language.

(** [await fetch(finalUrl)] *)
Definition fetch {T} (server : string → FetchOutcome T) (endpoint finalUrl : string)
  : Async Process (Response T) :=
  λ p, let p' := record_fetch {| fetch_endpoint := endpoint; fetch_url := finalUrl |} p in
       match server finalUrl with
       | rejects => (Thrown TypeError, p')
       | resolves response => (Returned response, p')
       end.

(** The promise of [response.json()] is returned from inside the [try]
    without being awaited there, so its rejection is not caught. *)
Definition fetchFromTMDb {T} (server : string → FetchOutcome T)
    (endpoint : string) (language : option string) : Async Process T :=
  let language := default "en-US" language in
  let finalUrl := final_url endpoint language in
  body <- try_catch
    (response <- fetch server endpoint finalUrl;;
     if negb (ok response) then
       throw (Error ("TMDb API request failed for " +:+ endpoint +:+ " with status "
                     +:+ JS.show (status response)))
     else ret (json response))
    (λ error, throw (Error ("Failed to fetch data from TMDb for " +:+ endpoint +:+ ".")));;
  match body with
  | Some data => ret data
  | None => throw SyntaxError
  end.

(** The [switch] compares with [===], case by case; [undefined] is [None]. *)
Definition getSortByValue (sortOption : option SortOption) (mediaType : MediaType) : string :=
  if bool_decide (sortOption = Some "release_date") then
    match mediaType with
    | movie => "primary_release_date.desc"
    | tv => "first_air_date.desc"
    end
  else if bool_decide (sortOption = Some "rating") then "vote_average.desc"
  else if bool_decide (sortOption = Some "popularity") then "popularity.desc"
  else "popularity.desc".

Definition wanted (result : TMDbResult) : bool :=
  (bool_decide (media_type result = Some "movie") || bool_decide (media_type result = Some "tv"))
  && JS.truthy_opt_string (poster_path result).

Definition searchMedia (server : string → FetchOutcome TMDbResponse)
    (query : string) (page : option Z) (language : string) : Async Process (list TMDbResult) :=
  let page := default 1%Z page in
  if negb (JS.truthy_string query) then ret [] else
  data <- fetchFromTMDb server
    ("search/multi?query=" +:+ JS.encodeURIComponent query +:+ "&page=" +:+ JS.show page
     +:+ "&include_adult=false") (Some language);;
  ret (List.filter wanted (results data)).

Definition getTrending (server : string → FetchOutcome TMDbResponse)
    (page : option Z) (language : string) : Async Process (list TMDbResult) :=
  let page := default 1%Z page in
  data <- fetchFromTMDb server ("trending/all/week?page=" +:+ JS.show page) (Some language);;
  ret (List.filter wanted (results data)).

(** [keywordCache], the module-level [Map]. *)
Definition set_keywordCache (cache : gmap string Z) (p : Process) : Process :=
  {| keywordCache := cache; genreCache := genreCache p; fetched := fetched p |}.

(** Body of the [for ... of] loop over [uniqueKeywords]. *)
Definition sort_out (cache : gmap string Z) (acc : list Z * list string) (keyword : string)
  : list Z * list string :=
  let '(cachedIds, keywordsToFetch) := acc in
  match cache !! keyword with
  | Some cached => ((cachedIds ++ [cached])%list, keywordsToFetch)
  | None => (cachedIds, (keywordsToFetch ++ [keyword])%list)
  end.

(** Body of the [forEach] over [keywordResponses].  [Promise.all] gives
    one response per element of [keywordsToFetch], in the same order, so
    [keywordsToFetch[index]] is the keyword the response at [index]
    answers: the callback runs over the two arrays side by side. *)
Definition keep_first_match (acc : list Z * gmap string Z)
    (at_index : TMDbKeywordResponse * string) : list Z * gmap string Z :=
  let '(cachedIds, cache) := acc in
  let '(res, originalKeyword) := at_index in
  match keyword_results res with
  | first :: _ =>
      let keywordId := keyword_id first in
      ((cachedIds ++ [keywordId])%list, <[originalKeyword := keywordId]> cache)
  | [] => acc
  end.

Definition keyword_endpoint (keyword : string) : string :=
  "search/keyword?query=" +:+ JS.encodeURIComponent keyword +:+ "&page=1".

Definition getKeywordIds (server : string → FetchOutcome TMDbKeywordResponse)
    (keywords : list string) (language : string) : Async Process (list Z) :=
  if Nat.eqb (length keywords) 0 then ret [] else
  let uniqueKeywords := JS.distinct (map (λ k, JS.trim (JS.toLowerCase k)) keywords) in
  p <- get_state;;
  let sorted := foldl (sort_out (keywordCache p)) ([], []) uniqueKeywords in
  let cachedIds := sorted.1 in
  let keywordsToFetch := sorted.2 in
  cachedIds <-
    (if Nat.ltb 0 (length keywordsToFetch) then
       keywordResponses <- Promise_all
         (map (λ keyword, fetchFromTMDb server (keyword_endpoint keyword) (Some language))
              keywordsToFetch);;
       p <- get_state;;
       let found := foldl keep_first_match (cachedIds, keywordCache p)
                          (zip keywordResponses keywordsToFetch) in
       _ <- update (set_keywordCache found.2);;
       ret found.1
     else ret cachedIds);;
  ret (JS.distinct cachedIds).

Definition genre_endpoint (type : MediaType) : string :=
  "genre/" +:+ media_type_name type +:+ "/list".

Definition getGenreList (server : string → FetchOutcome GenreListResponse)
    (type : MediaType) (language : string) : Async Process (list Genre) :=
  p <- get_state;;
  if Nat.ltb 0 (length (genreCache_get (genreCache p) type)) then
    ret (genreCache_get (genreCache p) type)
  else
    data <- fetchFromTMDb server (genre_endpoint type) (Some language);;
    _ <- update (set_genres type (genres data));;
    ret (genres data).

Definition getGenreIds (server : string → FetchOutcome GenreListResponse)
    (genreNames : list string) (type : MediaType) (language : string)
  : Async Process (list Z) :=
  if Nat.eqb (length genreNames) 0 then ret [] else
  genreList <- getGenreList server type language;;
  let lowerCaseGenreNames := map (λ g, JS.trim (JS.toLowerCase g)) genreNames in
  ret (map genre_id
         (List.filter
            (λ genre, bool_decide (JS.trim (JS.toLowerCase (genre_name genre))
                                   ∈ lowerCaseGenreNames))
            genreList)).

Definition discoverMedia (server : string → FetchOutcome TMDbResponse)
    (type : MediaType) (genreIds keywordIds : list Z) (page : option Z)
    (sortOption : option SortOption) (language : string) (year : option Z)
  : Async Process (list TMDbResult) :=
  let page := default 1%Z page in
  let sortOption := default "popularity" sortOption in
  if Nat.eqb (length genreIds) 0 && Nat.eqb (length keywordIds) 0
     && negb (JS.truthy_number year)
  then ret [] else
  let sortBy := getSortByValue (Some sortOption) type in
  let endpoint :=
    "discover/" +:+ media_type_name type +:+ "?sort_by=" +:+ sortBy
    +:+ "&page=" +:+ JS.show page +:+ "&include_adult=false" in
  let endpoint :=
    if Nat.ltb 0 (length genreIds)
    then endpoint +:+ "&with_genres=" +:+ JS.join "," (map JS.show genreIds)
    else endpoint in
  let endpoint :=
    if Nat.ltb 0 (length keywordIds)
    then endpoint +:+ "&with_keywords=" +:+ JS.join "," (map JS.show keywordIds)
    else endpoint in
  let endpoint :=
    match year with
    | Some y =>
        if JS.truthy_number year then
          let yearParam := match type with
                           | movie => "primary_release_year"
                           | tv => "first_air_date_year"
                           end in
          endpoint +:+ "&" +:+ yearParam +:+ "=" +:+ JS.show y
        else endpoint
    | None => endpoint
    end in
  data <- fetchFromTMDb server endpoint (Some language);;
  ret (map (λ r, {| id := id r; media_type := Some (media_type_name type);
                    poster_path := poster_path r |})
           (results data)).

(** The item's numeric id is the parameter [id] of the source; it is named
    [mediaId] here because [id] is the field of [TMDbResult].  A
    [mediaType] is ['movie'] or ['tv'], so [!mediaType] never holds. *)
Definition getMediaDetails (server : string → FetchOutcome TMDbResult)
    (mediaType : MediaType) (mediaId : Z) (language : string)
  : Async Process (option TMDbResult) :=
  if negb (JS.truthy_number (Some mediaId)) then ret None else
  data <- fetchFromTMDb server
    (media_type_name mediaType +:+ "/" +:+ JS.show mediaId +:+ "?append_to_response=genres")
    (Some language);;
  ret (Some {| id := id data; media_type := Some (media_type_name mediaType);
               poster_path := poster_path data |}).

Definition getSimilarMedia (server : string → FetchOutcome TMDbResponse)
    (mediaType : MediaType) (mediaId : Z) (language : string)
  : Async Process (list TMDbResult) :=
  if negb (JS.truthy_number (Some mediaId)) then ret [] else
  data <- fetchFromTMDb server
    (media_type_name mediaType +:+ "/" +:+ JS.show mediaId +:+ "/similar") (Some language);;
  ret (map (λ r, {| id := id r; media_type := Some (media_type_name mediaType);
                    poster_path := poster_path r |})
           (List.filter (λ result, JS.truthy_opt_string (poster_path result)) (results data))).

Definition getRecommendedMedia (server : string → FetchOutcome TMDbResponse)
    (mediaType : MediaType) (mediaId : Z) (language : string)
  : Async Process (list TMDbResult) :=
  if negb (JS.truthy_number (Some mediaId)) then ret [] else
  data <- fetchFromTMDb server
    (media_type_name mediaType +:+ "/" +:+ JS.show mediaId +:+ "/recommendations")
    (Some language);;
  ret (map (λ r, {| id := id r; media_type := Some (media_type_name mediaType);
                    poster_path := poster_path r |})
           (List.filter (λ result, JS.truthy_opt_string (poster_path result)) (results data))).

(** [types.ts]: what is on offer in one region is an object, opaque here;
    the reply's optional [results] is an object whose own properties, the
    map below, take a region code to it. *)
Variable ProviderInfo : Type.

Record WatchProviderResponse : Type := {
  provider_results : option (gmap string ProviderInfo)
}.

(** What [results[region]] reads: an own property of the reply, or, when
    the reply has none of that name, what the object inherits under it. *)
Inductive Property : Type :=
  | own (info : ProviderInfo)
  | inherited (name : string).

Definition read_property (results : gmap string ProviderInfo) (name : string)
  : option Property :=
  match results !! name with
  | Some info => Some (own info)
  | None => if bool_decide (name ∈ JS.Object_prototype) then Some (inherited name) else None
  end.

(** The call of [fetchFromTMDb] passes no language.  An entry of the reply
    is an object and an inherited member is a function or an object, so
    [|| null] replaces only [undefined]. *)
Definition getWatchProviders (server : string → FetchOutcome WatchProviderResponse)
    (mediaType : MediaType) (mediaId : Z) (region : string)
  : Async Process (option Property) :=
  if negb (JS.truthy_number (Some mediaId)) || negb (JS.truthy_string region)
  then ret None else
  data <- fetchFromTMDb server
    (media_type_name mediaType +:+ "/" +:+ JS.show mediaId +:+ "/watch/providers") None;;
  ret (match provider_results data with
       | Some results => read_property results region
       | None => None
       end).

End TMDbService.

Arguments provider_results {ProviderInfo} _.
Arguments own {ProviderInfo} info.
Arguments inherited {ProviderInfo} name.
Arguments read_property {ProviderInfo} _ _.
Arguments getWatchProviders _ _ {ProviderInfo} _ _ _ _.

(** ** The text-generation clients *)

(** [types.ts]: a chat message of the application ([role] is ['user'],
    ['ai'] or ['error']) and the criteria object the extraction returns. *)
Record ChatMessage : Type := { role : string; content : string }.

Module AI.

Record AISearchData : Type := {
  search_query : option string;
  media_type : option string;
  genres : option (list string);
  keywords : option (list string);
  year : option Z
}.

(** [{ search_query: query }] *)
Definition raw_query_only (query : string) : AISearchData :=
  {| search_query := Some query; media_type := None; genres := None;
     keywords := None; year := None |}.

Definition quote : string := String "034" EmptyString.

Definition CHAT_SYSTEM_INSTRUCTION : string :=
  "You are CineSuggest AI, a friendly and knowledgeable chatbot specializing in movies and TV shows. Your goal is to have a natural conversation with the user, helping them discover new things to watch, answer trivia, or just chat about film. Be conversational, engaging, and helpful. Don't just provide lists; explain why you're suggesting something. Keep your responses concise and easy to read.".

Definition chat_failure : Exn := Error "Failed to get chat response from AI.".

End AI.

(** *** services/aiService.ts: the raw HTTP client *)

Module OpenRouter.
Import AI.

Record Message : Type := { msg_role : string; msg_content : string }.

(** The call of [fetch]: URL, [Authorization] header and the fields of
    the JSON body. *)
Record Request : Type := {
  url : string;
  authorization : string;
  model : string;
  messages : list Message;
  response_format : option string
}.

(** The JSON body of a reply, as far as the client reads it:
    [error?.message] of an error reply, [choices[0]?.message?.content]
    of a completion. *)
Record ErrorInfo : Type := { message : option string }.
Record ChoiceMessage : Type := { reply_content : option string }.
Record Choice : Type := { choice_message : option ChoiceMessage }.
Record Body : Type := { error : option ErrorInfo; choices : option (list Choice) }.

Definition empty_body : Body := {| error := None; choices := None |}.

Section Client.

(** [constants.ts], the extraction prompt (a fixed text that no
    property below reads) and [JSON.parse] followed by the unchecked
    cast to [AISearchData] ([None]: [JSON.parse] throws). *)
Variable OPENROUTER_API_KEY : string.
Variable OPENROUTER_API_BASE_URL : string.
Variable OPENROUTER_CHAT_MODEL : string.
Variable DISCOVER_SEARCH_INSTRUCTION : string.
Variable JSON_parse : string → option AISearchData.

Definition post (provider : Request → FetchOutcome Body) (request : Request)
  : Async (list Request) (Response Body) :=
  λ sent, match provider request with
          | rejects => (Thrown TypeError, (sent ++ [request])%list)
          | resolves response => (Returned response, (sent ++ [request])%list)
          end.

(** [errorData.error?.message || 'Unknown API error'] where [errorData]
    is the body, or [{}] when the body is not JSON. *)
Definition error_message (response : Response Body) : string :=
  let errorData := default empty_body (json response) in
  match error errorData with
  | Some info =>
      if JS.truthy_opt_string (message info) then default "" (message info)
      else "Unknown API error"
  | None => "Unknown API error"
  end.

Definition api_error (response : Response Body) : Exn :=
  Error ("OpenRouter API error: " +:+ JS.show (status response) +:+ " "
         +:+ statusText response +:+ " - " +:+ error_message response).

(** [data.choices[0]?.message?.content]; reading [[0]] of an absent
    [choices] is a [TypeError]. *)
Definition first_content (data : Body) : Async (list Request) (option string) :=
  match choices data with
  | None => throw TypeError
  | Some [] => ret None
  | Some (choice :: _) =>
      ret (match choice_message choice with
           | Some m => reply_content m
           | None => None
           end)
  end.

Definition read_body (response : Response Body) : Async (list Request) Body :=
  match json response with
  | Some data => ret data
  | None => throw SyntaxError
  end.

(** The request of the extraction: the prompt as the system message,
    the quoted query as the user message, a JSON object asked for. *)
Definition search_request (query : string) : Request :=
  {| url := OPENROUTER_API_BASE_URL +:+ "/chat/completions";
     authorization := "Bearer " +:+ OPENROUTER_API_KEY;
     model := OPENROUTER_CHAT_MODEL;
     messages :=
       [ {| msg_role := "system"; msg_content := DISCOVER_SEARCH_INSTRUCTION |};
         {| msg_role := "user";
            msg_content := "User Query: " +:+ quote +:+ query +:+ quote |} ];
     response_format := Some "json_object" |}.

Definition getSearchTermsFromAI (provider : Request → FetchOutcome Body) (query : string)
  : Async (list Request) AISearchData :=
  try_catch
    (response <- post provider (search_request query);;
     if negb (ok response) then throw (api_error response) else
     data <- read_body response;;
     jsonString <- first_content data;;
     if negb (JS.truthy_opt_string jsonString) then
       throw (Error "AI returned an empty response.")
     else
       match JSON_parse (default "" jsonString) with
       | Some parsed => ret parsed
       | None => throw SyntaxError
       end)
    (λ error, ret (raw_query_only query)).

(** The request of the chat: the persona as the system message, then
    the history without its error entries, ['ai'] renamed. *)
Definition chat_request (history : list ChatMessage) : Request :=
  let messages :=
    map (λ msg, {| msg_role := if bool_decide (role msg = "ai") then "assistant" else "user";
                   msg_content := content msg |})
        (List.filter (λ msg, negb (bool_decide (role msg = "error"))) history) in
  {| url := OPENROUTER_API_BASE_URL +:+ "/chat/completions";
     authorization := "Bearer " +:+ OPENROUTER_API_KEY;
     model := OPENROUTER_CHAT_MODEL;
     messages :=
       {| msg_role := "system"; msg_content := CHAT_SYSTEM_INSTRUCTION |} :: messages;
     response_format := None |}.

Definition getChatResponseFromAI (provider : Request → FetchOutcome Body)
    (history : list ChatMessage) : Async (list Request) string :=
  try_catch
    (response <- post provider (chat_request history);;
     if negb (ok response) then throw (api_error response) else
     data <- read_body response;;
     content <- first_content data;;
     if negb (JS.truthy_opt_string content) then
       throw (Error "AI returned an empty or invalid chat response.")
     else ret (default "" content))
    (λ error, throw chat_failure).

End Client.

End OpenRouter.

(** *** The SDK-mediated client

    [ai.models.generateContent] either rejects or gives a response whose
    [text] is a string or [undefined]. *)

Module Gemini.
Import AI.

Record Content : Type := { content_role : string; parts : list string }.

Inductive Contents : Type :=
  | prompt (text : string)
  | turns (contents : list Content).

Record Request : Type := {
  model : string;
  contents : Contents;
  systemInstruction : option string;
  responseMimeType : option string;
  responseSchema : bool          (* whether the criteria schema is attached *)
}.

Inductive Outcome : Type :=
  | sdk_rejects (reason : Exn)
  | sdk_resolves (text : option string).

Definition generateContent (provider : Request → Outcome) (request : Request)
  : Async (list Request) (option string) :=
  λ sent, match provider request with
          | sdk_rejects reason => (Thrown reason, (sent ++ [request])%list)
          | sdk_resolves text => (Returned text, (sent ++ [request])%list)
          end.

Section Client.

Variable DISCOVER_SEARCH_INSTRUCTION : string.
Variable JSON_parse : string → option AISearchData.

Definition search_request (query : string) : Request :=
  {| model := "gemini-2.5-flash";
     contents := prompt ("User Query: " +:+ quote +:+ query +:+ quote);
     systemInstruction := Some DISCOVER_SEARCH_INSTRUCTION;
     responseMimeType := Some "application/json";
     responseSchema := true |}.

Definition getSearchTermsFromAI (provider : Request → Outcome) (query : string)
  : Async (list Request) AISearchData :=
  try_catch
    (jsonString <- generateContent provider (search_request query);;
     if negb (JS.truthy_opt_string jsonString) then
       throw (Error "AI returned an empty response.")
     else
       match JSON_parse (default "" jsonString) with
       | Some parsed => ret parsed
       | None => throw SyntaxError
       end)
    (λ error, ret (raw_query_only query)).

(** The application's messages in the shape the SDK expects. *)
Definition chat_request (history : list ChatMessage) : Request :=
  let contents :=
    map (λ msg, {| content_role := if bool_decide (role msg = "ai") then "model" else "user";
                   parts := [content msg] |})
        (List.filter (λ msg, negb (bool_decide (role msg = "error"))) history) in
  {| model := "gemini-2.5-flash";
     contents := turns contents;
     systemInstruction := Some CHAT_SYSTEM_INSTRUCTION;
     responseMimeType := None;
     responseSchema := false |}.

Definition getChatResponseFromAI (provider : Request → Outcome)
    (history : list ChatMessage) : Async (list Request) string :=
  try_catch
    (content <- generateContent provider (chat_request history);;
     if negb (JS.truthy_opt_string content) then
       throw (Error "AI returned an empty or invalid chat response.")
     else ret (default "" content))
    (λ error, throw chat_failure).

End Client.

End Gemini.

(** *** The SDK-mediated client, earlier form

    The extraction prompt is sent inside [contents], ahead of the query,
    and the reply is trimmed before it is tested and parsed.  Its chat
    function is, statement for statement, the one of [Gemini]. *)

Module GeminiInline.
Import AI Gemini.

Section Client.

Variable DISCOVER_SEARCH_INSTRUCTION : string.
Variable JSON_parse : string → option AISearchData.

Definition newline : string := String "010" EmptyString.

(** [response.text.trim()]: a [TypeError] when [text] is [undefined]. *)
Definition trimmed_text (text : option string) : Async (list Request) string :=
  match text with
  | Some t => ret (JS.trim t)
  | None => throw TypeError
  end.

Definition search_request (query : string) : Request :=
  {| model := "gemini-2.5-flash";
     contents := prompt (DISCOVER_SEARCH_INSTRUCTION +:+ newline +:+ newline
                         +:+ "User Query: " +:+ quote +:+ query +:+ quote);
     systemInstruction := None;
     responseMimeType := Some "application/json";
     responseSchema := true |}.

Definition getSearchTermsFromAI (provider : Request → Outcome) (query : string)
  : Async (list Request) AISearchData :=
  try_catch
    (text <- generateContent provider (search_request query);;
     jsonString <- trimmed_text text;;
     if negb (JS.truthy_string jsonString) then
       throw (Error "AI returned an empty response.")
     else
       match JSON_parse jsonString with
       | Some parsed => ret parsed
       | None => throw SyntaxError
       end)
    (λ error, ret (raw_query_only query)).

End Client.

End GeminiInline.

(** * Vocabulary of the properties *)

Definition outcome {St A} (r : Completion A * St) : Completion A := r.1.
Definition after {St A} (r : Completion A * St) : St := r.2.

(** The values a settled promise of a list hands to its caller. *)
Definition delivered {A} (c : Completion (list A)) : list A :=
  match c with Returned l => l | Thrown _ => [] end.

(** How one call of [fetchFromTMDb] settles, given what the remote side
    does with its URL. *)
Definition settles {T} (endpoint : string) (o : FetchOutcome T) : Completion T :=
  match o with
  | rejects => Thrown (Error ("Failed to fetch data from TMDb for " +:+ endpoint +:+ "."))
  | resolves response =>
      if ok response then
        match json response with
        | Some data => Returned data
        | None => Thrown SyntaxError
        end
      else Thrown (Error ("Failed to fetch data from TMDb for " +:+ endpoint +:+ "."))
  end.

Definition is_movie_or_tv_with_poster (r : TMDbResult) : Prop :=
  (media_type r = Some "movie" ∨ media_type r = Some "tv") ∧ poster_path r ≠ None.

(** The text of a completion as the raw HTTP client reads it:
    [choices[0].message.content] of the JSON body, when all of it is
    there. *)
Definition reply_text (response : Response OpenRouter.Body) : option string :=
  data ← json response;
  choices ← OpenRouter.choices data;
  choice ← head choices;
  m ← OpenRouter.choice_message choice;
  OpenRouter.reply_content m.

(** The ways a provider call fails: the transport fails, the status is not
    OK, the reply is empty, or the reply does not parse as JSON. *)
Inductive http_call_failed (parse : string → option AI.AISearchData)
  : FetchOutcome OpenRouter.Body → Prop :=
  | transport_error : http_call_failed parse rejects
  | status_not_ok response :
      ok response = false → http_call_failed parse (resolves response)
  | empty_reply response :
      reply_text response = None ∨ reply_text response = Some "" →
      http_call_failed parse (resolves response)
  | reply_not_json response text :
      reply_text response = Some text → parse text = None →
      http_call_failed parse (resolves response).

(** The same for the SDK; [clean] is what the client does to the text
    before it tests and parses it. *)
Inductive sdk_call_failed (clean : string → string) (parse : string → option AI.AISearchData)
  : Gemini.Outcome → Prop :=
  | sdk_error reason : sdk_call_failed clean parse (Gemini.sdk_rejects reason)
  | sdk_no_text : sdk_call_failed clean parse (Gemini.sdk_resolves None)
  | sdk_empty_text text :
      clean text = "" → sdk_call_failed clean parse (Gemini.sdk_resolves (Some text))
  | sdk_text_not_json text :
      parse (clean text) = None → sdk_call_failed clean parse (Gemini.sdk_resolves (Some text)).

(** A chat reply without content. *)
Definition http_reply_without_content (o : FetchOutcome OpenRouter.Body) : Prop :=
  ∃ response, o = resolves response ∧ (reply_text response = None ∨ reply_text response = Some "").

Definition sdk_reply_without_content (o : Gemini.Outcome) : Prop :=
  o = Gemini.sdk_resolves None ∨ o = Gemini.sdk_resolves (Some "").

(** The cache key of a phrase or a name. *)
Definition normalized (s : string) : string := JS.trim (JS.toLowerCase s).

(** The process after some more calls of [fetch]. *)
Definition record_fetches (calls : list Fetch) (p : Process) : Process :=
  {| keywordCache := keywordCache p; genreCache := genreCache p;
     fetched := (fetched p ++ calls)%list |}.

(** The pairs the [forEach] stores: for each response with a first match,
    the keyword it answers and the id of that match. *)
Definition first_match (at_index : TMDbKeywordResponse * string) : option (string * Z) :=
  match keyword_results at_index.1 with
  | first :: _ => Some (at_index.2, keyword_id first)
  | [] => None
  end.

Definition store_all (cache : gmap string Z) (pairs : list (string * Z)) : gmap string Z :=
  foldl (λ m kv, <[kv.1 := kv.2]> m) cache pairs.

(** A transport call fails: the network fails, the status is not OK, or
    the body is not JSON. *)
Inductive transport_fails {T} : FetchOutcome T → Prop :=
  | network_failure : transport_fails rejects
  | http_status response : ok response = false → transport_fails (resolves response)
  | bad_body response : json response = None → transport_fails (resolves response).

(** The distinct normalized phrases of a call, those of them the cache
    does not have, and the ids of the others. *)
Definition phrases (keywords : list string) : list string :=
  JS.distinct (map normalized keywords).

Definition uncached (p : Process) (keywords : list string) : list string :=
  filter (λ k, keywordCache p !! k = None) (phrases keywords).

Definition cached_ids (p : Process) (keywords : list string) : list Z :=
  omap (λ k, keywordCache p !! k) (phrases keywords).

(** The genre-list calls for a category among the calls made so far. *)
Definition genre_calls (type : MediaType) (p : Process) : list Fetch :=
  filter (λ f, fetch_endpoint f = genre_endpoint type) (fetched p).

(** Reading back what [encodeURIComponent] writes: the value of a hex
    digit, one [%XX] escape, and the first code unit of an encoded text
    with what follows it. *)
Definition hex_value (c : ascii) : option N :=
  let n := N_of_ascii c in
  if JS.in_range 48 57 n then Some (n - 48)%N
  else if JS.in_range 65 70 n then Some (n - 55)%N
  else None.

Definition read_escape (s : string) : option (N * string) :=
  match s with
  | String "%" (String high (String low rest)) =>
      match hex_value high, hex_value low with
      | Some h, Some l => Some ((16 * h + l)%N, rest)
      | _, _ => None
      end
  | _ => None
  end.

Definition decode_first (s : string) : option (ascii * string) :=
  match s with
  | EmptyString => None
  | String c rest =>
      if Ascii.eqb c "%" then
        match read_escape s with
        | Some (byte, rest1) =>
            if (byte <? 128)%N then Some (ascii_of_N byte, rest1)
            else match read_escape rest1 with
                 | Some (byte2, rest2) =>
                     Some (ascii_of_N ((byte - 192) * 64 + (byte2 - 128)), rest2)
                 | None => None
                 end
        | None => None
        end
      else Some (c, rest)
  end.

(** The first code unit of a text. *)
Definition first_unit (s : string) : option ascii :=
  match s with EmptyString => None | String c _ => Some c end.

(** A text that does not begin with white space. *)
Definition headed (s : string) : Prop :=
  match s with EmptyString => True | String c _ => JS.is_white c = false end.

(** [{ ...r, media_type: type }] *)
Definition tagged (type : MediaType) (r : TMDbResult) : TMDbResult :=
  {| id := id r; media_type := Some (media_type_name type); poster_path := poster_path r |}.

(** The ids of the genres of a list whose normalized name is among the
    normalized names asked for, in the order of the list. *)
Definition matching_ids (names : list string) (genreList : list Genre) : list Z :=
  map genre_id
    (List.filter (λ genre, bool_decide (normalized (genre_name genre) ∈ map normalized names))
       genreList).

(** An entry of the chat history that the provider is shown. *)
Definition shown (msg : ChatMessage) : bool := negb (bool_decide (role msg = "error")).

Section Vocabulary.

Variables KEY BASE : string.

Definition call_of (endpoint language : string) : Fetch :=
  {| fetch_endpoint := endpoint; fetch_url := final_url KEY BASE endpoint language |}.

Definition keyword_call (language k : string) : Fetch :=
  call_of (keyword_endpoint k) language.

(** How the search for one keyword settles. *)
Definition keyword_reply (server : string → FetchOutcome TMDbKeywordResponse)
    (language k : string) : Completion TMDbKeywordResponse :=
  settles (keyword_endpoint k) (server (final_url KEY BASE (keyword_endpoint k) language)).

(** The search for [k] came back with at least one match, the first of
    which has id [v]. *)
Definition first_match_is (server : string → FetchOutcome TMDbKeywordResponse)
    (language k : string) (v : Z) : Prop :=
  ∃ response data first rest,
    server (final_url KEY BASE (keyword_endpoint k) language) = resolves response
    ∧ ok response = true ∧ json response = Some data
    ∧ keyword_results data = first :: rest ∧ v = keyword_id first.

(** The search for [k] came back without any match. *)
Definition no_match (server : string → FetchOutcome TMDbKeywordResponse)
    (language k : string) : bool :=
  match server (final_url KEY BASE (keyword_endpoint k) language) with
  | resolves response =>
      ok response
      && match json response with
         | Some data => bool_decide (keyword_results data = [])
         | None => false
         end
  | rejects => false
  end.

Definition genre_call (type : MediaType) (language : string) : Fetch :=
  call_of (genre_endpoint type) language.

End Vocabulary.

(** ** Sessions

    A sequence of calls of the exported functions, each with what the
    remote side would answer at that moment, made one after the other:
    each call has handed over its answer before the next is made. *)

Section Sessions.

Variables KEY BASE : string.
Variable ProviderInfo : Type.

Inductive Call : Type :=
  | SearchMedia (server : string → FetchOutcome TMDbResponse)
      (query : string) (page : option Z) (language : string)
  | GetTrending (server : string → FetchOutcome TMDbResponse)
      (page : option Z) (language : string)
  | GetKeywordIds (server : string → FetchOutcome TMDbKeywordResponse)
      (keywords : list string) (language : string)
  | GetGenreIds (server : string → FetchOutcome GenreListResponse)
      (genreNames : list string) (type : MediaType) (language : string)
  | DiscoverMedia (server : string → FetchOutcome TMDbResponse)
      (type : MediaType) (genreIds keywordIds : list Z) (page : option Z)
      (sortOption : option SortOption) (language : string) (year : option Z)
  | GetMediaDetails (server : string → FetchOutcome TMDbResult)
      (mediaType : MediaType) (mediaId : Z) (language : string)
  | GetSimilarMedia (server : string → FetchOutcome TMDbResponse)
      (mediaType : MediaType) (mediaId : Z) (language : string)
  | GetRecommendedMedia (server : string → FetchOutcome TMDbResponse)
      (mediaType : MediaType) (mediaId : Z) (language : string)
  | GetWatchProviders (server : string → FetchOutcome (WatchProviderResponse ProviderInfo))
      (mediaType : MediaType) (mediaId : Z) (region : string).

(** The process after one call. *)
Definition process_after (c : Call) (p : Process) : Process :=
  match c with
  | SearchMedia server query page language =>
      after (searchMedia KEY BASE server query page language p)
  | GetTrending server page language =>
      after (getTrending KEY BASE server page language p)
  | GetKeywordIds server keywords language =>
      after (getKeywordIds KEY BASE server keywords language p)
  | GetGenreIds server genreNames type language =>
      after (getGenreIds KEY BASE server genreNames type language p)
  | DiscoverMedia server type genreIds keywordIds page sortOption language year =>
      after (discoverMedia KEY BASE server type genreIds keywordIds page sortOption language
               year p)
  | GetMediaDetails server mediaType mediaId language =>
      after (getMediaDetails KEY BASE server mediaType mediaId language p)
  | GetSimilarMedia server mediaType mediaId language =>
      after (getSimilarMedia KEY BASE server mediaType mediaId language p)
  | GetRecommendedMedia server mediaType mediaId language =>
      after (getRecommendedMedia KEY BASE server mediaType mediaId language p)
  | GetWatchProviders server mediaType mediaId region =>
      after (getWatchProviders KEY BASE server mediaType mediaId region p)
  end.

(** The process after a sequence of calls, one after the other. *)
Definition session (cs : list Call) (p : Process) : Process :=
  foldl (λ q c, process_after c q) p cs.

End Sessions.

Arguments process_after _ _ {ProviderInfo} _ _.
Arguments session _ _ {ProviderInfo} _ _.

(** ** Overlapping calls

    The functions are [async].  A call runs at once up to the [await] of
    its request: the guards, the test of the cache and the calls of
    [fetch] are done when the call is made.  The rest of its body, with
    the writes to the cache, runs when the replies are in; until then
    other calls can begin, and others can resume.  Nothing else
    interleaves: the code between two [await]s runs undisturbed.  So a
    call is cut in two: [begin] is what it does at once, [resume] what it
    does later, on the process as it is by then. *)

Section Overlap.

Variables KEY BASE : string.
Variable ProviderInfo : Type.

(** What a call hands to its caller, whichever function it is. *)
Inductive Answer : Type :=
  | Ids (ids : list Z)
  | Results (items : list TMDbResult)
  | Details (item : option TMDbResult)
  | Offer (offer : option (Property ProviderInfo)).

Definition answer {A} (wrap : A → Answer) (c : Completion A) : Completion Answer :=
  match c with Returned a => Returned (wrap a) | Thrown e => Thrown e end.

(** The tail of [getGenreIds], from [genreList] on. *)
Definition ids_of_names (genreNames : list string) (genreList : list Genre) : list Z :=
  let lowerCaseGenreNames := map (λ g, JS.trim (JS.toLowerCase g)) genreNames in
  map genre_id
    (List.filter
       (λ genre, bool_decide (JS.trim (JS.toLowerCase (genre_name genre))
                              ∈ lowerCaseGenreNames))
       genreList).

(** A call that has begun and has not handed over its answer yet:
    [getKeywordIds] at its [await Promise.all], with its two local arrays
    and what the promise settles to; [getGenreIds] at the [await] in
    [getGenreList], with what the request settles to; or a call with
    nothing left to do to the process, whose answer is determined.  The
    last covers the calls that read and write no cache, and the lookups
    that were served from the cache: the list a cached lookup filters is
    the array it read when it began, and arrays are replaced in the
    cache, never changed in place. *)
Inductive Pending : Type :=
  | AwaitKeywords (cachedIds : list Z) (keywordsToFetch : list string)
      (keywordResponses : Completion (list TMDbKeywordResponse))
  | AwaitGenres (genreNames : list string) (type : MediaType)
      (data : Completion GenreListResponse)
  | Settling (result : Completion Answer).

(** The process, and the calls under way, oldest first. *)
Record World : Type := { process : Process; pending : list Pending }.

Definition park (pd : Pending) (p : Process) (w : World) : World :=
  {| process := p; pending := (pending w ++ [pd])%list |}.

Definition begin (c : Call ProviderInfo) (w : World) : World :=
  let p := process w in
  match c with
  | SearchMedia _ server query page language =>
      let r := searchMedia KEY BASE server query page language p in
      park (Settling (answer Results (outcome r))) (after r) w
  | GetTrending _ server page language =>
      let r := getTrending KEY BASE server page language p in
      park (Settling (answer Results (outcome r))) (after r) w
  | GetKeywordIds _ server keywords language =>
      if Nat.eqb (length keywords) 0 then park (Settling (Returned (Ids []))) p w else
      let uniqueKeywords := JS.distinct (map (λ k, JS.trim (JS.toLowerCase k)) keywords) in
      let sorted := foldl (sort_out (keywordCache p)) ([], []) uniqueKeywords in
      let cachedIds := sorted.1 in
      let keywordsToFetch := sorted.2 in
      if Nat.ltb 0 (length keywordsToFetch) then
        let '(replies, p') :=
          start_all
            (map (λ keyword, fetchFromTMDb KEY BASE server (keyword_endpoint keyword)
                               (Some language))
                 keywordsToFetch) p in
        park (AwaitKeywords cachedIds keywordsToFetch (all_settled replies)) p' w
      else park (Settling (Returned (Ids (JS.distinct cachedIds)))) p w
  | GetGenreIds _ server genreNames type language =>
      if Nat.eqb (length genreNames) 0 then park (Settling (Returned (Ids []))) p w else
      if Nat.ltb 0 (length (genreCache_get (genreCache p) type)) then
        park (Settling (Returned (Ids (ids_of_names genreNames
                                         (genreCache_get (genreCache p) type))))) p w
      else
        let '(data, p') :=
          fetchFromTMDb KEY BASE server (genre_endpoint type) (Some language) p in
        park (AwaitGenres genreNames type data) p' w
  | DiscoverMedia _ server type genreIds keywordIds page sortOption language year =>
      let r := discoverMedia KEY BASE server type genreIds keywordIds page sortOption
                 language year p in
      park (Settling (answer Results (outcome r))) (after r) w
  | GetMediaDetails _ server mediaType mediaId language =>
      let r := getMediaDetails KEY BASE server mediaType mediaId language p in
      park (Settling (answer Details (outcome r))) (after r) w
  | GetSimilarMedia _ server mediaType mediaId language =>
      let r := getSimilarMedia KEY BASE server mediaType mediaId language p in
      park (Settling (answer Results (outcome r))) (after r) w
  | GetRecommendedMedia _ server mediaType mediaId language =>
      let r := getRecommendedMedia KEY BASE server mediaType mediaId language p in
      park (Settling (answer Results (outcome r))) (after r) w
  | GetWatchProviders _ server mediaType mediaId region =>
      let r := getWatchProviders KEY BASE server mediaType mediaId region p in
      park (Settling (answer Offer (outcome r))) (after r) w
  end.

(** The call at place [i] among those under way goes on to its end; what
    it hands over comes with the new state.  There is nothing to resume
    at a place that is not taken. *)
Definition resume (i : nat) (w : World) : World * option (Completion Answer) :=
  let p := process w in
  match pending w !! i with
  | None => (w, None)
  | Some pd =>
      let others := delete i (pending w) in
      match pd with
      | AwaitKeywords cachedIds keywordsToFetch (Returned keywordResponses) =>
          let found := foldl keep_first_match (cachedIds, keywordCache p)
                             (zip keywordResponses keywordsToFetch) in
          ({| process := set_keywordCache found.2 p; pending := others |},
           Some (Returned (Ids (JS.distinct found.1))))
      | AwaitKeywords _ _ (Thrown e) =>
          ({| process := p; pending := others |}, Some (Thrown e))
      | AwaitGenres genreNames type (Returned data) =>
          ({| process := set_genres type (genres data) p; pending := others |},
           Some (Returned (Ids (ids_of_names genreNames (genres data)))))
      | AwaitGenres _ _ (Thrown e) =>
          ({| process := p; pending := others |}, Some (Thrown e))
      | Settling result =>
          ({| process := p; pending := others |}, Some result)
      end
  end.

(** What happens in the life of the process: a call is made, or one
    under way is resumed. *)
Inductive Event : Type :=
  | Begin (c : Call ProviderInfo)
  | Resume (i : nat).

Definition step (e : Event) (w : World) : World :=
  match e with
  | Begin c => begin c w
  | Resume i => (resume i w).1
  end.

Definition run (es : list Event) (w : World) : World := foldl (λ v e, step e v) w es.

(** How often, along a run, an event meets a condition on the state it
    happens in. *)
Fixpoint count_along (test : Event → World → bool) (es : list Event) (w : World) : nat :=
  match es with
  | [] => 0
  | e :: rest => (if test e w then 1 else 0) + count_along test rest (step e w)
  end.

(** The call under way is waiting for the genre list of the category. *)
Definition awaits_genres (type : MediaType) (pd : Pending) : bool :=
  match pd with
  | AwaitGenres _ t _ => bool_decide (t = type)
  | _ => false
  end.

(** The event is a lookup for the category, for at least one name, that
    begins while the category's list in the cache is empty: it sends for
    the list. *)
Definition sends_for_genres (type : MediaType) (e : Event) (w : World) : bool :=
  match e with
  | Begin (GetGenreIds _ _ genreNames t _) =>
      bool_decide (t = type) && negb (Nat.eqb (length genreNames) 0)
      && negb (Nat.ltb 0 (length (genreCache_get (genreCache (process w)) t)))
  | _ => false
  end.

(** ... and it does so while another lookup is still waiting for that
    list. *)
Definition sends_while_awaited (type : MediaType) (e : Event) (w : World) : bool :=
  sends_for_genres type e w && existsb (awaits_genres type) (pending w).

(** The event resumes a lookup for the category whose request failed or
    brought an empty list. *)
Definition comes_back_empty (type : MediaType) (e : Event) (w : World) : bool :=
  match e with
  | Resume i =>
      match pending w !! i with
      | Some (AwaitGenres _ t (Returned data)) =>
          bool_decide (t = type) && Nat.eqb (length (genres data)) 0
      | Some (AwaitGenres _ t (Thrown _)) => bool_decide (t = type)
      | _ => false
      end
  | Begin _ => false
  end.

(** The category's list is in the cache, or a lookup is waiting for it. *)
Definition genres_in_hand (type : MediaType) (w : World) : bool :=
  Nat.ltb 0 (length (genreCache_get (genreCache (process w)) type))
  || existsb (awaits_genres type) (pending w).

(** The call under way will write the cache entry of the phrase, if its
    requests succeed. *)
Definition fetches_phrase (k : string) (pd : Pending) : Prop :=
  match pd with
  | AwaitKeywords _ keywordsToFetch _ => k ∈ keywordsToFetch
  | _ => False
  end.

(** No call under way will write the entry of the phrase, or the list of
    the category. *)
Definition phrase_at_rest (k : string) (w : World) : Prop :=
  Forall (λ pd, ¬ fetches_phrase k pd) (pending w).

Definition genres_at_rest (type : MediaType) (w : World) : Prop :=
  Forall (λ pd, awaits_genres type pd = false) (pending w).

(** The state in which no call is under way. *)
Definition idle (p : Process) : World := {| process := p; pending := [] |}.

End Overlap.

Arguments Ids {ProviderInfo} ids.
Arguments Results {ProviderInfo} items.
Arguments Details {ProviderInfo} item.
Arguments Offer {ProviderInfo} offer.
Arguments answer {ProviderInfo A} _ _.
Arguments AwaitKeywords {ProviderInfo} _ _ _.
Arguments AwaitGenres {ProviderInfo} _ _ _.
Arguments Settling {ProviderInfo} _.
Arguments process {ProviderInfo} _.
Arguments pending {ProviderInfo} _.
Arguments park {ProviderInfo} _ _ _.
Arguments begin _ _ {ProviderInfo} _ _.
Arguments resume {ProviderInfo} _ _.
Arguments Begin {ProviderInfo} c.
Arguments Resume {ProviderInfo} i.
Arguments step _ _ {ProviderInfo} _ _.
Arguments run _ _ {ProviderInfo} _ _.
Arguments count_along _ _ {ProviderInfo} _ _ _.
Arguments awaits_genres {ProviderInfo} _ _.
Arguments sends_for_genres {ProviderInfo} _ _ _.
Arguments genres_in_hand {ProviderInfo} _ _.
Arguments sends_while_awaited {ProviderInfo} _ _ _.
Arguments comes_back_empty {ProviderInfo} _ _ _.
Arguments fetches_phrase {ProviderInfo} _ _.
Arguments phrase_at_rest {ProviderInfo} _ _.
Arguments genres_at_rest {ProviderInfo} _ _.
Arguments idle {ProviderInfo} _.

(** ** Concrete inputs *)

Definition demo_key : string := "0123456789abcdef".
Definition demo_base : string := "https://api.themoviedb.org/3".

(** A remote side that cannot be reached, one that finds no keyword, and
    one that knows the keyword it is asked for. *)
Definition unreachable {T} : string → FetchOutcome T := λ _, rejects.

Definition finds_nothing : string → FetchOutcome TMDbKeywordResponse :=
  λ _, resolves {| ok := true; status := 200; statusText := "OK";
                   json := Some {| keyword_results := [] |} |}.

Definition finds_time_travel : string → FetchOutcome TMDbKeywordResponse :=
  λ _, resolves {| ok := true; status := 200; statusText := "OK";
                   json := Some {| keyword_results :=
                     [ {| keyword_id := 4379; keyword_name := "time travel" |};
                       {| keyword_id := 10854; keyword_name := "time travel romance" |} ] |} |}.

Definition movie_genre_list : string → FetchOutcome GenreListResponse :=
  λ _, resolves {| ok := true; status := 200; statusText := "OK";
                   json := Some {| genres :=
                     [ {| genre_id := 28; genre_name := "Action" |};
                       {| genre_id := 878; genre_name := "Science Fiction" |} ] |} |}.

Definition empty_genre_list : string → FetchOutcome GenreListResponse :=
  λ _, resolves {| ok := true; status := 200; statusText := "OK";
                   json := Some {| genres := [] |} |}.

Definition trending_page : Response TMDbResponse :=
  {| ok := true; status := 200; statusText := "OK";
     json := Some {| results :=
       [ {| id := 603; media_type := Some "movie"; poster_path := Some "/matrix.jpg" |};
         {| id := 6384; media_type := Some "person"; poster_path := Some "/reeves.jpg" |};
         {| id := 1399; media_type := Some "tv"; poster_path := None |} ] |} |}.

(** A [JSON.parse] that knows one text. *)
Definition parse_braces (text : string) : option AI.AISearchData :=
  if bool_decide (text = "{}") then
    Some {| AI.search_query := None; AI.media_type := None; AI.genres := None;
            AI.keywords := None; AI.year := None |}
  else None.

(** Providers: one that cannot be reached, one that answers [{}]. *)
Definition offline : OpenRouter.Request → FetchOutcome OpenRouter.Body := λ _, rejects.

Definition answers_braces : OpenRouter.Request → FetchOutcome OpenRouter.Body :=
  λ _, resolves
         {| ok := true; status := 200; statusText := "OK";
            json := Some {| OpenRouter.error := None;
                            OpenRouter.choices :=
                              Some [ {| OpenRouter.choice_message :=
                                          Some {| OpenRouter.reply_content := Some "{}" |} |} ] |} |}.

Definition no_choice : Response OpenRouter.Body :=
  {| ok := true; status := 200; statusText := "OK";
     json := Some {| OpenRouter.error := None; OpenRouter.choices := Some [] |} |}.

(** A remote side that answers every request with an error status. *)
Definition server_error {T} : string → FetchOutcome T :=
  λ _, resolves {| ok := false; status := 500; statusText := "Internal Server Error";
                   json := None |}.

Definition serves_trending_page : string → FetchOutcome TMDbResponse :=
  λ _, resolves trending_page.

Definition matrix : TMDbResult :=
  {| id := 603; media_type := None; poster_path := Some "/matrix.jpg" |}.

Definition serves_matrix : string → FetchOutcome TMDbResult :=
  λ _, resolves {| ok := true; status := 200; statusText := "OK"; json := Some matrix |}.

(** Watch providers, with the link of a region as what is on offer. *)
Definition serves_providers : string → FetchOutcome (WatchProviderResponse string) :=
  λ _, resolves {| ok := true; status := 200; statusText := "OK";
                   json := Some {| provider_results :=
                     Some {[ "US" := "https://www.themoviedb.org/movie/603/watch?locale=US" ]} |} |}.

(** A process that has resolved one keyword and fetched the movie genres. *)
Definition warm : Process :=
  {| keywordCache := {[ "time travel" := 4379%Z ]};
     genreCache := {| movie_genres := [ {| genre_id := 28; genre_name := "Action" |};
                                        {| genre_id := 878; genre_name := "Science Fiction" |} ];
                      tv_genres := [] |};
     fetched := [] |}.

(** Some calls of every kind, against remote sides that fail or know
    nothing. *)
Definition busy_session : list (Call string) :=
  [ GetTrending string unreachable None "en-US";
    SearchMedia string server_error "alien" (Some 2%Z) "en-US";
    GetGenreIds string empty_genre_list ["Drama"] tv "en-US";
    GetGenreIds string unreachable ["Action"] movie "fr-FR";
    GetKeywordIds string finds_nothing ["heist"; " Time Travel"] "fr-FR";
    DiscoverMedia string unreachable tv [18%Z] [] None None "en-US" None;
    GetMediaDetails string serves_matrix movie 603 "en-US";
    GetSimilarMedia string serves_trending_page movie 603 "en-US";
    GetRecommendedMedia string unreachable tv 1399 "en-US";
    GetWatchProviders string serves_providers movie 603 "US" ].

(** The same calls all made before any of them is resumed, then resumed
    in the order in which they were made. *)
Definition busy_run : list (Event string) :=
  (Begin <$> busy_session) ++ replicate (length busy_session) (Resume 0).

(** Two lookups of movie genres: the second made while the first is
    waiting for the list, and the second made after the first has failed. *)
Definition two_lookups_at_once : list (Event string) :=
  [ Begin (GetGenreIds string movie_genre_list ["Action"] movie "en-US");
    Begin (GetGenreIds string movie_genre_list ["Comedy"] movie "en-US");
    Resume 0; Resume 0 ].

Definition retry_after_failure : list (Event string) :=
  [ Begin (GetGenreIds string unreachable ["Action"] movie "en-US"); Resume 0;
    Begin (GetGenreIds string movie_genre_list ["Comedy"] movie "en-US"); Resume 0 ].

Definition retry_after_empty_list : list (Event string) :=
  [ Begin (GetGenreIds string empty_genre_list ["Action"] movie "en-US"); Resume 0;
    Begin (GetGenreIds string empty_genre_list ["Action"] movie "en-US"); Resume 0 ].

(** A remote side that knows the keyword under another id. *)
Definition finds_time_travel_anew : string → FetchOutcome TMDbKeywordResponse :=
  λ _, resolves {| ok := true; status := 200; statusText := "OK";
                   json := Some {| keyword_results :=
                     [ {| keyword_id := 10854; keyword_name := "time travel" |} ] |} |}.

Definition chat_history : list ChatMessage :=
  [ {| role := "user"; content := "Something like Alien?" |};
    {| role := "ai"; content := "Try Aliens." |};
    {| role := "error"; content := "Sorry, something went wrong." |};
    {| role := "user"; content := "And a comedy?" |} ].

(** * Properties *)

Local Open Scope list_scope.
Local Open Scope nat_scope.

(** ** The transport *)

Section TransportFacts.

Variables KEY BASE : string.

Lemma fetchFromTMDb_run {T} (server : string → FetchOutcome T) endpoint language p :
  fetchFromTMDb KEY BASE server endpoint (Some language) p
  = (settles endpoint (server (final_url KEY BASE endpoint language)),
     record_fetch (call_of KEY BASE endpoint language) p).
Proof.
  unfold fetchFromTMDb, bind, try_catch, fetch, settles, call_of; simpl.
  destruct (server _) as [|response]; simpl; [done|].
  destruct (ok response); simpl; [|done].
  by destruct (json response).
Qed.

End TransportFacts.

Section QueryBuilder.

Variables KEY BASE : string.

(** C7. The sort-option mapping: [popularity] gives [popularity.desc],
    [rating] gives [vote_average.desc], [release_date] gives
    [primary_release_date.desc] for a movie and [first_air_date.desc] for
    tv, and an absent or any other sort option gives [popularity.desc]. *)
Theorem sort_option_mapping :
  (∀ type, getSortByValue (Some "popularity") type = "popularity.desc")
  ∧ (∀ type, getSortByValue (Some "rating") type = "vote_average.desc")
  ∧ getSortByValue (Some "release_date") movie = "primary_release_date.desc"
  ∧ getSortByValue (Some "release_date") tv = "first_air_date.desc"
  ∧ (∀ type, getSortByValue None type = "popularity.desc")
  ∧ (∀ other type, other ≠ "release_date" → other ≠ "rating" →
       getSortByValue (Some other) type = "popularity.desc").
Proof.
  repeat split; try done.
  intros other type Hdate Hrating. unfold getSortByValue.
  rewrite !bool_decide_eq_false_2 by congruence.
  by case_bool_decide.
Qed.

(** C2. With no genre id, no keyword id and no year, [discoverMedia]
    returns the empty list and leaves the process as it was: nothing is
    fetched.  This holds for every category, sort option and page. *)
Theorem discover_without_criteria
    (server : string → FetchOutcome TMDbResponse) (type : MediaType) (page : option Z)
    (sortOption : option SortOption) (language : string) (p : Process) :
  discoverMedia KEY BASE server type [] [] page sortOption language None p = (Returned [], p).
Proof. reflexivity. Qed.

Lemma wanted_sound r : wanted r = true → is_movie_or_tv_with_poster r.
Proof.
  unfold wanted, is_movie_or_tv_with_poster. intros H.
  apply andb_true_iff in H as [Htype Hposter]. split.
  - apply orb_true_iff in Htype as [H|H]; apply bool_decide_eq_true in H; auto.
  - by destruct (poster_path r).
Qed.

Lemma filter_wanted_sound l : Forall is_movie_or_tv_with_poster (List.filter wanted l).
Proof.
  apply Forall_forall. intros r Hr. apply list_elem_of_In, filter_In in Hr as [_ Hr].
  by apply wanted_sound.
Qed.

Lemma searchMedia_run server query page language p :
  outcome (searchMedia KEY BASE server query page language p)
  = if JS.truthy_string query then
      match settles
              ("search/multi?query=" +:+ JS.encodeURIComponent query +:+ "&page="
               +:+ JS.show (default 1%Z page) +:+ "&include_adult=false")
              (server (final_url KEY BASE
                 ("search/multi?query=" +:+ JS.encodeURIComponent query +:+ "&page="
                  +:+ JS.show (default 1%Z page) +:+ "&include_adult=false") language)) with
      | Returned data => Returned (List.filter wanted (results data))
      | Thrown e => Thrown e
      end
    else Returned [].
Proof.
  unfold searchMedia, outcome. destruct (JS.truthy_string query); simpl; [|done].
  unfold bind. rewrite fetchFromTMDb_run. by destruct (settles _ _).
Qed.

Lemma getTrending_run server page language p :
  outcome (getTrending KEY BASE server page language p)
  = match settles ("trending/all/week?page=" +:+ JS.show (default 1%Z page))
            (server (final_url KEY BASE
               ("trending/all/week?page=" +:+ JS.show (default 1%Z page)) language)) with
    | Returned data => Returned (List.filter wanted (results data))
    | Thrown e => Thrown e
    end.
Proof.
  unfold getTrending, outcome, bind. rewrite fetchFromTMDb_run. by destruct (settles _ _).
Qed.

(** C10. Every item that [searchMedia] or [getTrending] hands back has
    media type ['movie'] or ['tv'] and a poster path that is not null; when
    the request succeeds, the items handed back are those items of the
    reply that have such a type and a non-empty poster path, so every
    other item of the reply is left out. *)
Theorem media_lists_are_filtered
    (server : string → FetchOutcome TMDbResponse) (query : string) (page : option Z)
    (language : string) (p : Process) :
  Forall is_movie_or_tv_with_poster
    (delivered (outcome (searchMedia KEY BASE server query page language p)))
  ∧ Forall is_movie_or_tv_with_poster
    (delivered (outcome (getTrending KEY BASE server page language p)))
  ∧ (∀ response data,
       server (final_url KEY BASE ("trending/all/week?page=" +:+ JS.show (default 1%Z page))
                         language) = resolves response →
       ok response = true → json response = Some data →
       ∃ items,
         outcome (getTrending KEY BASE server page language p) = Returned items
         ∧ ∀ r, r ∈ items ↔ r ∈ results data ∧ is_movie_or_tv_with_poster r
                             ∧ poster_path r ≠ Some "")
  ∧ (∀ response data,
       query ≠ "" →
       server (final_url KEY BASE
                 ("search/multi?query=" +:+ JS.encodeURIComponent query +:+ "&page="
                  +:+ JS.show (default 1%Z page) +:+ "&include_adult=false") language)
         = resolves response →
       ok response = true → json response = Some data →
       ∃ items,
         outcome (searchMedia KEY BASE server query page language p) = Returned items
         ∧ ∀ r, r ∈ items ↔ r ∈ results data ∧ is_movie_or_tv_with_poster r
                             ∧ poster_path r ≠ Some "").
Proof.
  assert (Hiff : ∀ l r, r ∈ List.filter wanted l
                        ↔ r ∈ l ∧ is_movie_or_tv_with_poster r ∧ poster_path r ≠ Some "").
  { intros l r. rewrite !list_elem_of_In, filter_In. split.
    - intros [Hin Hw]. split; [done|]. split; [by apply wanted_sound|].
      intros Hp. unfold wanted in Hw. rewrite Hp in Hw. simpl in Hw.
      by rewrite andb_false_r in Hw.
    - intros (Hin & [Htype Hposter] & Hne). split; [done|]. unfold wanted.
      apply andb_true_iff. split.
      + apply orb_true_iff. destruct Htype as [H|H]; [left|right]; by apply bool_decide_eq_true.
      + destruct (poster_path r) as [[|c s]|]; done. }
  split; [|split; [|split]].
  - rewrite searchMedia_run. destruct (JS.truthy_string query); [|by constructor].
    destruct (settles _ _); simpl; [apply filter_wanted_sound | constructor].
  - rewrite getTrending_run. destruct (settles _ _); simpl;
      [apply filter_wanted_sound | constructor].
  - intros response data Hsrv Hok Hjson. rewrite getTrending_run, Hsrv. simpl.
    rewrite Hok, Hjson. eexists; split; [done|]. apply Hiff.
  - intros response data Hq Hsrv Hok Hjson. rewrite searchMedia_run, Hsrv.
    destruct query as [|c q]; [done|]. simpl. rewrite Hok, Hjson.
    eexists; split; [done|]. apply Hiff.
Qed.

End QueryBuilder.

(** ** Criteria extraction and chat *)

Section Extraction.

Variables API_KEY BASE_URL CHAT_MODEL : string.
Variable INSTRUCTION : string.
Variable JSON_parse : string → option AI.AISearchData.

Local Abbreviation http_search :=
  (OpenRouter.getSearchTermsFromAI API_KEY BASE_URL CHAT_MODEL INSTRUCTION JSON_parse).
Local Abbreviation http_search_request :=
  (OpenRouter.search_request API_KEY BASE_URL CHAT_MODEL INSTRUCTION).
Local Abbreviation sdk_search := (Gemini.getSearchTermsFromAI INSTRUCTION JSON_parse).
Local Abbreviation inline_search := (GeminiInline.getSearchTermsFromAI INSTRUCTION JSON_parse).

Lemma try_catch_total {St A} (body : Async St A) (fallback : A) s :
  ∃ a, outcome (try_catch body (λ _, ret fallback) s) = Returned a.
Proof. unfold try_catch, outcome, ret. destruct (body s) as [[a|e] s']; simpl; eauto. Qed.

Lemma http_search_degrades provider query sent :
  http_call_failed JSON_parse (provider (http_search_request query)) →
  outcome (http_search provider query sent) = Returned (AI.raw_query_only query).
Proof.
  unfold OpenRouter.getSearchTermsFromAI, outcome, try_catch, bind, OpenRouter.post.
  intros Hfail. inversion Hfail as [Ho|response Hok Ho|response Hempty Ho|response text Htext Hparse Ho];
    simpl; [done|by rewrite Hok|..].
  - destruct (ok response); simpl; [|done]. unfold reply_text in Hempty.
    unfold OpenRouter.read_body, OpenRouter.first_content.
    destruct (json response) as [data|]; simpl in *; [|done].
    destruct (OpenRouter.choices data) as [[|choice rest]|]; simpl in *; [done| |done].
    destruct (OpenRouter.choice_message choice) as [m|]; simpl in *; [|done].
    destruct Hempty as [-> | ->]; done.
  - destruct (ok response); simpl; [|done]. unfold reply_text in Htext.
    unfold OpenRouter.read_body, OpenRouter.first_content.
    destruct (json response) as [data|]; simpl in *; [|done].
    destruct (OpenRouter.choices data) as [[|choice rest]|]; simpl in *; [done| |done].
    destruct (OpenRouter.choice_message choice) as [m|]; simpl in *; [|done].
    rewrite Htext. simpl. destruct (JS.truthy_string text); simpl; [|done].
    by rewrite Hparse.
Qed.

Lemma sdk_search_degrades provider query sent :
  sdk_call_failed (λ text, text) JSON_parse (provider (Gemini.search_request INSTRUCTION query)) →
  outcome (sdk_search provider query sent) = Returned (AI.raw_query_only query).
Proof.
  unfold Gemini.getSearchTermsFromAI, outcome, try_catch, bind, Gemini.generateContent.
  intros Hfail. inversion Hfail as [reason Ho|Ho|text Hempty Ho|text Hparse Ho]; simpl;
    try done.
  - by rewrite Hempty.
  - destruct (JS.truthy_string text); simpl; [|done]. by rewrite Hparse.
Qed.

Lemma inline_search_degrades provider query sent :
  sdk_call_failed JS.trim JSON_parse
    (provider (GeminiInline.search_request INSTRUCTION query)) →
  outcome (inline_search provider query sent) = Returned (AI.raw_query_only query).
Proof.
  unfold GeminiInline.getSearchTermsFromAI, outcome, try_catch, bind,
    Gemini.generateContent.
  intros Hfail. inversion Hfail as [reason Ho|Ho|text Hempty Ho|text Hparse Ho]; simpl;
    try done.
  - by rewrite Hempty.
  - destruct (JS.truthy_string (JS.trim text)); simpl; [|done]. by rewrite Hparse.
Qed.

(** C1. Whatever the provider does, [getSearchTermsFromAI] returns a
    criteria object and never throws; and when the provider call fails
    (transport error, non-OK status, empty reply, reply that is not
    JSON), the object returned is [{ search_query: query }] for the query
    it was given.  This holds for the raw HTTP client and for both forms
    of the SDK-mediated one. *)
Theorem extraction_never_fails (query : string) (sent_http : list OpenRouter.Request)
    (sent_sdk : list Gemini.Request) :
  (∀ provider,
     (∃ data, outcome (http_search provider query sent_http) = Returned data)
     ∧ (http_call_failed JSON_parse (provider (http_search_request query)) →
        outcome (http_search provider query sent_http) = Returned (AI.raw_query_only query)))
  ∧ (∀ provider,
     (∃ data, outcome (sdk_search provider query sent_sdk) = Returned data)
     ∧ (sdk_call_failed (λ text, text) JSON_parse
          (provider (Gemini.search_request INSTRUCTION query)) →
        outcome (sdk_search provider query sent_sdk) = Returned (AI.raw_query_only query)))
  ∧ (∀ provider,
     (∃ data, outcome (inline_search provider query sent_sdk) = Returned data)
     ∧ (sdk_call_failed JS.trim JSON_parse
          (provider (GeminiInline.search_request INSTRUCTION query)) →
        outcome (inline_search provider query sent_sdk) = Returned (AI.raw_query_only query))).
Proof.
  repeat split.
  - apply try_catch_total.
  - apply http_search_degrades.
  - apply try_catch_total.
  - apply sdk_search_degrades.
  - apply try_catch_total.
  - apply inline_search_degrades.
Qed.

End Extraction.

Section Chat.

Variables API_KEY BASE_URL CHAT_MODEL : string.

Local Abbreviation http_chat := (OpenRouter.getChatResponseFromAI API_KEY BASE_URL CHAT_MODEL).
Local Abbreviation http_chat_request := (OpenRouter.chat_request API_KEY BASE_URL CHAT_MODEL).

(** The raw HTTP chat returns exactly when the reply is OK and carries a
    non-empty text, and then it returns that text. *)
Lemma http_chat_run provider history sent :
  outcome (http_chat provider history sent)
  = match provider (http_chat_request history) with
    | rejects => Thrown AI.chat_failure
    | resolves response =>
        if ok response then
          match reply_text response with
          | Some text => if JS.truthy_string text then Returned text
                         else Thrown AI.chat_failure
          | None => Thrown AI.chat_failure
          end
        else Thrown AI.chat_failure
    end.
Proof.
  unfold OpenRouter.getChatResponseFromAI, outcome, try_catch, bind, OpenRouter.post,
    reply_text.
  destruct (provider _) as [|response]; simpl; [done|].
  destruct (ok response); simpl; [|done].
  unfold OpenRouter.read_body, OpenRouter.first_content.
  destruct (json response) as [data|]; simpl; [|done].
  destruct (OpenRouter.choices data) as [[|choice rest]|]; simpl; [done| |done].
  destruct (OpenRouter.choice_message choice) as [m|]; simpl; [|done].
  destruct (OpenRouter.reply_content m) as [text|]; simpl; [|done].
  by destruct (JS.truthy_string text).
Qed.

Lemma sdk_chat_run provider history sent :
  outcome (Gemini.getChatResponseFromAI provider history sent)
  = match provider (Gemini.chat_request history) with
    | Gemini.sdk_rejects _ => Thrown AI.chat_failure
    | Gemini.sdk_resolves (Some text) =>
        if JS.truthy_string text then Returned text else Thrown AI.chat_failure
    | Gemini.sdk_resolves None => Thrown AI.chat_failure
    end.
Proof.
  unfold Gemini.getChatResponseFromAI, outcome, try_catch, bind, Gemini.generateContent.
  destruct (provider _) as [reason|[text|]]; simpl; try done.
  by destruct (JS.truthy_string text).
Qed.

(** C9. For every chat history, when the provider's reply carries no
    content, [getChatResponseFromAI] throws the error ["Failed to get chat
    response from AI."]; and a text it does return is the non-empty text
    of the provider's reply, never a substitute.  This holds for the raw
    HTTP client and for the SDK-mediated one. *)
Theorem chat_without_content_throws (history : list ChatMessage)
    (sent_http : list OpenRouter.Request) (sent_sdk : list Gemini.Request) :
  (∀ provider,
     (http_reply_without_content (provider (http_chat_request history)) →
      outcome (http_chat provider history sent_http) = Thrown AI.chat_failure)
     ∧ (∀ text, outcome (http_chat provider history sent_http) = Returned text →
                text ≠ ""
                ∧ ∃ response, provider (http_chat_request history) = resolves response
                              ∧ reply_text response = Some text))
  ∧ (∀ provider,
     (sdk_reply_without_content (provider (Gemini.chat_request history)) →
      outcome (Gemini.getChatResponseFromAI provider history sent_sdk)
      = Thrown AI.chat_failure)
     ∧ (∀ text, outcome (Gemini.getChatResponseFromAI provider history sent_sdk)
                = Returned text →
                text ≠ "" ∧ provider (Gemini.chat_request history)
                            = Gemini.sdk_resolves (Some text))).
Proof.
  split; intros provider; split.
  - intros (response & Ho & Hempty). rewrite http_chat_run, Ho.
    destruct (ok response); [|done]. by destruct Hempty as [-> | ->].
  - intros text. rewrite http_chat_run.
    destruct (provider _) as [|response]; [done|].
    destruct (ok response); [|done].
    destruct (reply_text response) as [t|] eqn:Ht; [|done].
    destruct t as [|c t]; simpl; [done|].
    intros [= <-]. split; [done|]. by exists response.
  - intros Hempty. rewrite sdk_chat_run. by destruct Hempty as [-> | ->].
  - intros text. rewrite sdk_chat_run.
    destruct (provider _) as [reason|[t|]]; [done| |done].
    destruct t as [|c t]; simpl; [done|].
    by intros [= <-].
Qed.

End Chat.

(** ** The keyword cache *)

Lemma settles_thrown {T} endpoint (o : FetchOutcome T) :
  transport_fails o ↔ ∃ e, settles endpoint o = Thrown e.
Proof.
  split.
  - intros [|response Hok|response Hjson]; simpl; eauto.
    + rewrite Hok. eauto.
    + rewrite Hjson. destruct (ok response); eauto.
  - destruct o as [|response]; [constructor|]. simpl. intros [e He].
    destruct (ok response) eqn:Hok; [|by apply http_status].
    destruct (json response) eqn:Hjson; [done|by apply bad_body].
Qed.

Lemma settles_returned {T} endpoint (o : FetchOutcome T) data :
  settles endpoint o = Returned data ↔
  ∃ response, o = resolves response ∧ ok response = true ∧ json response = Some data.
Proof.
  split.
  - destruct o as [|response]; [done|]. simpl.
    destruct (ok response) eqn:Hok; [|done].
    destruct (json response) eqn:Hjson; [|done]. intros [= ->]. eauto.
  - intros (response & -> & Hok & Hjson). simpl. by rewrite Hok, Hjson.
Qed.

Lemma record_fetches_nil p : record_fetches [] p = p.
Proof. destruct p. unfold record_fetches. simpl. by rewrite app_nil_r. Qed.

Lemma record_fetch_fetches f calls p :
  record_fetches calls (record_fetch f p) = record_fetches (f :: calls) p.
Proof. unfold record_fetches, record_fetch. simpl. by rewrite <- app_assoc. Qed.

Lemma distinct_elem_of {A} `{EqDecision A} (l : list A) x : x ∈ JS.distinct l ↔ x ∈ l.
Proof.
  induction l as [|y l IH]; simpl; [done|].
  rewrite !elem_of_cons, list_elem_of_filter, IH.
  destruct (decide (x = y)); tauto.
Qed.

Lemma distinct_NoDup {A} `{EqDecision A} (l : list A) : NoDup (JS.distinct l).
Proof.
  induction l as [|y l IH]; simpl; [constructor|].
  constructor; [|by apply NoDup_filter].
  rewrite list_elem_of_filter. tauto.
Qed.

Lemma distinct_length {A} `{EqDecision A} (l : list A) : length (JS.distinct l) ≤ length l.
Proof.
  induction l as [|y l IH]; simpl; [done|].
  pose proof (length_filter (λ z, z ≠ y) (JS.distinct l)). lia.
Qed.

Lemma distinct_size (l : list string) :
  length (JS.distinct l) = size (list_to_set l : gset string).
Proof.
  rewrite <- (size_list_to_set (C := gset string) (JS.distinct l)) by apply distinct_NoDup.
  f_equal. apply set_eq. intros x. by rewrite !elem_of_list_to_set, distinct_elem_of.
Qed.

Lemma sort_out_fold cache l cachedIds keywordsToFetch :
  foldl (sort_out cache) (cachedIds, keywordsToFetch) l
  = ((cachedIds ++ omap (λ k, cache !! k) l)%list,
     (keywordsToFetch ++ filter (λ k, cache !! k = None) l)%list).
Proof.
  revert cachedIds keywordsToFetch.
  induction l as [|k l IH]; intros cachedIds keywordsToFetch; simpl.
  - by rewrite !app_nil_r.
  - destruct (cache !! k) as [v|] eqn:Hk; simpl; rewrite IH.
    + rewrite filter_cons_False by (simpl; congruence). by rewrite <- app_assoc.
    + rewrite filter_cons_True by done. by rewrite <- app_assoc.
Qed.

Lemma keep_first_match_fold pairs cachedIds cache :
  foldl keep_first_match (cachedIds, cache) pairs
  = ((cachedIds ++ (omap first_match pairs).*2)%list, store_all cache (omap first_match pairs)).
Proof.
  revert cachedIds cache. induction pairs as [|[res k] pairs IH]; intros cachedIds cache.
  - simpl. by rewrite app_nil_r.
  - change (foldl keep_first_match (cachedIds, cache) ((res, k) :: pairs))
      with (foldl keep_first_match (keep_first_match (cachedIds, cache) (res, k)) pairs).
    change (omap first_match ((res, k) :: pairs))
      with (match first_match (res, k) with
            | Some y => y :: omap first_match pairs
            | None => omap first_match pairs
            end).
    assert (Hstep : keep_first_match (cachedIds, cache) (res, k)
                    = match first_match (res, k) with
                      | Some kv => (cachedIds ++ [kv.2], <[kv.1 := kv.2]> cache)
                      | None => (cachedIds, cache)
                      end).
    { unfold keep_first_match, first_match. simpl. by destruct (keyword_results res). }
    rewrite Hstep. destruct (first_match (res, k)) as [[k' v]|].
    + rewrite IH. simpl. by rewrite <- app_assoc.
    + apply IH.
Qed.

Lemma store_all_Some cache pairs k v :
  store_all cache pairs !! k = Some v → (k, v) ∈ pairs ∨ cache !! k = Some v.
Proof.
  revert cache. induction pairs as [|[k' v'] pairs IH]; intros cache; [by right|].
  change (store_all cache ((k', v') :: pairs)) with (store_all (<[k' := v']> cache) pairs).
  intros H. apply IH in H as [H|H].
  - left. by right.
  - apply lookup_insert_Some in H as [[-> ->]|[_ H]]; [left; by left|by right].
Qed.

Lemma store_all_None cache pairs k :
  store_all cache pairs !! k = None ↔ cache !! k = None ∧ k ∉ pairs.*1.
Proof.
  revert cache. induction pairs as [|[k' v'] pairs IH]; intros cache.
  - simpl. split; [intros H; split; [done|apply not_elem_of_nil]|by intros [H _]].
  - change (store_all cache ((k', v') :: pairs)) with (store_all (<[k' := v']> cache) pairs).
    rewrite IH, lookup_insert_None. simpl. rewrite not_elem_of_cons.
    split; [intros [[? ?] ?]|intros [? [? ?]]]; repeat split; auto.
Qed.

Lemma all_settled_length {A} (cs : list (Completion A)) l :
  all_settled cs = Returned l → length l = length cs.
Proof.
  revert l. induction cs as [|[a|e] cs IH]; intros l; simpl; [by intros [= <-]| |done].
  destruct (all_settled cs) as [l'|]; [|done]. intros [= <-]. simpl. by rewrite (IH l').
Qed.

Lemma all_settled_lookup {A} (cs : list (Completion A)) l i a :
  all_settled cs = Returned l → l !! i = Some a → cs !! i = Some (Returned a).
Proof.
  revert l i. induction cs as [|[b|e] cs IH]; intros l i; simpl; [by intros [= <-]| |done].
  destruct (all_settled cs) as [l'|]; [|done]. intros [= <-].
  destruct i as [|i]; simpl; [by intros [= ->]|]. by apply IH.
Qed.

Lemma all_settled_thrown {A} (cs : list (Completion A)) e :
  all_settled cs = Thrown e → Thrown e ∈ cs.
Proof.
  induction cs as [|[a|e'] cs IH]; simpl; [done| |].
  - destruct (all_settled cs); [done|]. intros [= ->]. right. by apply IH.
  - intros [= ->]. by left.
Qed.

Section KeywordCache.

Variables KEY BASE : string.

Lemma start_all_fetches server language ks p :
  start_all (map (λ keyword, fetchFromTMDb KEY BASE server (keyword_endpoint keyword)
                               (Some language)) ks) p
  = (map (keyword_reply KEY BASE server language) ks,
     record_fetches (map (keyword_call KEY BASE language) ks) p).
Proof.
  revert p. induction ks as [|k ks IH]; intros p; simpl.
  - by rewrite record_fetches_nil.
  - rewrite fetchFromTMDb_run, IH. by rewrite record_fetch_fetches.
Qed.

Lemma set_keywordCache_same p : set_keywordCache (keywordCache p) p = p.
Proof. by destruct p. Qed.

Lemma getKeywordIds_run server keywords language p :
  keywords ≠ [] →
  getKeywordIds KEY BASE server keywords language p
  = match all_settled (map (keyword_reply KEY BASE server language) (uncached p keywords)) with
    | Returned responses =>
        let stored := omap first_match (zip responses (uncached p keywords)) in
        (Returned (JS.distinct (cached_ids p keywords ++ stored.*2)),
         set_keywordCache (store_all (keywordCache p) stored)
           (record_fetches (map (keyword_call KEY BASE language) (uncached p keywords)) p))
    | Thrown e =>
        (Thrown e, record_fetches (map (keyword_call KEY BASE language) (uncached p keywords)) p)
    end.
Proof.
  intros Hne. unfold getKeywordIds. destruct keywords as [|k0 keywords]; [done|].
  change (Nat.eqb (length (k0 :: keywords)) 0) with false. cbv iota.
  unfold bind at 1. unfold get_state at 1. rewrite sort_out_fold. cbn [fst snd app].
  change (map (λ k, JS.trim (JS.toLowerCase k)) (k0 :: keywords))
    with (map normalized (k0 :: keywords)).
  fold (phrases (k0 :: keywords)). fold (uncached p (k0 :: keywords)).
  fold (cached_ids p (k0 :: keywords)).
  destruct (uncached p (k0 :: keywords)) as [|k ks] eqn:Hun.
  - simpl. rewrite app_nil_r, record_fetches_nil. by rewrite set_keywordCache_same.
  - change (Nat.ltb 0 (length (k :: ks))) with true. cbv iota.
    unfold bind, Promise_all. rewrite start_all_fetches.
    destruct (all_settled _) as [responses|e]; [|done].
    unfold get_state, update, ret. rewrite keep_first_match_fold. by simpl.
Qed.

End KeywordCache.

Section KeywordResolution.

Variables KEY BASE : string.

Lemma stored_pairs server language ks responses k v :
  all_settled (map (keyword_reply KEY BASE server language) ks) = Returned responses →
  (k, v) ∈ omap first_match (zip responses ks)
  ↔ k ∈ ks ∧ first_match_is KEY BASE server language k v.
Proof.
  revert responses. induction ks as [|k1 ks IH]; intros responses; simpl.
  - intros [= <-]. simpl. split; [by intros ?%elem_of_nil|by intros [?%elem_of_nil _]].
  - destruct (keyword_reply KEY BASE server language k1) as [r1|] eqn:Hr1; [|done].
    destruct (all_settled _) as [rs|] eqn:Hrs; [|done]. intros [= <-].
    specialize (IH rs eq_refl).
    apply settles_returned in Hr1 as (response & Hsrv & Hok & Hjson).
    change (omap first_match (zip (r1 :: rs) (k1 :: ks)))
      with (match first_match (r1, k1) with
            | Some y => y :: omap first_match (zip rs ks)
            | None => omap first_match (zip rs ks)
            end).
    unfold first_match at 1. simpl. rewrite elem_of_cons.
    destruct (keyword_results r1) as [|first rest] eqn:Hres.
    + rewrite IH. split; [by intros [? ?]; auto|].
      intros [[->|Hin] Hm]; [|done].
      destruct Hm as (response' & data & first & rest & Hsrv' & _ & Hjson' & Hres' & _).
      congruence.
    + rewrite elem_of_cons, IH. split.
      * intros [[= -> ->]|[Hin Hm]]; [|by auto].
        split; [by left|]. by exists response, r1, first, rest.
      * intros [[->|Hin] Hm]; [|by auto]. left.
        destruct Hm as (response' & data & first' & rest' & Hsrv' & _ & Hjson' & Hres' & ->).
        congruence.
Qed.

Lemma getKeywordIds_nil server language p :
  getKeywordIds KEY BASE server [] language p = (Returned [], p).
Proof. reflexivity. Qed.

Lemma uncached_elem_of p keywords k :
  k ∈ uncached p keywords ↔ k ∈ map normalized keywords ∧ keywordCache p !! k = None.
Proof.
  unfold uncached, phrases. rewrite list_elem_of_filter, distinct_elem_of. tauto.
Qed.

(** C5. When one of the transport calls of a [getKeywordIds] batch fails
    (the call for a normalized phrase that the cache does not have), the
    whole call fails and both caches are as they were before it.  And
    whatever the outcome of a call, an entry it adds to the keyword cache
    is the first match of a search that succeeded. *)
Theorem failed_keyword_batch_caches_nothing
    (server : string → FetchOutcome TMDbKeywordResponse) (keywords : list string)
    (language : string) (p : Process) :
  (∀ k, k ∈ map normalized keywords → keywordCache p !! k = None →
        transport_fails (server (final_url KEY BASE (keyword_endpoint k) language)) →
        (∃ e, outcome (getKeywordIds KEY BASE server keywords language p) = Thrown e)
        ∧ keywordCache (after (getKeywordIds KEY BASE server keywords language p))
          = keywordCache p
        ∧ genreCache (after (getKeywordIds KEY BASE server keywords language p))
          = genreCache p)
  ∧ (∀ k v, keywordCache (after (getKeywordIds KEY BASE server keywords language p)) !! k
            = Some v →
            keywordCache p !! k = Some v
            ∨ (k ∈ map normalized keywords ∧ keywordCache p !! k = None
               ∧ first_match_is KEY BASE server language k v)).
Proof.
  destruct keywords as [|k0 keywords].
  { split; [by intros k ?%elem_of_nil|]. intros k v. rewrite getKeywordIds_nil. by left. }
  rewrite getKeywordIds_run by done. split.
  - intros k Hk Hcache Hfail.
    assert (Hin : k ∈ uncached p (k0 :: keywords)) by by apply uncached_elem_of.
    destruct (all_settled _) as [responses|e] eqn:Hall; [|by eauto].
    exfalso. apply list_elem_of_lookup in Hin as [i Hi].
    assert (Hlen := all_settled_length _ _ Hall). rewrite length_map in Hlen.
    destruct (lookup_lt_is_Some_2 responses i) as [res Hres].
    { rewrite Hlen. by apply lookup_lt_is_Some_1; eauto. }
    pose proof (all_settled_lookup _ _ _ _ Hall Hres) as Hc.
    change (map ?f ?l) with (f <$> l) in Hc. rewrite list_lookup_fmap, Hi in Hc.
    simpl in Hc. injection Hc as Hc. unfold keyword_reply in Hc.
    apply (settles_thrown (keyword_endpoint k)) in Hfail as [e He]. congruence.
  - intros k v. destruct (all_settled _) as [responses|e] eqn:Hall; simpl; [|by left].
    intros [Hst|Hold]%store_all_Some; [right|by left].
    apply (stored_pairs _ _ _ _ _ _ Hall) in Hst as [Hin Hm].
    apply uncached_elem_of in Hin as [Hin Hnone]. done.
Qed.

Lemma omap_length_le {A B} (f : A → option B) (l : list A) :
  length (omap f l) ≤ length l.
Proof.
  induction l as [|x l IH]; [done|].
  change (omap f (x :: l))
    with (match f x with Some y => y :: omap f l | None => omap f l end).
  destruct (f x); simpl; lia.
Qed.

Lemma omap_filter_length {A B} (f : A → option B) (l : list A) :
  length (omap f l) + length (filter (λ x, f x = None) l) = length l.
Proof.
  induction l as [|x l IH]; [done|].
  change (omap f (x :: l))
    with (match f x with Some y => y :: omap f l | None => omap f l end).
  destruct (f x) eqn:Hx.
  - rewrite filter_cons_False by (simpl; congruence). simpl. lia.
  - rewrite filter_cons_True by done. simpl. lia.
Qed.

Lemma no_match_not_first server language k v :
  no_match KEY BASE server language k = true → first_match_is KEY BASE server language k v → False.
Proof.
  unfold no_match. intros Hno (response & data & first & rest & Hsrv & _ & Hjson & Hres & _).
  rewrite Hsrv, Hjson in Hno. apply andb_true_iff in Hno as [_ Hno].
  apply bool_decide_eq_true in Hno. congruence.
Qed.

(** C6. For a non-empty list of phrases, a [getKeywordIds] that returns
    gives a list without repetition, no longer than the number of distinct
    normalized phrases, each element of which is the cached id of one of
    those phrases or the first match of the search for one of them: a
    phrase whose search finds nothing adds no element.  The call returns
    unless the transport call for a phrase to look up fails. *)
Theorem resolved_keyword_ids
    (server : string → FetchOutcome TMDbKeywordResponse) (keywords : list string)
    (language : string) (p : Process) :
  keywords ≠ [] →
  match outcome (getKeywordIds KEY BASE server keywords language p) with
  | Returned ids =>
      NoDup ids
      ∧ length ids ≤ size (list_to_set (map normalized keywords) : gset string)
      ∧ (∀ v, v ∈ ids →
           ∃ k, k ∈ map normalized keywords
                ∧ (keywordCache p !! k = Some v
                   ∨ (keywordCache p !! k = None ∧ first_match_is KEY BASE server language k v)))
      ∧ ((∀ k, k ∈ map normalized keywords →
               keywordCache p !! k = None ∧ no_match KEY BASE server language k = true) →
         ids = [])
  | Thrown _ =>
      ∃ k, k ∈ map normalized keywords ∧ keywordCache p !! k = None
           ∧ transport_fails (server (final_url KEY BASE (keyword_endpoint k) language))
  end.
Proof.
  intros Hne. rewrite getKeywordIds_run by done. unfold outcome.
  destruct (all_settled _) as [responses|e] eqn:Hall; simpl.
  - assert (Hfrom : ∀ v, v ∈ JS.distinct (cached_ids p keywords
                              ++ (omap first_match (zip responses (uncached p keywords))).*2) →
             ∃ k, k ∈ map normalized keywords
                  ∧ (keywordCache p !! k = Some v
                     ∨ (keywordCache p !! k = None ∧ first_match_is KEY BASE server language k v))).
    { intros v. rewrite distinct_elem_of, elem_of_app. intros [Hv|Hv].
      - unfold cached_ids in Hv. apply list_elem_of_omap in Hv as (k & Hk & Hv).
        exists k. split; [|by left]. unfold phrases in Hk. by rewrite distinct_elem_of in Hk.
      - apply list_elem_of_fmap in Hv as ([k v'] & -> & Hst).
        apply (stored_pairs _ _ _ _ _ _ Hall) in Hst as [Hin Hm].
        apply uncached_elem_of in Hin as [Hin Hnone]. exists k. split; [done|by right]. }
    split; [apply distinct_NoDup|]. split; [|split; [done|]].
    + etrans; [apply distinct_length|]. rewrite length_app, length_fmap.
      etrans; [apply Nat.add_le_mono_l, omap_length_le|].
      rewrite length_zip_with.
      rewrite <- distinct_size. fold (phrases keywords).
      pose proof (omap_filter_length (λ k, keywordCache p !! k) (phrases keywords)) as Hsum.
      unfold cached_ids, uncached in *. lia.
    + intros Hnone. destruct (JS.distinct _) as [|v ids] eqn:Hids; [done|]. exfalso.
      destruct (Hfrom v) as (k & Hk & Hv); [by left|].
      destruct (Hnone k Hk) as [Hcache Hno].
      destruct Hv as [Hv|[_ Hv]]; [congruence|]. by eapply no_match_not_first.
  - apply all_settled_thrown in Hall.
    change (map ?f ?l) with (f <$> l) in Hall.
    apply list_elem_of_fmap in Hall as (k & Hk & Hin).
    apply uncached_elem_of in Hin as [Hin Hnone]. exists k. split; [done|]. split; [done|].
    apply (settles_thrown (keyword_endpoint k)). by exists e.
Qed.

Lemma filter_agree {A} (P Q : A → Prop) `{∀ x, Decision (P x)} `{∀ x, Decision (Q x)}
    (l : list A) :
  (∀ x, x ∈ l → (P x ↔ Q x)) → filter P l = filter Q l.
Proof.
  induction l as [|x l IH]; intros Hagree; [done|].
  rewrite !filter_cons.
  rewrite IH by (intros y Hy; apply Hagree; by right).
  destruct (decide (P x)) as [HP|HP], (decide (Q x)) as [HQ|HQ]; try done.
  - exfalso. apply HQ, Hagree; [by left|done].
  - exfalso. apply HP, Hagree; [by left|done].
Qed.

Lemma filter_none {A} (P : A → Prop) `{∀ x, Decision (P x)} (l : list A) :
  (∀ x, x ∈ l → ¬ P x) → filter P l = [].
Proof.
  induction l as [|x l IH]; intros Hnone; [done|].
  rewrite filter_cons_False by (apply Hnone; by left).
  apply IH. intros y Hy. apply Hnone. by right.
Qed.

Lemma all_settled_each {A} (cs : list (Completion A)) l c :
  all_settled cs = Returned l → c ∈ cs → ∃ a, c = Returned a.
Proof.
  revert l. induction cs as [|[a|e] cs IH]; intros l; simpl; [by intros _ ?%elem_of_nil| |done].
  destruct (all_settled cs) as [l'|]; [|done]. intros _ [->|Hin]%elem_of_cons; eauto.
Qed.

Lemma after_fetched server keywords language p :
  fetched (after (getKeywordIds KEY BASE server keywords language p))
  = fetched p ++ map (keyword_call KEY BASE language) (uncached p keywords).
Proof.
  destruct keywords as [|k0 keywords].
  - rewrite getKeywordIds_nil. simpl. by rewrite app_nil_r.
  - rewrite getKeywordIds_run by done. by destruct (all_settled _).
Qed.

(** The phrases a call leaves out of the cache are those it looked up
    without finding a match. *)
Lemma uncached_after server keywords language p ids :
  outcome (getKeywordIds KEY BASE server keywords language p) = Returned ids →
  uncached (after (getKeywordIds KEY BASE server keywords language p)) keywords
  = filter (λ k, keywordCache p !! k = None ∧ no_match KEY BASE server language k = true)
           (JS.distinct (map normalized keywords)).
Proof.
  destruct keywords as [|k0 keywords]; [done|].
  rewrite getKeywordIds_run by done. unfold outcome.
  destruct (all_settled _) as [responses|e] eqn:Hall; [|done]. simpl. intros _.
  unfold uncached at 1. simpl. apply filter_agree. intros k Hk.
  rewrite store_all_None. split.
  - intros [Hnone Hst]. split; [done|].
    assert (Hin : k ∈ uncached p (k0 :: keywords)) by by apply list_elem_of_filter.
    destruct (all_settled_each _ _ (keyword_reply KEY BASE server language k) Hall)
      as [data Hdata].
    { change (map ?f ?l) with (f <$> l). by apply list_elem_of_fmap_2. }
    apply settles_returned in Hdata as (response & Hsrv & Hok & Hjson).
    unfold no_match. rewrite Hsrv, Hok, Hjson. simpl.
    destruct (keyword_results data) as [|first rest] eqn:Hres; [done|].
    exfalso. apply Hst. apply list_elem_of_fmap. exists (k, keyword_id first). split; [done|].
    apply (stored_pairs _ _ _ _ _ _ Hall). split; [done|].
    by exists response, data, first, rest.
  - intros [Hnone Hno]. split; [done|]. intros Hst.
    apply list_elem_of_fmap in Hst as ([k' v] & -> & Hst).
    apply (stored_pairs _ _ _ _ _ _ Hall) in Hst as [_ Hm].
    by eapply no_match_not_first.
Qed.

(** C3 (as the code has it). After a [getKeywordIds] that returned, a
    second call with the same phrases fetches exactly the normalized
    phrases that the first call looked up without finding a match, which
    are not cached; every phrase that had or got an id is served from the
    cache.  So the second call fetches nothing when every phrase the
    first call looked up had a match. *)
Theorem second_resolve_fetches_only_unmatched
    (first_server second_server : string → FetchOutcome TMDbKeywordResponse)
    (keywords : list string) (language second_language : string) (p : Process)
    (ids : list Z) :
  outcome (getKeywordIds KEY BASE first_server keywords language p) = Returned ids →
  let p1 := after (getKeywordIds KEY BASE first_server keywords language p) in
  let p2 := after (getKeywordIds KEY BASE second_server keywords second_language p1) in
  fetched p2
  = fetched p1
    ++ map (keyword_call KEY BASE second_language)
         (filter (λ k, keywordCache p !! k = None ∧ no_match KEY BASE first_server language k = true)
                 (JS.distinct (map normalized keywords)))
  ∧ ((∀ k, k ∈ map normalized keywords → keywordCache p !! k = None →
           no_match KEY BASE first_server language k = false) →
     fetched p2 = fetched p1).
Proof.
  intros Hret p1 p2. unfold p2. rewrite after_fetched. unfold p1.
  rewrite (uncached_after _ _ _ _ _ Hret). split; [done|].
  intros Hall. rewrite filter_none; [by rewrite app_nil_r|].
  intros k Hk [Hnone Hno].
  rewrite distinct_elem_of in Hk. rewrite (Hall k Hk Hnone) in Hno. done.
Qed.

End KeywordResolution.

(** ** The genre cache *)

Section GenreCacheLife.

Variables KEY BASE : string.

Lemma getGenreIds_after server names type language p :
  after (getGenreIds KEY BASE server names type language p)
  = if Nat.eqb (length names) 0 then p
    else if Nat.ltb 0 (length (genreCache_get (genreCache p) type)) then p
    else match settles (genre_endpoint type)
                 (server (final_url KEY BASE (genre_endpoint type) language)) with
         | Returned data =>
             set_genres type (genres data) (record_fetch (genre_call KEY BASE type language) p)
         | Thrown _ => record_fetch (genre_call KEY BASE type language) p
         end.
Proof.
  unfold getGenreIds, after. destruct (Nat.eqb (length names) 0); [done|].
  unfold bind at 1. unfold getGenreList. unfold bind at 1. unfold get_state at 1.
  destruct (Nat.ltb 0 (length (genreCache_get (genreCache p) type))); [done|].
  unfold bind. rewrite fetchFromTMDb_run. by destruct (settles _ _).
Qed.

Lemma genre_endpoint_inj type type' : genre_endpoint type = genre_endpoint type' → type = type'.
Proof. by destruct type, type'. Qed.

Lemma genre_calls_record type type' language p :
  genre_calls type (record_fetch (genre_call KEY BASE type' language) p)
  = if decide (type' = type) then genre_calls type p ++ [genre_call KEY BASE type' language]
    else genre_calls type p.
Proof.
  unfold genre_calls, record_fetch. simpl. rewrite filter_app.
  destruct (decide (type' = type)) as [->|Hne].
  - by rewrite filter_cons_True.
  - rewrite filter_cons_False; [by rewrite app_nil_r|].
    simpl. by intros ?%genre_endpoint_inj.
Qed.

Lemma genre_calls_set_genres type type' gs p :
  genre_calls type (set_genres type' gs p) = genre_calls type p.
Proof. reflexivity. Qed.

Lemma genreCache_get_set c type type' gs :
  genreCache_get (genreCache_set c type' gs) type
  = if decide (type' = type) then gs else genreCache_get c type.
Proof. by destruct type, type'. Qed.

End GenreCacheLife.

(** ** Normalization of phrases and names *)

Section Normalization.

Variables KEY BASE : string.

Lemma keywords_equal_after_normalizing server keywords1 keywords2 language p :
  map normalized keywords1 = map normalized keywords2 →
  getKeywordIds KEY BASE server keywords1 language p
  = getKeywordIds KEY BASE server keywords2 language p.
Proof.
  intros Heq. unfold getKeywordIds.
  assert (Hlen : length keywords1 = length keywords2).
  { apply (f_equal length) in Heq. by rewrite !length_map in Heq. }
  rewrite Hlen. unfold normalized in Heq. by rewrite Heq.
Qed.

Lemma genres_equal_after_normalizing server names1 names2 type language p :
  map normalized names1 = map normalized names2 →
  getGenreIds KEY BASE server names1 type language p
  = getGenreIds KEY BASE server names2 type language p.
Proof.
  intros Heq. unfold getGenreIds.
  assert (Hlen : length names1 = length names2).
  { apply (f_equal length) in Heq. by rewrite !length_map in Heq. }
  rewrite Hlen. unfold normalized in Heq. by rewrite Heq.
Qed.

Lemma served_from_cache server keywords language p :
  keywords ≠ [] → uncached p keywords = [] →
  getKeywordIds KEY BASE server keywords language p
  = (Returned (JS.distinct (cached_ids p keywords)), p).
Proof.
  intros Hne Hun. rewrite getKeywordIds_run by done. rewrite Hun. simpl.
  by rewrite app_nil_r, record_fetches_nil, set_keywordCache_same.
Qed.

Lemma one_phrase_cached p k v :
  keywordCache p !! normalized k = Some v →
  uncached p [k] = [] ∧ cached_ids p [k] = [v].
Proof.
  intros Hv. unfold uncached, cached_ids, phrases. simpl.
  rewrite filter_cons_False by (simpl; congruence).
  by rewrite Hv.
Qed.

Lemma resolved_phrase_is_cached server k language p v :
  outcome (getKeywordIds KEY BASE server [k] language p) = Returned [v] →
  keywordCache (after (getKeywordIds KEY BASE server [k] language p)) !! normalized k
  = Some v.
Proof.
  destruct (keywordCache p !! normalized k) as [c|] eqn:Hc.
  - destruct (one_phrase_cached _ _ _ Hc) as [Hun Hids].
    rewrite served_from_cache by done. rewrite Hids. simpl. by intros [= <-].
  - rewrite getKeywordIds_run by done.
    assert (Hun : uncached p [k] = [normalized k]).
    { unfold uncached, phrases. simpl. by rewrite filter_cons_True. }
    assert (Hids : cached_ids p [k] = []).
    { unfold cached_ids, phrases. simpl. by rewrite Hc. }
    rewrite Hun, Hids. simpl.
    destruct (keyword_reply KEY BASE server language (normalized k)) as [data|e]; [|done].
    simpl. unfold first_match. simpl.
    destruct (keyword_results data) as [|first rest]; simpl; [done|].
    intros [= <-]. unfold store_all. simpl. by rewrite lookup_insert_eq.
Qed.

(** C8. Lookup does not depend on case or surrounding white space.  Two
    lists of keyword phrases that agree after lower-casing and trimming
    give the same call of [getKeywordIds] (same result, same fetches, same
    cache afterwards), and likewise two lists of genre names for
    [getGenreIds].  And once a phrase has been resolved to an id, the
    cache holds that id under the normalized phrase, so any phrase with
    the same normalized form is answered with that id from the cache,
    without a fetch. *)
Theorem lookup_ignores_case_and_spaces :
  (∀ server keywords1 keywords2 language p,
     map normalized keywords1 = map normalized keywords2 →
     getKeywordIds KEY BASE server keywords1 language p
     = getKeywordIds KEY BASE server keywords2 language p)
  ∧ (∀ server names1 names2 type language p,
     map normalized names1 = map normalized names2 →
     getGenreIds KEY BASE server names1 type language p
     = getGenreIds KEY BASE server names2 type language p)
  ∧ (∀ server1 server2 k1 k2 language1 language2 p v,
     normalized k1 = normalized k2 →
     outcome (getKeywordIds KEY BASE server1 [k1] language1 p) = Returned [v] →
     let p1 := after (getKeywordIds KEY BASE server1 [k1] language1 p) in
     keywordCache p1 !! normalized k1 = Some v
     ∧ getKeywordIds KEY BASE server2 [k2] language2 p1 = (Returned [v], p1)).
Proof.
  split; [apply keywords_equal_after_normalizing|].
  split; [apply genres_equal_after_normalizing|].
  intros server1 server2 k1 k2 language1 language2 p v Hsame Hret p1.
  pose proof (resolved_phrase_is_cached _ _ _ _ _ Hret) as Hcached. fold p1 in Hcached.
  split; [done|]. rewrite Hsame in Hcached.
  destruct (one_phrase_cached _ _ _ Hcached) as [Hun Hids].
  rewrite served_from_cache by done. by rewrite Hids.
Qed.

End Normalization.

(** * Further properties of the code *)

(** ** Facts about the built-ins *)

Lemma append_cons c s t : String c s +:+ t = String c (s +:+ t).
Proof. reflexivity. Qed.

Lemma includes_append s t c :
  JS.includes (s +:+ t) c = JS.includes s c || JS.includes t c.
Proof.
  induction s as [|d s IH]; [done|]. rewrite append_cons. simpl.
  by destruct (Ascii.eqb d c).
Qed.

Lemma string_length_append s t : String.length (s +:+ t) = String.length s + String.length t.
Proof. induction s as [|c s IH]; [done|]. rewrite append_cons. simpl. by rewrite IH. Qed.

Lemma string_append_assoc s t u : (s +:+ t) +:+ u = s +:+ (t +:+ u).
Proof. induction s as [|c s IH]; [done|]. rewrite !append_cons. by f_equal. Qed.

Lemma string_append_inv_tail s t u : s +:+ u = t +:+ u → s = t.
Proof.
  revert t. induction s as [|c s IH]; intros [|d t]; [done| | |].
  - intros H. apply (f_equal String.length) in H.
    rewrite !string_length_append in H. simpl in H. lia.
  - intros H. apply (f_equal String.length) in H.
    rewrite !string_length_append in H. simpl in H. lia.
  - rewrite !append_cons. intros [= -> H]. f_equal. by apply IH.
Qed.

Lemma decode_first_encode c rest :
  decode_first (JS.encode_unit c +:+ rest) = Some (c, rest).
Proof. destruct c as [[] [] [] [] [] [] [] []]; reflexivity. Qed.

Lemma encodeURIComponent_inj s t :
  JS.encodeURIComponent s = JS.encodeURIComponent t → s = t.
Proof.
  revert t. induction s as [|c s IH]; intros [|d t]; simpl; [done| | |].
  - intros H. apply (f_equal decode_first) in H. by rewrite decode_first_encode in H.
  - intros H. apply (f_equal decode_first) in H. by rewrite decode_first_encode in H.
  - intros H. apply (f_equal decode_first) in H. rewrite !decode_first_encode in H.
    injection H as -> H. f_equal. by apply IH.
Qed.

Lemma lower_unit_idem c : JS.lower_unit (JS.lower_unit c) = JS.lower_unit c.
Proof. destruct c as [[] [] [] [] [] [] [] []]; reflexivity. Qed.

Lemma is_white_lower_unit c : JS.is_white (JS.lower_unit c) = JS.is_white c.
Proof. destruct c as [[] [] [] [] [] [] [] []]; reflexivity. Qed.

Lemma toLowerCase_idem s : JS.toLowerCase (JS.toLowerCase s) = JS.toLowerCase s.
Proof. induction s as [|c s IH]; simpl; [done|]. by rewrite lower_unit_idem, IH. Qed.

Lemma toLowerCase_trimStart s :
  JS.toLowerCase (JS.trimStart s) = JS.trimStart (JS.toLowerCase s).
Proof.
  induction s as [|c s IH]; simpl; [done|]. rewrite is_white_lower_unit.
  by destruct (JS.is_white c).
Qed.

Lemma toLowerCase_trimEnd s :
  JS.toLowerCase (JS.trimEnd s) = JS.trimEnd (JS.toLowerCase s).
Proof.
  induction s as [|c s IH]; simpl; [done|]. rewrite <- IH, is_white_lower_unit.
  destruct (JS.trimEnd s) as [|d r]; simpl; [|done]. by destruct (JS.is_white c).
Qed.

Lemma trimStart_headed s : headed (JS.trimStart s).
Proof.
  induction s as [|c s IH]; simpl; [done|]. by destruct (JS.is_white c) eqn:Hc.
Qed.

Lemma trimStart_of_headed s : headed s → JS.trimStart s = s.
Proof. destruct s as [|c s]; simpl; [done|]. by intros ->. Qed.

Lemma trimEnd_headed s : headed s → headed (JS.trimEnd s).
Proof.
  destruct s as [|c s]; simpl; [done|]. intros Hc.
  destruct (JS.trimEnd s); simpl; [by rewrite Hc|done].
Qed.

Lemma trimEnd_idem s : JS.trimEnd (JS.trimEnd s) = JS.trimEnd s.
Proof.
  induction s as [|c s IH]; simpl; [done|].
  destruct (JS.trimEnd s) as [|d r] eqn:Ht.
  - destruct (JS.is_white c) eqn:Hc; simpl; [done|]. by rewrite Hc.
  - change (JS.trimEnd (String c (String d r)))
      with (match JS.trimEnd (String d r) with
            | EmptyString => if JS.is_white c then EmptyString else String c EmptyString
            | r' => String c r'
            end).
    by rewrite IH.
Qed.

Lemma trim_idem s : JS.trim (JS.trim s) = JS.trim s.
Proof.
  unfold JS.trim.
  rewrite (trimStart_of_headed (JS.trimEnd (JS.trimStart s)))
    by apply trimEnd_headed, trimStart_headed.
  apply trimEnd_idem.
Qed.

Lemma toLowerCase_trim s : JS.toLowerCase (JS.trim s) = JS.trim (JS.toLowerCase s).
Proof. unfold JS.trim. by rewrite toLowerCase_trimEnd, toLowerCase_trimStart. Qed.

Lemma normalized_idem s : normalized (normalized s) = normalized s.
Proof.
  unfold normalized. by rewrite toLowerCase_trim, toLowerCase_idem, trim_idem.
Qed.

(** ** The transport, in full *)

Section TransportInFull.

Variables KEY BASE : string.

Lemma fetchFromTMDb_settles {T} (server : string → FetchOutcome T) endpoint language p :
  fetchFromTMDb KEY BASE server endpoint language p
  = (settles endpoint (server (final_url KEY BASE endpoint (default "en-US" language))),
     record_fetch (call_of KEY BASE endpoint (default "en-US" language)) p).
Proof.
  unfold fetchFromTMDb, bind, try_catch, fetch, settles, call_of; simpl.
  destruct (server _) as [|response]; simpl; [done|].
  destruct (ok response); simpl; [|done].
  by destruct (json response).
Qed.

Lemma fetch_and_return {T A} (server : string → FetchOutcome T) endpoint language
    (f : T → A) p :
  bind (fetchFromTMDb KEY BASE server endpoint language) (λ data, ret (f data)) p
  = (match settles endpoint
             (server (final_url KEY BASE endpoint (default "en-US" language))) with
     | Returned data => Returned (f data)
     | Thrown e => Thrown e
     end,
     record_fetch (call_of KEY BASE endpoint (default "en-US" language)) p).
Proof. unfold bind. rewrite fetchFromTMDb_settles. by destruct (settles _ _). Qed.

Lemma record_fetch_changes f p : record_fetch f p ≠ p.
Proof.
  intros H. apply (f_equal (λ q, length (fetched q))) in H. simpl in H.
  rewrite length_app in H. simpl in H. lia.
Qed.

(** X1. One call of [fetchFromTMDb] makes exactly one call of [fetch], to
    the URL built from its endpoint and language (['en-US'] when none is
    given), and touches neither cache.  It returns the body exactly when
    the reply is OK and is JSON.  Every other way it ends, the caller sees
    only ["Failed to fetch data from TMDb for <endpoint>."] (the message
    with the HTTP status never leaves the function), or the parse error of
    an OK reply whose body is not JSON. *)
Theorem transport_failure_is_uniform {T} (server : string → FetchOutcome T)
    (endpoint : string) (language : option string) (p : Process) :
  let url := final_url KEY BASE endpoint (default "en-US" language) in
  let r := fetchFromTMDb KEY BASE server endpoint language p in
  fetched (after r) = fetched p ++ [ {| fetch_endpoint := endpoint; fetch_url := url |} ]
  ∧ keywordCache (after r) = keywordCache p
  ∧ genreCache (after r) = genreCache p
  ∧ (∀ data, outcome r = Returned data
             ↔ ∃ response, server url = resolves response
                           ∧ ok response = true ∧ json response = Some data)
  ∧ (∀ e, outcome r = Thrown e →
          e = Error ("Failed to fetch data from TMDb for " +:+ endpoint +:+ ".")
          ∨ (e = SyntaxError
             ∧ ∃ response, server url = resolves response
                           ∧ ok response = true ∧ json response = None)).
Proof.
  intros url r. unfold r. rewrite fetchFromTMDb_settles. fold url. unfold outcome, after.
  simpl. split; [done|]. split; [done|]. split; [done|]. split.
  - intros data. apply settles_returned.
  - intros e. destruct (server url) as [|response] eqn:Hsrv; simpl; [intros [= <-]; by left|].
    destruct (ok response) eqn:Hok; [|intros [= <-]; by left].
    destruct (json response) eqn:Hjson; [done|]. intros [= <-]. right. split; [done|].
    by exists response.
Qed.

(** X2. The API key and the language are appended to the endpoint with
    [&] when the endpoint already has a query string, and with [?] when
    neither the base URL nor the endpoint has a question mark; nothing
    else of the endpoint or the base URL is changed. *)
Theorem final_url_separator (endpoint language : string) :
  (JS.includes endpoint "?" = true →
   final_url KEY BASE endpoint language
   = (BASE +:+ "/" +:+ endpoint) +:+ "&api_key=" +:+ KEY +:+ "&language=" +:+ language)
  ∧ (JS.includes BASE "?" = false → JS.includes endpoint "?" = false →
     final_url KEY BASE endpoint language
     = (BASE +:+ "/" +:+ endpoint) +:+ "?api_key=" +:+ KEY +:+ "&language=" +:+ language).
Proof.
  unfold final_url. rewrite !includes_append. split.
  - intros ->. by rewrite !orb_true_r.
  - by intros -> ->.
Qed.

End TransportInFull.

(** ** Search, discovery and details *)

Section MediaQueries.

Variables KEY BASE : string.
Variable ProviderInfo : Type.

Lemma truthy_number_zero z : JS.truthy_number (Some z) = false ↔ z = 0%Z.
Proof. simpl. rewrite negb_false_iff. apply Z.eqb_eq. Qed.

Lemma truthy_string_empty s : JS.truthy_string s = false ↔ s = "".
Proof. by destruct s. Qed.

Lemma length_zero_nil {A} (l : list A) : Nat.eqb (length l) 0 = true ↔ l = [].
Proof. by destruct l. Qed.

(** X3. Which calls skip the network.  The process is left exactly as it
    was (no fetch, no cache change) by [searchMedia] only for the empty
    query, by [discoverMedia] only when there is no genre id, no keyword id
    and the year is absent or [0], by [getMediaDetails], [getSimilarMedia]
    and [getRecommendedMedia] only for the id [0], and by
    [getWatchProviders] only for the id [0] or the empty region;
    [getTrending] always fetches. *)
Theorem calls_that_skip_the_network (p : Process) :
  (∀ server query page language,
     after (searchMedia KEY BASE server query page language p) = p ↔ query = "")
  ∧ (∀ server page language, after (getTrending KEY BASE server page language p) ≠ p)
  ∧ (∀ server type genreIds keywordIds page sortOption language year,
     after (discoverMedia KEY BASE server type genreIds keywordIds page sortOption language
              year p) = p
     ↔ genreIds = [] ∧ keywordIds = [] ∧ (year = None ∨ year = Some 0%Z))
  ∧ (∀ server mediaType mediaId language,
     after (getMediaDetails KEY BASE server mediaType mediaId language p) = p
     ↔ mediaId = 0%Z)
  ∧ (∀ server mediaType mediaId language,
     after (getSimilarMedia KEY BASE server mediaType mediaId language p) = p
     ↔ mediaId = 0%Z)
  ∧ (∀ server mediaType mediaId language,
     after (getRecommendedMedia KEY BASE server mediaType mediaId language p) = p
     ↔ mediaId = 0%Z)
  ∧ (∀ (server : string → FetchOutcome (WatchProviderResponse ProviderInfo))
       mediaType mediaId region,
     after (getWatchProviders KEY BASE server mediaType mediaId region p) = p
     ↔ mediaId = 0%Z ∨ region = "").
Proof.
  repeat apply conj.
  - intros server query page language. unfold searchMedia.
    destruct (JS.truthy_string query) eqn:Hq; simpl.
    + rewrite fetch_and_return. simpl. split; [by intros ?%record_fetch_changes|].
      intros ->. done.
    + apply truthy_string_empty in Hq. done.
  - intros server page language. unfold getTrending. rewrite fetch_and_return.
    apply record_fetch_changes.
  - intros server type genreIds keywordIds page sortOption language year.
    unfold discoverMedia.
    destruct (Nat.eqb (length genreIds) 0 && Nat.eqb (length keywordIds) 0
              && negb (JS.truthy_number year)) eqn:Hguard.
    + apply andb_true_iff in Hguard as [Hguard Hyear].
      apply andb_true_iff in Hguard as [Hg Hk].
      apply length_zero_nil in Hg. apply length_zero_nil in Hk.
      apply negb_true_iff in Hyear. split; [intros _|done].
      split; [done|]. split; [done|].
      destruct year as [y|]; [right|by left]. apply truthy_number_zero in Hyear. by subst.
    + cbv zeta. rewrite fetch_and_return. simpl.
      split; [by intros ?%record_fetch_changes|].
      intros (-> & -> & Hyear). exfalso. by destruct Hyear as [-> | ->].
  - intros server mediaType mediaId language. unfold getMediaDetails.
    destruct (JS.truthy_number (Some mediaId)) eqn:Hid; cbv [negb].
    + rewrite fetch_and_return. simpl. split; [by intros ?%record_fetch_changes|].
      intros ->. done.
    + apply truthy_number_zero in Hid. done.
  - intros server mediaType mediaId language. unfold getSimilarMedia.
    destruct (JS.truthy_number (Some mediaId)) eqn:Hid; cbv [negb].
    + rewrite fetch_and_return. simpl. split; [by intros ?%record_fetch_changes|].
      intros ->. done.
    + apply truthy_number_zero in Hid. done.
  - intros server mediaType mediaId language. unfold getRecommendedMedia.
    destruct (JS.truthy_number (Some mediaId)) eqn:Hid; cbv [negb].
    + rewrite fetch_and_return. simpl. split; [by intros ?%record_fetch_changes|].
      intros ->. done.
    + apply truthy_number_zero in Hid. done.
  - intros server mediaType mediaId region. unfold getWatchProviders.
    destruct (JS.truthy_number (Some mediaId)) eqn:Hid; cbv [negb orb].
    + destruct (JS.truthy_string region) eqn:Hr.
      * rewrite fetch_and_return. simpl. split; [by intros ?%record_fetch_changes|].
        intros [-> | ->]; done.
      * apply truthy_string_empty in Hr. split; [by right|done].
    + apply truthy_number_zero in Hid. split; [by left|done].
Qed.

Lemma discoverMedia_run server type genreIds keywordIds page sortOption language year p :
  ∃ endpoint,
    discoverMedia KEY BASE server type genreIds keywordIds page sortOption language year p
    = if Nat.eqb (length genreIds) 0 && Nat.eqb (length keywordIds) 0
         && negb (JS.truthy_number year)
      then (Returned [], p)
      else (match settles endpoint (server (final_url KEY BASE endpoint language)) with
            | Returned data => Returned (map (tagged type) (results data))
            | Thrown e => Thrown e
            end,
            record_fetch (call_of KEY BASE endpoint language) p).
Proof.
  unfold discoverMedia.
  destruct (Nat.eqb (length genreIds) 0 && Nat.eqb (length keywordIds) 0
            && negb (JS.truthy_number year)); [by exists ""|].
  cbv zeta. eexists. rewrite fetch_and_return. reflexivity.
Qed.

Lemma first_unit_append s t c : first_unit s = Some c → first_unit (s +:+ t) = Some c.
Proof. destruct s; [done|]. by intros [= ->]. Qed.

(** What [discoverMedia] does to the process: nothing, or one request for
    an endpoint under [discover/]. *)
Lemma discoverMedia_sends server type genreIds keywordIds page sortOption language year p :
  after (discoverMedia KEY BASE server type genreIds keywordIds page sortOption language year p)
  = p
  ∨ ∃ endpoint,
      first_unit endpoint = Some "d"%char
      ∧ after (discoverMedia KEY BASE server type genreIds keywordIds page sortOption language
                 year p)
        = record_fetch (call_of KEY BASE endpoint language) p.
Proof.
  unfold discoverMedia.
  destruct (Nat.eqb (length genreIds) 0 && Nat.eqb (length keywordIds) 0
            && negb (JS.truthy_number year)); [by left|].
  right. cbv zeta. eexists. rewrite fetch_and_return. split; [|reflexivity].
  destruct year as [y|]; [destruct (JS.truthy_number (Some y))|];
    destruct (Nat.ltb 0 (length keywordIds)), (Nat.ltb 0 (length genreIds));
    repeat (apply first_unit_append); reflexivity.
Qed.

Lemma last_snoc_fetch (l : list Fetch) f : last (l ++ [f]) = Some f.
Proof. apply last_snoc. Qed.

(** X4. Every item [discoverMedia] hands back carries the requested
    category as its media type, whatever the reply said; and, unlike
    [searchMedia], it drops nothing: when it returns after a fetch, the
    items are those of the reply to that fetch, one for one and in order,
    with their ids and poster paths (the null ones too) as they came. *)
Theorem discover_tags_every_item
    (server : string → FetchOutcome TMDbResponse) (type : MediaType)
    (genreIds keywordIds : list Z) (page : option Z) (sortOption : option SortOption)
    (language : string) (year : option Z) (p : Process) :
  let r := discoverMedia KEY BASE server type genreIds keywordIds page sortOption language
             year p in
  Forall (λ item, media_type item = Some (media_type_name type)) (delivered (outcome r))
  ∧ (∀ items, outcome r = Returned items → after r ≠ p →
       ∃ f response data,
         last (fetched (after r)) = Some f
         ∧ server (fetch_url f) = resolves response
         ∧ json response = Some data
         ∧ items = map (tagged type) (results data)
         ∧ map id items = map id (results data)
         ∧ map poster_path items = map poster_path (results data)).
Proof.
  intros r. unfold r.
  destruct (discoverMedia_run server type genreIds keywordIds page sortOption language year p)
    as [endpoint ->].
  destruct (_ && _); [split; [by constructor|by intros items _ []]|].
  unfold outcome, after. simpl. split.
  - destruct (settles _ _) as [data|e]; simpl; [|by constructor].
    apply Forall_forall. intros item. rewrite list_elem_of_In, in_map_iff.
    by intros (x & <- & _).
  - intros items Hitems _.
    destruct (settles _ _) as [data|e] eqn:Hreply; [|done]. injection Hitems as <-.
    apply settles_returned in Hreply as (response & Hsrv & Hok & Hjson).
    exists (call_of KEY BASE endpoint language), response, data.
    rewrite last_snoc_fetch. repeat split; try done.
    + by rewrite map_map.
    + by rewrite map_map.
Qed.

Lemma getSortByValue_unrecognized other type :
  other ≠ "release_date" → other ≠ "rating" →
  getSortByValue (Some other) type = "popularity.desc".
Proof.
  intros Hdate Hrating. unfold getSortByValue.
  rewrite !bool_decide_eq_false_2 by congruence. by case_bool_decide.
Qed.

(** X5. A [discoverMedia] call with no sort option, with ['popularity'],
    or with any sort option other than ['release_date'] and ['rating'] is
    one and the same call: the same request is made and the same result
    comes back. *)
Theorem discover_sort_defaults
    (server : string → FetchOutcome TMDbResponse) (type : MediaType)
    (genreIds keywordIds : list Z) (page : option Z) (other : SortOption)
    (language : string) (year : option Z) (p : Process) :
  other ≠ "release_date" → other ≠ "rating" →
  discoverMedia KEY BASE server type genreIds keywordIds page (Some other) language year p
  = discoverMedia KEY BASE server type genreIds keywordIds page None language year p
  ∧ discoverMedia KEY BASE server type genreIds keywordIds page (Some "popularity") language
      year p
    = discoverMedia KEY BASE server type genreIds keywordIds page None language year p.
Proof.
  intros Hdate Hrating. split; [|done]. unfold discoverMedia. cbv zeta.
  change (default "popularity" (Some other)) with other.
  change (default "popularity" None) with "popularity".
  rewrite (getSortByValue_unrecognized other type Hdate Hrating).
  by rewrite (getSortByValue_unrecognized "popularity" type).
Qed.

(** The result of [getSimilarMedia] and [getRecommendedMedia] for a reply. *)
Lemma related_media_run (get : MediaType → Z → string → Async Process (list TMDbResult))
    server suffix mediaType mediaId language p :
  (∀ q, get mediaType mediaId language q
        = (if negb (JS.truthy_number (Some mediaId)) then ret []
           else bind (fetchFromTMDb KEY BASE server
                        (media_type_name mediaType +:+ "/" +:+ JS.show mediaId +:+ suffix)
                        (Some language))
                  (λ data, ret (map (tagged mediaType)
                                  (List.filter (λ result, JS.truthy_opt_string (poster_path result))
                                     (results data))))) q) →
  mediaId ≠ 0%Z →
  outcome (get mediaType mediaId language p)
  = match settles (media_type_name mediaType +:+ "/" +:+ JS.show mediaId +:+ suffix)
            (server (final_url KEY BASE
               (media_type_name mediaType +:+ "/" +:+ JS.show mediaId +:+ suffix) language)) with
    | Returned data =>
        Returned (map (tagged mediaType)
                    (List.filter (λ result, JS.truthy_opt_string (poster_path result))
                       (results data)))
    | Thrown e => Thrown e
    end.
Proof.
  intros Hget Hid. rewrite Hget.
  destruct (JS.truthy_number (Some mediaId)) eqn:Ht; [|by apply truthy_number_zero in Ht].
  cbv [negb]. by rewrite fetch_and_return.
Qed.

Lemma related_items_sound mediaType (l : list TMDbResult) :
  Forall (λ item, media_type item = Some (media_type_name mediaType)
                  ∧ poster_path item ≠ None ∧ poster_path item ≠ Some "")
    (map (tagged mediaType)
       (List.filter (λ result, JS.truthy_opt_string (poster_path result)) l)).
Proof.
  apply Forall_forall. intros item. rewrite list_elem_of_In, in_map_iff.
  intros (x & <- & Hx). apply filter_In in Hx as [_ Hx]. simpl.
  destruct (poster_path x) as [[|c s]|]; done.
Qed.

Lemma related_items_complete mediaType (l : list TMDbResult) item :
  item ∈ map (tagged mediaType)
           (List.filter (λ result, JS.truthy_opt_string (poster_path result)) l)
  ↔ ∃ x, x ∈ l ∧ poster_path x ≠ None ∧ poster_path x ≠ Some "" ∧ item = tagged mediaType x.
Proof.
  rewrite list_elem_of_In, in_map_iff. split.
  - intros (x & <- & Hx). apply filter_In in Hx as [Hin Hx]. exists x.
    rewrite list_elem_of_In. destruct (poster_path x) as [[|c s]|]; done.
  - intros (x & Hin & Hnull & Hempty & ->). exists x. split; [done|].
    apply filter_In. rewrite <- list_elem_of_In. split; [done|].
    destruct (poster_path x) as [[|c s]|]; done.
Qed.

(** X6. Every item [getSimilarMedia] or [getRecommendedMedia] hands back
    has a non-empty poster path and carries the requested category as its
    media type.  For an id other than [0] and a request that succeeds, the
    items are exactly the items of the reply that have a poster, of
    whatever media type the reply gave them, each retagged. *)
Theorem related_media_have_posters
    (server : string → FetchOutcome TMDbResponse) (mediaType : MediaType) (mediaId : Z)
    (language : string) (p : Process) :
  let good := λ item, media_type item = Some (media_type_name mediaType)
                      ∧ poster_path item ≠ None ∧ poster_path item ≠ Some "" in
  let from_reply := λ (data : TMDbResponse) items,
    ∀ item, item ∈ items
            ↔ ∃ x, x ∈ results data ∧ poster_path x ≠ None ∧ poster_path x ≠ Some ""
                   ∧ item = tagged mediaType x in
  Forall good (delivered (outcome (getSimilarMedia KEY BASE server mediaType mediaId language p)))
  ∧ Forall good
      (delivered (outcome (getRecommendedMedia KEY BASE server mediaType mediaId language p)))
  ∧ (∀ response data,
       mediaId ≠ 0%Z →
       server (final_url KEY BASE
                 (media_type_name mediaType +:+ "/" +:+ JS.show mediaId +:+ "/similar") language)
       = resolves response →
       ok response = true → json response = Some data →
       ∃ items, outcome (getSimilarMedia KEY BASE server mediaType mediaId language p)
                = Returned items ∧ from_reply data items)
  ∧ (∀ response data,
       mediaId ≠ 0%Z →
       server (final_url KEY BASE
                 (media_type_name mediaType +:+ "/" +:+ JS.show mediaId +:+ "/recommendations")
                 language)
       = resolves response →
       ok response = true → json response = Some data →
       ∃ items, outcome (getRecommendedMedia KEY BASE server mediaType mediaId language p)
                = Returned items ∧ from_reply data items).
Proof.
  intros good from_reply.
  pose proof (related_media_run (getSimilarMedia KEY BASE server) server "/similar"
                mediaType mediaId language p (λ q, eq_refl)) as Hsim.
  pose proof (related_media_run (getRecommendedMedia KEY BASE server) server
                "/recommendations" mediaType mediaId language p (λ q, eq_refl)) as Hrec.
  split; [|split; [|split]].
  - clear Hrec. destruct (decide (mediaId = 0%Z)) as [->|Hid]; [by constructor|].
    rewrite (Hsim Hid). clear Hsim.
    destruct (settles _ _); simpl; [apply related_items_sound|constructor].
  - clear Hsim. destruct (decide (mediaId = 0%Z)) as [->|Hid]; [by constructor|].
    rewrite (Hrec Hid). clear Hrec.
    destruct (settles _ _); simpl; [apply related_items_sound|constructor].
  - intros response data Hid Hsrv Hok Hjson. rewrite (Hsim Hid), Hsrv. simpl.
    rewrite Hok, Hjson. eexists. split; [done|]. intros item. apply related_items_complete.
  - intros response data Hid Hsrv Hok Hjson. rewrite (Hrec Hid), Hsrv. simpl.
    rewrite Hok, Hjson. eexists. split; [done|]. intros item. apply related_items_complete.
Qed.

(** X7. [getMediaDetails] gives [null] exactly for the id [0].  An item it
    gives carries the requested category as its media type and is otherwise
    the body of the reply: its id is the one in the reply, not the one
    asked for. *)
Theorem media_details_are_tagged
    (server : string → FetchOutcome TMDbResult) (mediaType : MediaType) (mediaId : Z)
    (language : string) (p : Process) :
  let r := getMediaDetails KEY BASE server mediaType mediaId language p in
  (outcome r = Returned None ↔ mediaId = 0%Z)
  ∧ (∀ item, outcome r = Returned (Some item) →
       media_type item = Some (media_type_name mediaType)
       ∧ ∃ response data,
           server (final_url KEY BASE
                     (media_type_name mediaType +:+ "/" +:+ JS.show mediaId
                      +:+ "?append_to_response=genres") language) = resolves response
           ∧ ok response = true ∧ json response = Some data
           ∧ id item = id data ∧ poster_path item = poster_path data).
Proof.
  intros r. unfold r, getMediaDetails.
  destruct (JS.truthy_number (Some mediaId)) eqn:Hid; cbv [negb].
  - rewrite fetch_and_return. unfold outcome. simpl.
    assert (mediaId ≠ 0%Z) by (intros ->; done). split.
    + split; [|done]. by destruct (settles _ _).
    + intros item. destruct (settles _ _) as [data|e] eqn:Hreply; [|done].
      intros [= <-]. split; [done|].
      apply settles_returned in Hreply as (response & Hsrv & Hok & Hjson).
      by exists response, data.
  - apply truthy_number_zero in Hid. split; [done|]. by intros item.
Qed.

(** X8. [getWatchProviders], for an id other than [0] and a non-empty
    region, makes one request whose URL has the language ['en-US'] and
    does not depend on the region: the region only selects what is
    returned from the reply.  That is the reply's entry for the region
    when it has one; without one, it is the member every object inherits
    when the region is the name of one ([constructor], [toString], ...),
    and [null] otherwise, as it is when the reply has no [results]. *)
Theorem watch_providers_request_ignores_region
    (server : string → FetchOutcome (WatchProviderResponse ProviderInfo))
    (mediaType : MediaType) (mediaId : Z) (region : string) (p : Process) :
  mediaId ≠ 0%Z → region ≠ "" →
  let endpoint := media_type_name mediaType +:+ "/" +:+ JS.show mediaId
                  +:+ "/watch/providers" in
  let r := getWatchProviders KEY BASE server mediaType mediaId region p in
  after r = record_fetch (call_of KEY BASE endpoint "en-US") p
  ∧ (∀ other, other ≠ "" →
       after (getWatchProviders KEY BASE server mediaType mediaId other p) = after r)
  ∧ (∀ response data,
       server (final_url KEY BASE endpoint "en-US") = resolves response →
       ok response = true → json response = Some data →
       outcome r = Returned (match provider_results data with
                             | Some by_region =>
                                 match by_region !! region with
                                 | Some info => Some (own info)
                                 | None =>
                                     if bool_decide (region ∈ JS.Object_prototype)
                                     then Some (inherited region) else None
                                 end
                             | None => None
                             end)).
Proof.
  intros Hid Hregion endpoint r.
  assert (Hrun : ∀ reg, reg ≠ "" →
            getWatchProviders KEY BASE server mediaType mediaId reg p
            = (match settles endpoint (server (final_url KEY BASE endpoint "en-US")) with
               | Returned data =>
                   Returned (match provider_results data with
                             | Some by_region => read_property by_region reg
                             | None => None
                             end)
               | Thrown e => Thrown e
               end, record_fetch (call_of KEY BASE endpoint "en-US") p)).
  { intros reg Hreg. unfold getWatchProviders.
    destruct (JS.truthy_number (Some mediaId)) eqn:Ht; [|by apply truthy_number_zero in Ht].
    destruct (JS.truthy_string reg) eqn:Hr; [|by apply truthy_string_empty in Hr].
    cbv [negb orb]. by rewrite fetch_and_return. }
  unfold r. rewrite (Hrun region Hregion). split; [done|]. split.
  - intros other Hother. by rewrite (Hrun other Hother).
  - intros response data Hsrv Hok Hjson. unfold outcome. simpl.
    rewrite Hsrv. simpl. by rewrite Hok, Hjson.
Qed.

Lemma final_url_inj endpoint1 endpoint2 language :
  JS.includes endpoint1 "?" = true → JS.includes endpoint2 "?" = true →
  final_url KEY BASE endpoint1 language = final_url KEY BASE endpoint2 language →
  endpoint1 = endpoint2.
Proof.
  intros H1 H2. unfold final_url. rewrite !includes_append, H1, H2, !orb_true_r.
  intros H. apply string_append_inv_tail in H.
  apply (inj (String.append BASE)) in H. by apply (inj (String.append "/")) in H.
Qed.

(** X25. A search with no page is the search of page 1; and the request
    of a search tells the query: for the same page and language, two
    different non-empty queries are never sent to the same URL, however
    they are spelled (the query is percent-encoded without loss). *)
Theorem search_requests_tell_the_query
    (server : string → FetchOutcome TMDbResponse) (query1 query2 : string) (page : option Z)
    (language : string) (p : Process) :
  searchMedia KEY BASE server query1 None language p
  = searchMedia KEY BASE server query1 (Some 1%Z) language p
  ∧ (query1 ≠ "" → query2 ≠ "" → query1 ≠ query2 →
     ∃ f1 f2,
       fetched (after (searchMedia KEY BASE server query1 page language p)) = fetched p ++ [f1]
       ∧ fetched (after (searchMedia KEY BASE server query2 page language p))
         = fetched p ++ [f2]
       ∧ fetch_url f1 ≠ fetch_url f2).
Proof.
  split; [done|]. intros Hq1 Hq2 Hne. unfold searchMedia. cbv zeta.
  destruct (JS.truthy_string query1) eqn:Ht1; [|by apply truthy_string_empty in Ht1].
  destruct (JS.truthy_string query2) eqn:Ht2; [|by apply truthy_string_empty in Ht2].
  cbv [negb]. rewrite !fetch_and_return.
  eexists _, _. split; [reflexivity|]. split; [reflexivity|].
  unfold call_of, fetch_url. intros Hurl. apply final_url_inj in Hurl.
  - apply (inj (String.append "search/multi?query=")) in Hurl.
    apply string_append_inv_tail in Hurl. by apply encodeURIComponent_inj in Hurl.
  - by rewrite includes_append.
  - by rewrite includes_append.
Qed.

End MediaQueries.

(** ** More about the keyword cache *)

Section KeywordCacheInFull.

Variables KEY BASE : string.

Lemma store_all_other cache pairs k :
  k ∉ pairs.*1 → store_all cache pairs !! k = cache !! k.
Proof.
  revert cache. induction pairs as [|[k' v'] pairs IH]; intros cache Hk; [done|].
  change (store_all cache ((k', v') :: pairs)) with (store_all (<[k' := v']> cache) pairs).
  simpl in Hk. apply not_elem_of_cons in Hk as [Hne Hk].
  rewrite IH by done. by rewrite lookup_insert_ne.
Qed.

Lemma store_all_member cache pairs k v :
  (k, v) ∈ pairs → (∀ v', (k, v') ∈ pairs → v' = v) →
  store_all cache pairs !! k = Some v.
Proof.
  revert cache. induction pairs as [|[k' v'] pairs IH]; intros cache Hin Huniq.
  { by apply elem_of_nil in Hin. }
  change (store_all cache ((k', v') :: pairs)) with (store_all (<[k' := v']> cache) pairs).
  destruct (decide (k ∈ pairs.*1)) as [Hlater|Hlater].
  - apply list_elem_of_fmap in Hlater as ([k'' v''] & Hk & Hlater). simpl in Hk. subst k''.
    assert (v'' = v) as -> by (apply Huniq; by right).
    apply IH; [done|]. intros w Hw. apply Huniq. by right.
  - rewrite store_all_other by done.
    apply elem_of_cons in Hin as [[= <- <-]|Hin]; [by rewrite lookup_insert_eq|].
    exfalso. apply Hlater. apply list_elem_of_fmap. by exists (k, v).
Qed.

Lemma first_match_is_unique server language k v v' :
  first_match_is KEY BASE server language k v →
  first_match_is KEY BASE server language k v' → v = v'.
Proof.
  intros (response & data & first & rest & Hsrv & _ & Hjson & Hres & ->)
         (response' & data' & first' & rest' & Hsrv' & _ & Hjson' & Hres' & ->).
  congruence.
Qed.

Lemma getKeywordIds_keeps_entries server keywords language p :
  keywordCache p ⊆ keywordCache (after (getKeywordIds KEY BASE server keywords language p))
  ∧ genreCache (after (getKeywordIds KEY BASE server keywords language p)) = genreCache p.
Proof.
  destruct keywords as [|k0 keywords]; [by rewrite getKeywordIds_nil|].
  rewrite getKeywordIds_run by done.
  destruct (all_settled _) as [responses|e] eqn:Hall; [|done]. simpl. split; [|done].
  apply map_subseteq_spec. intros k v Hk. rewrite store_all_other; [done|].
  intros Hin. apply list_elem_of_fmap in Hin as ([k' v'] & -> & Hin).
  apply (stored_pairs _ _ _ _ _ _ _ _ Hall) in Hin as [Hin _].
  apply uncached_elem_of in Hin as [_ Hnone]. simpl in Hk. congruence.
Qed.

Lemma getKeywordIds_adds_normalized server keywords language p k v :
  keywordCache (after (getKeywordIds KEY BASE server keywords language p)) !! k = Some v →
  keywordCache p !! k = None →
  k ∈ map normalized keywords ∧ normalized k = k.
Proof.
  destruct keywords as [|k0 keywords]; [rewrite getKeywordIds_nil; simpl; congruence|].
  rewrite getKeywordIds_run by done.
  destruct (all_settled _) as [responses|e] eqn:Hall; simpl; [|congruence].
  intros [Hst|Hold]%store_all_Some Hnone; [|congruence].
  apply (stored_pairs _ _ _ _ _ _ _ _ Hall) in Hst as [Hin _].
  apply uncached_elem_of in Hin as [Hin _]. split; [done|].
  change (map normalized (k0 :: keywords)) with (normalized <$> (k0 :: keywords)) in Hin.
  apply list_elem_of_fmap in Hin as (k' & -> & _). apply normalized_idem.
Qed.

Lemma keyword_endpoint_has_query k : JS.includes (keyword_endpoint k) "?" = true.
Proof. unfold keyword_endpoint. by rewrite includes_append. Qed.

Lemma keyword_url_inj language k1 k2 :
  final_url KEY BASE (keyword_endpoint k1) language
  = final_url KEY BASE (keyword_endpoint k2) language →
  k1 = k2.
Proof.
  unfold final_url. rewrite !includes_append, !keyword_endpoint_has_query, !orb_true_r.
  intros H. apply string_append_inv_tail in H.
  apply (inj (String.append BASE)) in H. apply (inj (String.append "/")) in H.
  unfold keyword_endpoint in H. apply (inj (String.append "search/keyword?query=")) in H.
  apply string_append_inv_tail in H. by apply encodeURIComponent_inj.
Qed.

(** X10. One call of [getKeywordIds] fetches once for each distinct
    normalized phrase that the cache does not have, and for nothing else,
    whether or not the call succeeds: never more requests than there are
    distinct normalized phrases, and no URL is requested twice. *)
Theorem keyword_batch_requests
    (server : string → FetchOutcome TMDbKeywordResponse) (keywords : list string)
    (language : string) (p : Process) :
  ∃ calls,
    fetched (after (getKeywordIds KEY BASE server keywords language p)) = fetched p ++ calls
    ∧ calls = map (λ k, {| fetch_endpoint := keyword_endpoint k;
                           fetch_url := final_url KEY BASE (keyword_endpoint k) language |})
                (filter (λ k, keywordCache p !! k = None)
                   (JS.distinct (map normalized keywords)))
    ∧ length calls ≤ size (list_to_set (map normalized keywords) : gset string)
    ∧ NoDup (map fetch_url calls).
Proof.
  eexists. split; [apply after_fetched|]. split; [done|]. split.
  - rewrite length_map, <- distinct_size. apply length_filter.
  - rewrite map_map. simpl. apply NoDup_fmap_2_strong.
    + intros k1 k2 _ _. apply keyword_url_inj.
    + apply NoDup_filter, distinct_NoDup.
Qed.

(** X11. When [getKeywordIds] returns, the ids it returns are exactly the
    ids the cache had for the normalized phrases together with the first
    matches found for the others: none is lost. *)
Theorem resolved_ids_are_complete
    (server : string → FetchOutcome TMDbKeywordResponse) (keywords : list string)
    (language : string) (p : Process) (ids : list Z) :
  outcome (getKeywordIds KEY BASE server keywords language p) = Returned ids →
  ∀ v, v ∈ ids
       ↔ ∃ k, k ∈ map normalized keywords
              ∧ (keywordCache p !! k = Some v
                 ∨ (keywordCache p !! k = None ∧ first_match_is KEY BASE server language k v)).
Proof.
  destruct keywords as [|k0 keywords].
  { rewrite getKeywordIds_nil. intros [= <-] v. split; [by intros ?%elem_of_nil|].
    by intros (k & ?%elem_of_nil & _). }
  rewrite getKeywordIds_run by done. unfold outcome.
  destruct (all_settled _) as [responses|e] eqn:Hall; [|done]. simpl. intros [= <-] v.
  rewrite distinct_elem_of, elem_of_app. unfold cached_ids.
  rewrite list_elem_of_omap, list_elem_of_fmap. split.
  - intros [(k & Hk & Hv)|([k v'] & -> & Hst)].
    + exists k. unfold phrases in Hk. rewrite distinct_elem_of in Hk. split; [done|by left].
    + apply (stored_pairs _ _ _ _ _ _ _ _ Hall) in Hst as [Hin Hm].
      apply uncached_elem_of in Hin as [Hin Hnone]. exists k. split; [done|by right].
  - intros (k & Hk & [Hv|[Hnone Hm]]).
    + left. exists k. unfold phrases. by rewrite distinct_elem_of.
    + right. exists (k, v). split; [done|].
      apply (stored_pairs _ _ _ _ _ _ _ _ Hall). split; [|done]. by apply uncached_elem_of.
Qed.

(** X12. When [getKeywordIds] returns, the keyword cache afterwards holds
    exactly what it held before and, for each normalized phrase it did not
    have, the first match of the search for it: every match found is
    cached under the normalized phrase. *)
Theorem successful_lookup_caches_every_match
    (server : string → FetchOutcome TMDbKeywordResponse) (keywords : list string)
    (language : string) (p : Process) (ids : list Z) :
  outcome (getKeywordIds KEY BASE server keywords language p) = Returned ids →
  ∀ k v, keywordCache (after (getKeywordIds KEY BASE server keywords language p)) !! k = Some v
         ↔ keywordCache p !! k = Some v
           ∨ (k ∈ map normalized keywords ∧ keywordCache p !! k = None
              ∧ first_match_is KEY BASE server language k v).
Proof.
  destruct keywords as [|k0 keywords].
  { rewrite getKeywordIds_nil. intros _ k v. simpl. split; [by left|].
    by intros [?|(?%elem_of_nil & _)]. }
  rewrite getKeywordIds_run by done. unfold outcome.
  destruct (all_settled _) as [responses|e] eqn:Hall; [|done]. simpl. intros _ k v. split.
  - intros [Hst|Hold]%store_all_Some; [right|by left].
    apply (stored_pairs _ _ _ _ _ _ _ _ Hall) in Hst as [Hin Hm].
    by apply uncached_elem_of in Hin as [Hin Hnone].
  - intros [Hold|(Hin & Hnone & Hm)].
    + rewrite store_all_other; [done|]. intros Hk.
      apply list_elem_of_fmap in Hk as ([k' v'] & -> & Hk).
      apply (stored_pairs _ _ _ _ _ _ _ _ Hall) in Hk as [Hk _].
      apply uncached_elem_of in Hk as [_ Hk]. simpl in Hold. congruence.
    + apply store_all_member.
      * apply (stored_pairs _ _ _ _ _ _ _ _ Hall). split; [|done]. by apply uncached_elem_of.
      * intros v' Hv'. apply (stored_pairs _ _ _ _ _ _ _ _ Hall) in Hv' as [_ Hm'].
        by eapply first_match_is_unique.
Qed.

(** X13. When the cache has every normalized phrase of a call,
    [getKeywordIds] answers from the cache alone: it returns the cached
    ids, without repetition, and leaves the process as it was, whatever
    the remote side would have said. *)
Theorem all_cached_needs_no_server
    (server : string → FetchOutcome TMDbKeywordResponse) (keywords : list string)
    (language : string) (p : Process) :
  (∀ k, k ∈ map normalized keywords → is_Some (keywordCache p !! k)) →
  getKeywordIds KEY BASE server keywords language p
  = (Returned (JS.distinct (omap (λ k, keywordCache p !! k)
                              (JS.distinct (map normalized keywords)))), p).
Proof.
  intros Hall. destruct keywords as [|k0 keywords]; [done|].
  apply served_from_cache; [done|]. unfold uncached, phrases. apply filter_none.
  intros k Hk Hnone. rewrite distinct_elem_of in Hk. destruct (Hall k Hk) as [v Hv].
  congruence.
Qed.

(** X14. Every key that [getKeywordIds] adds to the keyword cache is a
    normalized phrase of the call, and normalizing it again gives the key
    itself: the lower-cased, trimmed form of a phrase is a fixed point of
    lower-casing and trimming. *)
Theorem inserted_keys_are_normalized
    (server : string → FetchOutcome TMDbKeywordResponse) (keywords : list string)
    (language : string) (p : Process) (k : string) (v : Z) :
  keywordCache (after (getKeywordIds KEY BASE server keywords language p)) !! k = Some v →
  keywordCache p !! k = None →
  k ∈ map normalized keywords ∧ normalized k = k.
Proof.
  apply getKeywordIds_adds_normalized.
Qed.

End KeywordCacheInFull.

(** ** More about the genre cache *)

Section GenreCacheInFull.

Variables KEY BASE : string.

Lemma getGenreIds_run server names type language p :
  names ≠ [] →
  getGenreIds KEY BASE server names type language p
  = if Nat.ltb 0 (length (genreCache_get (genreCache p) type))
    then (Returned (matching_ids names (genreCache_get (genreCache p) type)), p)
    else match settles (genre_endpoint type)
                 (server (final_url KEY BASE (genre_endpoint type) language)) with
         | Returned data =>
             (Returned (matching_ids names (genres data)),
              set_genres type (genres data) (record_fetch (genre_call KEY BASE type language) p))
         | Thrown e => (Thrown e, record_fetch (genre_call KEY BASE type language) p)
         end.
Proof.
  intros Hne. unfold getGenreIds. destruct names as [|n names]; [done|].
  change (Nat.eqb (length (n :: names)) 0) with false. cbv iota zeta.
  unfold bind at 1. unfold getGenreList. unfold bind at 1. unfold get_state at 1.
  destruct (Nat.ltb 0 (length (genreCache_get (genreCache p) type))); [done|].
  unfold bind. rewrite fetchFromTMDb_run. by destruct (settles _ _).
Qed.

Lemma nonempty_ltb {A} (l : list A) : l ≠ [] ↔ Nat.ltb 0 (length l) = true.
Proof. by destruct l. Qed.

Lemma getGenreIds_ids server names type language p ids :
  names ≠ [] →
  outcome (getGenreIds KEY BASE server names type language p) = Returned ids →
  ids = matching_ids names
          (genreCache_get
             (genreCache (after (getGenreIds KEY BASE server names type language p))) type).
Proof.
  intros Hne. rewrite getGenreIds_run by done.
  destruct (Nat.ltb 0 _); [by intros [= <-]|].
  destruct (settles _ _) as [data|e]; [|done]. unfold outcome, after. simpl.
  intros [= <-]. by rewrite genreCache_get_set, decide_True.
Qed.

(** X15. When [getGenreIds] returns for a non-empty list of names, the
    ids are those of the genres in the category's cached list (as it is
    after the call) whose lower-cased, trimmed name is among the
    lower-cased, trimmed names, in the order of that list: a name that
    matches no genre adds nothing, and a repeated name adds nothing
    twice. *)
Theorem genre_ids_follow_the_cached_list
    (server : string → FetchOutcome GenreListResponse) (names : list string)
    (type : MediaType) (language : string) (p : Process) (ids : list Z) :
  names ≠ [] →
  outcome (getGenreIds KEY BASE server names type language p) = Returned ids →
  ids = map genre_id
          (List.filter (λ genre, bool_decide (normalized (genre_name genre)
                                              ∈ map normalized names))
             (genreCache_get
                (genreCache (after (getGenreIds KEY BASE server names type language p)))
                type)).
Proof. apply getGenreIds_ids. Qed.

(** X16. When the category's list is not cached and the transport call
    for it fails, [getGenreIds] for a non-empty list of names fails, after
    one fetch, and both caches are as they were. *)
Theorem failed_genre_fetch_changes_nothing
    (server : string → FetchOutcome GenreListResponse) (names : list string)
    (type : MediaType) (language : string) (p : Process) :
  names ≠ [] → genreCache_get (genreCache p) type = [] →
  transport_fails (server (final_url KEY BASE (genre_endpoint type) language)) →
  let r := getGenreIds KEY BASE server names type language p in
  (∃ e, outcome r = Thrown e)
  ∧ genreCache (after r) = genreCache p
  ∧ keywordCache (after r) = keywordCache p
  ∧ fetched (after r)
    = fetched p ++ [ {| fetch_endpoint := genre_endpoint type;
                        fetch_url := final_url KEY BASE (genre_endpoint type) language |} ].
Proof.
  intros Hne Hempty Hfail r. unfold r. rewrite getGenreIds_run by done.
  rewrite Hempty. simpl Nat.ltb. cbv iota.
  apply (settles_thrown (genre_endpoint type)) in Hfail as [e ->]. by eauto.
Qed.

Lemma bool_decide_agree (P Q : Prop) `{Decision P} `{Decision Q} :
  (P ↔ Q) → bool_decide P = bool_decide Q.
Proof. intros HPQ. by apply bool_decide_ext. Qed.

(** X17. The order of the names given to [getGenreIds], and how often
    each is given, do not matter: two non-empty lists with the same set of
    lower-cased, trimmed names give the same call (same result, same
    fetch, same caches afterwards). *)
Theorem genre_ids_ignore_order_and_repeats
    (server : string → FetchOutcome GenreListResponse) (names1 names2 : list string)
    (type : MediaType) (language : string) (p : Process) :
  names1 ≠ [] → names2 ≠ [] →
  (∀ name, name ∈ map normalized names1 ↔ name ∈ map normalized names2) →
  getGenreIds KEY BASE server names1 type language p
  = getGenreIds KEY BASE server names2 type language p.
Proof.
  intros Hne1 Hne2 Hsame. rewrite !getGenreIds_run by done.
  assert (Hpick : ∀ l, matching_ids names1 l = matching_ids names2 l).
  { intros l. unfold matching_ids. f_equal. apply filter_ext. intros g.
    apply bool_decide_agree, Hsame. }
  destruct (Nat.ltb 0 _); [by rewrite Hpick|].
  destruct (settles _ _) as [data|e]; [|done]. by rewrite Hpick.
Qed.

(** X9. Each lookup writes to its own cache only.  [getKeywordIds] never
    touches the genre cache; [getGenreIds] never touches the keyword
    cache nor the other category's genre list, and it leaves its own
    category's list as it is when that list is not empty. *)
Theorem lookups_touch_only_their_own_cache (p : Process) :
  (∀ server keywords language,
     genreCache (after (getKeywordIds KEY BASE server keywords language p)) = genreCache p)
  ∧ (∀ server names type language,
     let q := after (getGenreIds KEY BASE server names type language p) in
     keywordCache q = keywordCache p
     ∧ (∀ other, other ≠ type →
                 genreCache_get (genreCache q) other = genreCache_get (genreCache p) other)
     ∧ (genreCache_get (genreCache p) type ≠ [] → q = p)).
Proof.
  split.
  - intros server keywords language.
    destruct keywords as [|k0 keywords]; [by rewrite getKeywordIds_nil|].
    rewrite getKeywordIds_run by done. by destruct (all_settled _).
  - intros server names type language q. unfold q. rewrite getGenreIds_after.
    destruct (Nat.eqb _ 0); [done|].
    destruct (Nat.ltb 0 _) eqn:Hlt; [done|].
    destruct (settles _ _) as [data|e]; simpl.
    + split; [done|]. split.
      * intros other Hother. by rewrite genreCache_get_set, decide_False.
      * intros Hfilled. apply nonempty_ltb in Hfilled. congruence.
    + split; [done|]. split; [done|].
      intros Hfilled. apply nonempty_ltb in Hfilled. congruence.
Qed.

(** X26. Which lookups skip the network.  [getKeywordIds] leaves the
    process exactly as it was if and only if the cache has every
    normalized phrase of the call; [getGenreIds] does if and only if no
    name is given or the category's list is cached. *)
Theorem lookups_that_skip_the_network (p : Process) :
  (∀ server keywords language,
     after (getKeywordIds KEY BASE server keywords language p) = p
     ↔ ∀ k, k ∈ map normalized keywords → is_Some (keywordCache p !! k))
  ∧ (∀ server names type language,
     after (getGenreIds KEY BASE server names type language p) = p
     ↔ names = [] ∨ genreCache_get (genreCache p) type ≠ []).
Proof.
  split.
  - intros server keywords language. split.
    + intros Hsame k Hk. destruct (keywordCache p !! k) as [v|] eqn:Hnone; [by eexists|].
      exfalso. pose proof (after_fetched KEY BASE server keywords language p) as Hlog.
      rewrite Hsame in Hlog. apply (f_equal length) in Hlog.
      rewrite length_app, length_map in Hlog.
      assert (Hin : k ∈ uncached p keywords) by by apply uncached_elem_of.
      destruct (uncached p keywords); [by apply elem_of_nil in Hin|]. simpl in Hlog. lia.
    + intros Hall. destruct keywords as [|k0 keywords]; [done|].
      rewrite served_from_cache; [done|done|]. unfold uncached, phrases. apply filter_none.
      intros k Hk Hnone. rewrite distinct_elem_of in Hk. destruct (Hall k Hk) as [v Hv].
      congruence.
  - intros server names type language. rewrite getGenreIds_after.
    destruct names as [|n names]; [split; [by left|done]|].
    change (Nat.eqb (length (n :: names)) 0) with false. cbv iota.
    destruct (Nat.ltb 0 _) eqn:Hlt.
    + split; [|done]. intros _. right. by apply nonempty_ltb.
    + assert (Hstays : ∀ q : Process, fetched q = fetched p ++ [genre_call KEY BASE type language]
                                      → q = p ↔ n :: names = [] ∨
                                                genreCache_get (genreCache p) type ≠ []).
      { intros q Hq. split.
        - intros ->. apply (f_equal length) in Hq. rewrite length_app in Hq. simpl in Hq. lia.
        - intros [?|Hfilled]; [done|]. apply nonempty_ltb in Hfilled. congruence. }
      destruct (settles _ _); by apply Hstays.
Qed.

End GenreCacheInFull.

(** ** What holds through any session *)

Section SessionInvariants.

Variables KEY BASE : string.
Variable ProviderInfo : Type.

Local Abbreviation Call := (Call ProviderInfo).

Lemma fetch_and_return_after {T A} (server : string → FetchOutcome T) endpoint language
    (f : T → A) p :
  after (bind (fetchFromTMDb KEY BASE server endpoint language) (λ data, ret (f data)) p)
  = record_fetch (call_of KEY BASE endpoint (default "en-US" language)) p.
Proof. by rewrite fetch_and_return. Qed.

(** A call other than the two lookups leaves both caches alone. *)
Lemma query_keeps_caches (c : Call) p :
  (∀ server keywords language, c ≠ GetKeywordIds ProviderInfo server keywords language) →
  (∀ server names type language, c ≠ GetGenreIds ProviderInfo server names type language) →
  keywordCache (process_after KEY BASE c p) = keywordCache p
  ∧ genreCache (process_after KEY BASE c p) = genreCache p.
Proof.
  intros Hkw Hgenre. destruct c; simpl.
  - unfold searchMedia. destruct (JS.truthy_string query); cbv [negb]; [|done].
    by rewrite fetch_and_return_after.
  - unfold getTrending. by rewrite fetch_and_return_after.
  - by destruct (Hkw server keywords language).
  - by destruct (Hgenre server genreNames type language).
  - destruct (discoverMedia_run KEY BASE server type genreIds keywordIds page sortOption
                language year p) as [endpoint ->].
    by destruct (_ && _).
  - unfold getMediaDetails. destruct (JS.truthy_number (Some mediaId)); cbv [negb]; [|done].
    by rewrite fetch_and_return_after.
  - unfold getSimilarMedia. destruct (JS.truthy_number (Some mediaId)); cbv [negb]; [|done].
    by rewrite fetch_and_return_after.
  - unfold getRecommendedMedia. destruct (JS.truthy_number (Some mediaId)); cbv [negb]; [|done].
    by rewrite fetch_and_return_after.
  - unfold getWatchProviders.
    destruct (JS.truthy_number (Some mediaId)), (JS.truthy_string region); cbv [negb orb];
      try done.
    by rewrite fetch_and_return_after.
Qed.

Lemma call_keeps_normal_keys (c : Call) p :
  (∀ k, is_Some (keywordCache p !! k) → normalized k = k) →
  ∀ k, is_Some (keywordCache (process_after KEY BASE c p) !! k) → normalized k = k.
Proof.
  intros Hnormal.
  destruct c;
    try (match goal with
         | |- context [process_after _ _ ?c _] =>
             destruct (query_keeps_caches c p) as [-> _]; [done|done|done]
         end).
  - simpl. intros k [v Hv]. destruct (keywordCache p !! k) as [w|] eqn:Hold.
    + apply Hnormal. by rewrite Hold.
    + by apply (getKeywordIds_adds_normalized KEY BASE server keywords language p k v).
  - simpl. rewrite getGenreIds_after.
    destruct (Nat.eqb _ 0); [done|]. destruct (Nat.ltb 0 _); [done|].
    by destruct (settles _ _).
Qed.

Lemma session_cons (c : Call) cs p :
  session KEY BASE (c :: cs) p = session KEY BASE cs (process_after KEY BASE c p).
Proof. reflexivity. Qed.

(** X19. Every key of the keyword cache is in normalized form: in a
    process that started with the caches empty, after any sequence of
    calls, lower-casing and trimming a key of the keyword cache gives the
    key back.  The same holds from any process whose keys are so. *)
Theorem cache_keys_stay_normalized (cs : list Call) (p : Process) :
  ((∀ k, is_Some (keywordCache p !! k) → normalized k = k) →
   ∀ k, is_Some (keywordCache (session KEY BASE cs p) !! k) → normalized k = k)
  ∧ (∀ k, is_Some (keywordCache (session KEY BASE cs fresh) !! k) → normalized k = k).
Proof.
  assert (Hgen : ∀ q, (∀ k, is_Some (keywordCache q !! k) → normalized k = k) →
            ∀ k, is_Some (keywordCache (session KEY BASE cs q) !! k) → normalized k = k).
  { induction cs as [|c cs IH]; intros q Hq; [done|].
    rewrite session_cons. apply IH. by apply call_keeps_normal_keys. }
  split; [apply Hgen|]. apply Hgen. intros k [v Hv].
  change (keywordCache fresh) with (∅ : gmap string Z) in Hv. by rewrite lookup_empty in Hv.
Qed.

End SessionInvariants.

(** ** More about the provider clients *)

Section ProvidersInFull.

Variables API_KEY BASE_URL CHAT_MODEL : string.
Variable INSTRUCTION : string.
Variable JSON_parse : string → option AI.AISearchData.

Local Abbreviation http_search :=
  (OpenRouter.getSearchTermsFromAI API_KEY BASE_URL CHAT_MODEL INSTRUCTION JSON_parse).
Local Abbreviation http_search_request :=
  (OpenRouter.search_request API_KEY BASE_URL CHAT_MODEL INSTRUCTION).
Local Abbreviation sdk_search := (Gemini.getSearchTermsFromAI INSTRUCTION JSON_parse).
Local Abbreviation inline_search := (GeminiInline.getSearchTermsFromAI INSTRUCTION JSON_parse).
Local Abbreviation http_chat := (OpenRouter.getChatResponseFromAI API_KEY BASE_URL CHAT_MODEL).
Local Abbreviation http_chat_request := (OpenRouter.chat_request API_KEY BASE_URL CHAT_MODEL).

Lemma filter_shown_idem (history : list ChatMessage) :
  List.filter shown (List.filter shown history) = List.filter shown history.
Proof.
  induction history as [|msg history IH]; simpl; [done|].
  destruct (shown msg) eqn:Hmsg; simpl; [|done]. by rewrite Hmsg, IH.
Qed.

(** X22. The entries of the chat history with role ['error'] are
    invisible to the provider: the request built from a history is the
    request built from the history without them, so the call does the
    same with or without them.  What is sent is the persona instruction
    followed by the texts of the other entries, unchanged and in order,
    each under the role [assistant] ([model] for the SDK) if its role was
    ['ai'] and [user] otherwise. *)
Theorem chat_ignores_error_entries (history : list ChatMessage) :
  let kept := List.filter shown history in
  http_chat_request history = http_chat_request kept
  ∧ Gemini.chat_request history = Gemini.chat_request kept
  ∧ (∀ provider sent, http_chat provider history sent = http_chat provider kept sent)
  ∧ (∀ provider sent, Gemini.getChatResponseFromAI provider history sent
                      = Gemini.getChatResponseFromAI provider kept sent)
  ∧ map OpenRouter.msg_content (OpenRouter.messages (http_chat_request history))
    = AI.CHAT_SYSTEM_INSTRUCTION :: map content kept
  ∧ map OpenRouter.msg_role (OpenRouter.messages (http_chat_request history))
    = "system" :: map (λ msg, if bool_decide (role msg = "ai") then "assistant" else "user") kept
  ∧ Gemini.contents (Gemini.chat_request history)
    = Gemini.turns
        (map (λ msg, {| Gemini.content_role :=
                          if bool_decide (role msg = "ai") then "model" else "user";
                        Gemini.parts := [content msg] |}) kept)
  ∧ Gemini.systemInstruction (Gemini.chat_request history)
    = Some AI.CHAT_SYSTEM_INSTRUCTION.
Proof.
  intros kept.
  assert (Hhttp : http_chat_request history = http_chat_request kept).
  { unfold OpenRouter.chat_request, kept. fold shown. by rewrite filter_shown_idem. }
  assert (Hsdk : Gemini.chat_request history = Gemini.chat_request kept).
  { unfold Gemini.chat_request, kept. fold shown. by rewrite filter_shown_idem. }
  split; [done|]. split; [done|]. split.
  { intros provider sent. unfold OpenRouter.getChatResponseFromAI. by rewrite Hhttp. }
  split.
  { intros provider sent. unfold Gemini.getChatResponseFromAI. by rewrite Hsdk. }
  split; [|split; [|done]].
  - unfold OpenRouter.chat_request. simpl. f_equal. by rewrite map_map.
  - unfold OpenRouter.chat_request. simpl. f_equal. by rewrite map_map.
Qed.

Lemma http_chat_after provider history sent :
  after (http_chat provider history sent) = sent ++ [http_chat_request history].
Proof.
  unfold OpenRouter.getChatResponseFromAI, after, try_catch, bind, OpenRouter.post.
  destruct (provider _) as [|response]; simpl; [done|].
  destruct (ok response); simpl; [|done].
  unfold OpenRouter.read_body, OpenRouter.first_content.
  destruct (json response) as [data|]; simpl; [|done].
  destruct (OpenRouter.choices data) as [[|choice rest]|]; simpl; [done| |done].
  - destruct (OpenRouter.choice_message choice) as [m|]; simpl; [|done].
    destruct (OpenRouter.reply_content m) as [text|]; simpl; [|done].
    by destruct (JS.truthy_string text).
Qed.

Lemma sdk_chat_after provider history sent :
  after (Gemini.getChatResponseFromAI provider history sent)
  = sent ++ [Gemini.chat_request history].
Proof.
  unfold Gemini.getChatResponseFromAI, after, try_catch, bind, Gemini.generateContent.
  destruct (provider _) as [reason|[text|]]; simpl; try done.
  by destruct (JS.truthy_string text).
Qed.

(** X23. A chat call sends exactly one request, whatever comes of it, and
    fails in one way only: whatever went wrong (transport, status, body,
    missing content, or an error of the SDK), the caller gets the error
    ["Failed to get chat response from AI."] and nothing of the cause. *)
Theorem chat_fails_with_one_error (history : list ChatMessage)
    (sent_http : list OpenRouter.Request) (sent_sdk : list Gemini.Request) :
  (∀ provider,
     after (http_chat provider history sent_http) = sent_http ++ [http_chat_request history]
     ∧ ∀ e, outcome (http_chat provider history sent_http) = Thrown e → e = AI.chat_failure)
  ∧ (∀ provider,
     after (Gemini.getChatResponseFromAI provider history sent_sdk)
     = sent_sdk ++ [Gemini.chat_request history]
     ∧ ∀ e, outcome (Gemini.getChatResponseFromAI provider history sent_sdk) = Thrown e →
            e = AI.chat_failure).
Proof.
  split; intros provider; split.
  - apply http_chat_after.
  - intros e. rewrite http_chat_run.
    destruct (provider _) as [|response]; [by intros [= <-]|].
    destruct (ok response); [|by intros [= <-]].
    destruct (reply_text response) as [text|]; [|by intros [= <-]].
    destruct (JS.truthy_string text); [done|by intros [= <-]].
  - apply sdk_chat_after.
  - intros e. rewrite sdk_chat_run.
    destruct (provider _) as [reason|[text|]]; [by intros [= <-]| |by intros [= <-]].
    destruct (JS.truthy_string text); [done|by intros [= <-]].
Qed.

(** How the three extraction functions end, by cases on the reply. *)
Lemma http_search_run provider query sent :
  http_search provider query sent
  = (match provider (http_search_request query) with
     | rejects => Returned (AI.raw_query_only query)
     | resolves response =>
         if ok response then
           match reply_text response with
           | Some text =>
               if JS.truthy_string text then
                 match JSON_parse text with
                 | Some parsed => Returned parsed
                 | None => Returned (AI.raw_query_only query)
                 end
               else Returned (AI.raw_query_only query)
           | None => Returned (AI.raw_query_only query)
           end
         else Returned (AI.raw_query_only query)
     end, sent ++ [http_search_request query]).
Proof.
  unfold OpenRouter.getSearchTermsFromAI, try_catch, bind, OpenRouter.post, reply_text.
  destruct (provider _) as [|response]; simpl; [done|].
  destruct (ok response); simpl; [|done].
  unfold OpenRouter.read_body, OpenRouter.first_content.
  destruct (json response) as [data|]; simpl; [|done].
  destruct (OpenRouter.choices data) as [[|choice rest]|]; simpl; [done| |done].
  destruct (OpenRouter.choice_message choice) as [m|]; simpl; [|done].
  destruct (OpenRouter.reply_content m) as [text|]; simpl; [|done].
  destruct (JS.truthy_string text); simpl; [|done]. by destruct (JSON_parse text).
Qed.

Lemma sdk_search_run provider query sent :
  sdk_search provider query sent
  = (match provider (Gemini.search_request INSTRUCTION query) with
     | Gemini.sdk_resolves (Some text) =>
         if JS.truthy_string text then
           match JSON_parse text with
           | Some parsed => Returned parsed
           | None => Returned (AI.raw_query_only query)
           end
         else Returned (AI.raw_query_only query)
     | _ => Returned (AI.raw_query_only query)
     end, sent ++ [Gemini.search_request INSTRUCTION query]).
Proof.
  unfold Gemini.getSearchTermsFromAI, try_catch, bind, Gemini.generateContent.
  destruct (provider _) as [reason|[text|]]; simpl; try done.
  destruct (JS.truthy_string text); simpl; [|done]. by destruct (JSON_parse text).
Qed.

Lemma inline_search_run provider query sent :
  inline_search provider query sent
  = (match provider (GeminiInline.search_request INSTRUCTION query) with
     | Gemini.sdk_resolves (Some text) =>
         if JS.truthy_string (JS.trim text) then
           match JSON_parse (JS.trim text) with
           | Some parsed => Returned parsed
           | None => Returned (AI.raw_query_only query)
           end
         else Returned (AI.raw_query_only query)
     | _ => Returned (AI.raw_query_only query)
     end, sent ++ [GeminiInline.search_request INSTRUCTION query]).
Proof.
  unfold GeminiInline.getSearchTermsFromAI, try_catch, bind, Gemini.generateContent.
  destruct (provider _) as [reason|[text|]]; simpl; try done.
  destruct (JS.truthy_string (JS.trim text)); simpl; [|done].
  by destruct (JSON_parse (JS.trim text)).
Qed.

(** X24. An extraction call sends exactly one request, whatever comes of
    it.  When the provider answers with a non-empty text that parses, the
    criteria returned are the parsed ones (the earlier form of the SDK
    client parses the trimmed text); and whatever is returned is either
    [{ search_query: query }] or the parse of the provider's text. *)
Theorem extraction_returns_parsed_reply (query : string)
    (sent_http : list OpenRouter.Request) (sent_sdk : list Gemini.Request) :
  (∀ provider,
     after (http_search provider query sent_http) = sent_http ++ [http_search_request query]
     ∧ (∀ response text parsed,
          provider (http_search_request query) = resolves response → ok response = true →
          reply_text response = Some text → text ≠ "" → JSON_parse text = Some parsed →
          outcome (http_search provider query sent_http) = Returned parsed)
     ∧ (∀ data, outcome (http_search provider query sent_http) = Returned data →
          data = AI.raw_query_only query
          ∨ ∃ response text, provider (http_search_request query) = resolves response
                             ∧ reply_text response = Some text
                             ∧ JSON_parse text = Some data))
  ∧ (∀ provider,
     after (sdk_search provider query sent_sdk)
     = sent_sdk ++ [Gemini.search_request INSTRUCTION query]
     ∧ (∀ text parsed,
          provider (Gemini.search_request INSTRUCTION query) = Gemini.sdk_resolves (Some text) →
          text ≠ "" → JSON_parse text = Some parsed →
          outcome (sdk_search provider query sent_sdk) = Returned parsed)
     ∧ (∀ data, outcome (sdk_search provider query sent_sdk) = Returned data →
          data = AI.raw_query_only query
          ∨ ∃ text, provider (Gemini.search_request INSTRUCTION query)
                    = Gemini.sdk_resolves (Some text)
                    ∧ JSON_parse text = Some data))
  ∧ (∀ provider,
     after (inline_search provider query sent_sdk)
     = sent_sdk ++ [GeminiInline.search_request INSTRUCTION query]
     ∧ (∀ text parsed,
          provider (GeminiInline.search_request INSTRUCTION query)
          = Gemini.sdk_resolves (Some text) →
          JS.trim text ≠ "" → JSON_parse (JS.trim text) = Some parsed →
          outcome (inline_search provider query sent_sdk) = Returned parsed)
     ∧ (∀ data, outcome (inline_search provider query sent_sdk) = Returned data →
          data = AI.raw_query_only query
          ∨ ∃ text, provider (GeminiInline.search_request INSTRUCTION query)
                    = Gemini.sdk_resolves (Some text)
                    ∧ JSON_parse (JS.trim text) = Some data)).
Proof.
  split; [|split]; intros provider.
  - rewrite http_search_run. unfold after, outcome. simpl. split; [done|]. split.
    + intros response text parsed -> -> -> Hne ->. by destruct text.
    + intros data. destruct (provider _) as [|response] eqn:Hsrv; [by intros [= <-]; left|].
      destruct (ok response); [|by intros [= <-]; left].
      destruct (reply_text response) as [text|] eqn:Htext; [|by intros [= <-]; left].
      destruct (JS.truthy_string text); [|by intros [= <-]; left].
      destruct (JSON_parse text) as [parsed|] eqn:Hparse; [|by intros [= <-]; left].
      intros [= <-]. right. by exists response, text.
  - rewrite sdk_search_run. unfold after, outcome. simpl. split; [done|]. split.
    + intros text parsed -> Hne ->. by destruct text.
    + intros data. destruct (provider _) as [reason|[text|]] eqn:Hsrv;
        [by intros [= <-]; left| |by intros [= <-]; left].
      destruct (JS.truthy_string text); [|by intros [= <-]; left].
      destruct (JSON_parse text) as [parsed|] eqn:Hparse; [|by intros [= <-]; left].
      intros [= <-]. right. by exists text.
  - rewrite inline_search_run. unfold after, outcome. simpl. split; [done|]. split.
    + intros text parsed -> Hne ->. by destruct (JS.trim text).
    + intros data. destruct (provider _) as [reason|[text|]] eqn:Hsrv;
        [by intros [= <-]; left| |by intros [= <-]; left].
      destruct (JS.truthy_string (JS.trim text)); [|by intros [= <-]; left].
      destruct (JSON_parse (JS.trim text)) as [parsed|] eqn:Hparse; [|by intros [= <-]; left].
      intros [= <-]. right. by exists text.
Qed.

End ProvidersInFull.

(** * Calls that overlap

    What the caches and the genre-list calls do when calls are made
    while others are under way. *)

Lemma first_unit_literal c s t : first_unit (String c s +:+ t) = Some c.
Proof. reflexivity. Qed.

Lemma existsb_lookup {A} (f : A → bool) (l : list A) i x :
  l !! i = Some x → f x = true → existsb f l = true.
Proof.
  intros Hi Hx. rewrite <- (take_drop_middle l i x Hi), existsb_app. simpl.
  by rewrite Hx, orb_true_r.
Qed.

Lemma existsb_delete {A} (f : A → bool) (l : list A) i x :
  l !! i = Some x → f x = false → existsb f (delete i l) = existsb f l.
Proof.
  intros Hi Hx. rewrite <- (take_drop_middle l i x Hi) at 2.
  rewrite delete_take_drop, !existsb_app. simpl. by rewrite Hx.
Qed.

Lemma existsb_Forall {A} (f : A → bool) (l : list A) :
  existsb f l = false ↔ Forall (λ x, f x = false) l.
Proof.
  induction l as [|x l IH]; simpl; [by split|].
  rewrite Forall_cons, <- IH, orb_false_iff. tauto.
Qed.

Section OverlapFacts.

Variables KEY BASE : string.
Variable ProviderInfo : Type.

Local Abbreviation Call := (Call ProviderInfo).
Local Abbreviation World := (World ProviderInfo).
Local Abbreviation Event := (Event ProviderInfo).
Local Abbreviation Pending := (Pending ProviderInfo).

Lemma run_cons (e : Event) es (w : World) :
  run KEY BASE (e :: es) w = run KEY BASE es (step KEY BASE e w).
Proof. reflexivity. Qed.

Lemma run_app (es1 es2 : list Event) (w : World) :
  run KEY BASE (es1 ++ es2) w = run KEY BASE es2 (run KEY BASE es1 w).
Proof. apply foldl_app. Qed.

(** ** What beginning a call does *)

Lemma begin_getKeywordIds server keywords language (w : World) :
  begin KEY BASE (GetKeywordIds ProviderInfo server keywords language) w
  = if Nat.eqb (length keywords) 0 then park (Settling (Returned (Ids []))) (process w) w
    else if Nat.ltb 0 (length (uncached (process w) keywords)) then
      park (AwaitKeywords (cached_ids (process w) keywords) (uncached (process w) keywords)
              (all_settled (map (keyword_reply KEY BASE server language)
                              (uncached (process w) keywords))))
           (record_fetches (map (keyword_call KEY BASE language) (uncached (process w) keywords))
              (process w)) w
    else park (Settling (Returned (Ids (JS.distinct (cached_ids (process w) keywords)))))
           (process w) w.
Proof.
  unfold begin. destruct (Nat.eqb (length keywords) 0); [done|].
  cbv zeta. rewrite sort_out_fold. cbn [fst snd app].
  change (map (λ k, JS.trim (JS.toLowerCase k)) keywords) with (map normalized keywords).
  fold (phrases keywords). fold (uncached (process w) keywords).
  fold (cached_ids (process w) keywords).
  destruct (Nat.ltb 0 _); [|done]. by rewrite start_all_fetches.
Qed.

Lemma begin_getGenreIds server names type language (w : World) :
  begin KEY BASE (GetGenreIds ProviderInfo server names type language) w
  = if Nat.eqb (length names) 0 then park (Settling (Returned (Ids []))) (process w) w
    else if Nat.ltb 0 (length (genreCache_get (genreCache (process w)) type)) then
      park (Settling (Returned (Ids (matching_ids names
                                       (genreCache_get (genreCache (process w)) type)))))
           (process w) w
    else
      park (AwaitGenres names type
              (settles (genre_endpoint type)
                 (server (final_url KEY BASE (genre_endpoint type) language))))
           (record_fetch (genre_call KEY BASE type language) (process w)) w.
Proof.
  unfold begin. destruct (Nat.eqb (length names) 0); [done|].
  destruct (Nat.ltb 0 _); [done|]. by rewrite fetchFromTMDb_run.
Qed.

(** A call other than the two lookups has its answer from the start, and
    does to the process what it does when it runs alone. *)
Lemma begin_query (c : Call) (w : World) :
  (∀ server keywords language, c ≠ GetKeywordIds ProviderInfo server keywords language) →
  (∀ server names type language, c ≠ GetGenreIds ProviderInfo server names type language) →
  ∃ result, begin KEY BASE c w
            = park (Settling result) (process_after KEY BASE c (process w)) w.
Proof.
  intros Hkw Hgenre. destruct c; simpl; eauto.
  - by destruct (Hkw server keywords language).
  - by destruct (Hgenre server genreNames type language).
Qed.

(** The requests of such a call are not for a genre list. *)
Lemma query_sends_for_no_genres (c : Call) p type :
  (∀ server keywords language, c ≠ GetKeywordIds ProviderInfo server keywords language) →
  (∀ server names type language, c ≠ GetGenreIds ProviderInfo server names type language) →
  genre_calls type (process_after KEY BASE c p) = genre_calls type p.
Proof.
  intros Hkw Hgenre.
  assert (Hother : ∀ endpoint language,
            first_unit endpoint ≠ Some "g"%char →
            genre_calls type (record_fetch (call_of KEY BASE endpoint language) p)
            = genre_calls type p).
  { intros endpoint language Hfirst. unfold genre_calls, record_fetch. simpl.
    rewrite filter_app, filter_cons_False; [by rewrite app_nil_r|].
    simpl. intros Heq. apply Hfirst. rewrite Heq. by destruct type. }
  destruct c; simpl.
  - unfold searchMedia. destruct (JS.truthy_string query); cbv [negb]; [|done].
    rewrite fetch_and_return_after. apply Hother. by rewrite first_unit_literal.
  - unfold getTrending. rewrite fetch_and_return_after. apply Hother.
    by rewrite first_unit_literal.
  - by destruct (Hkw server keywords language).
  - by destruct (Hgenre server genreNames type0 language).
  - destruct (discoverMedia_sends KEY BASE server type0 genreIds keywordIds page sortOption
                language year p) as [Hsame|(endpoint & Hfirst & Hsent)].
    + by rewrite Hsame.
    + rewrite Hsent. apply Hother. by rewrite Hfirst.
  - unfold getMediaDetails. destruct (JS.truthy_number (Some mediaId)); cbv [negb]; [|done].
    rewrite fetch_and_return_after. apply Hother. by destruct mediaType.
  - unfold getSimilarMedia. destruct (JS.truthy_number (Some mediaId)); cbv [negb]; [|done].
    rewrite fetch_and_return_after. apply Hother. by destruct mediaType.
  - unfold getRecommendedMedia. destruct (JS.truthy_number (Some mediaId)); cbv [negb]; [|done].
    rewrite fetch_and_return_after. apply Hother. by destruct mediaType.
  - unfold getWatchProviders.
    destruct (JS.truthy_number (Some mediaId)), (JS.truthy_string region); cbv [negb orb];
      try done.
    rewrite fetch_and_return_after. apply Hother. by destruct mediaType.
Qed.


Lemma keyword_calls_are_no_genre_calls type language ks p :
  genre_calls type (record_fetches (map (keyword_call KEY BASE language) ks) p)
  = genre_calls type p.
Proof.
  unfold genre_calls, record_fetches. simpl. rewrite filter_app.
  assert (Hnone : filter (λ f, fetch_endpoint f = genre_endpoint type)
                    (map (keyword_call KEY BASE language) ks) = []).
  { induction ks as [|k ks IH]; [done|]. simpl.
    rewrite filter_cons_False; [done|]. simpl. by destruct type. }
  by rewrite Hnone, app_nil_r.
Qed.

(** Beginning a call puts one call under way and leaves both caches as
    they are; the call waits to write an entry only if it missed it. *)
Lemma begin_parks (c : Call) (w : World) type :
  ∃ pd p',
    begin KEY BASE c w = park pd p' w
    ∧ keywordCache p' = keywordCache (process w)
    ∧ genreCache p' = genreCache (process w)
    ∧ awaits_genres type pd = sends_for_genres type (Begin c) w
    ∧ (∃ sent, genre_calls type p' = genre_calls type (process w) ++ sent
               ∧ length sent = if sends_for_genres type (Begin c) w then 1 else 0)
    ∧ (∀ k, fetches_phrase k pd → keywordCache (process w) !! k = None)
    ∧ (∀ t, awaits_genres t pd = true → genreCache_get (genreCache (process w)) t = []).
Proof.
  assert (Hquery :
    (∀ server keywords language, c ≠ GetKeywordIds ProviderInfo server keywords language) →
    (∀ server names type language, c ≠ GetGenreIds ProviderInfo server names type language) →
    sends_for_genres type (Begin c) w = false →
    ∃ pd p',
      begin KEY BASE c w = park pd p' w
      ∧ keywordCache p' = keywordCache (process w)
      ∧ genreCache p' = genreCache (process w)
      ∧ awaits_genres type pd = sends_for_genres type (Begin c) w
      ∧ (∃ sent, genre_calls type p' = genre_calls type (process w) ++ sent
                 ∧ length sent = if sends_for_genres type (Begin c) w then 1 else 0)
      ∧ (∀ k, fetches_phrase k pd → keywordCache (process w) !! k = None)
      ∧ (∀ t, awaits_genres t pd = true → genreCache_get (genreCache (process w)) t = [])).
  { intros Hkw Hgenre Hsends. destruct (begin_query c w Hkw Hgenre) as [result Hbegin].
    destruct (query_keeps_caches KEY BASE ProviderInfo c (process w) Hkw Hgenre) as [Hk Hg].
    eexists _, _. split; [exact Hbegin|]. rewrite Hsends.
    rewrite query_sends_for_no_genres by done.
    split_and!; try done. exists []. by rewrite app_nil_r. }
  destruct c; try (apply Hquery; done).
  - rewrite begin_getKeywordIds.
    destruct (Nat.eqb (length keywords) 0).
    { eexists _, _. split; [reflexivity|]. split_and!; simpl; try done.
      exists []. by rewrite app_nil_r. }
    destruct (Nat.ltb 0 _).
    + eexists _, _. split; [reflexivity|]. rewrite keyword_calls_are_no_genre_calls.
      split_and!; simpl; try done.
      * exists []. by rewrite app_nil_r.
      * intros k Hk. by apply uncached_elem_of in Hk as [_ Hk].
    + eexists _, _. split; [reflexivity|]. split_and!; simpl; try done.
      exists []. by rewrite app_nil_r.
  - rewrite begin_getGenreIds. unfold sends_for_genres.
    destruct (Nat.eqb (length genreNames) 0).
    { eexists _, _. split; [reflexivity|]. rewrite andb_false_r.
      split_and!; simpl; try done. exists []. by rewrite app_nil_r. }
    destruct (Nat.ltb 0 _) eqn:Hlt.
    { eexists _, _. split; [reflexivity|]. rewrite andb_false_r.
      split_and!; simpl; try done. exists []. by rewrite app_nil_r. }
    eexists _, _. split; [reflexivity|]. rewrite !andb_true_r.
    rewrite genre_calls_record. split_and!; simpl; try done.
    + case_bool_decide; [rewrite decide_True by done|rewrite decide_False by done].
      * by eexists.
      * exists []. by rewrite app_nil_r.
    + intros t Ht. apply bool_decide_eq_true in Ht as <-.
      destruct (genreCache_get (genreCache (process w)) type0); [done|by simpl in Hlt].
Qed.

(** ** The genre-list calls of a run *)

Lemma run_counts_senders type (es : list Event) (w : World) :
  length (genre_calls type (process (run KEY BASE es w)))
  = length (genre_calls type (process w))
    + count_along KEY BASE (sends_for_genres type) es w.
Proof.
  revert w. induction es as [|e es IH]; intros w; [simpl; lia|].
  rewrite run_cons, IH. simpl count_along.
  enough (length (genre_calls type (process (step KEY BASE e w)))
          = length (genre_calls type (process w))
            + (if sends_for_genres type e w then 1 else 0)) by lia.
  destruct e as [c|i].
  - destruct (begin_parks c w type)
      as (pd & p' & Hbegin & _ & _ & _ & (sent & Hcalls & Hsent) & _).
    simpl. rewrite Hbegin. simpl. rewrite Hcalls, length_app. by rewrite Hsent.
  - simpl. unfold resume. destruct (pending w !! i) as [pd|]; [|simpl; lia].
    destruct pd as [cachedIds keywordsToFetch [responses|err]|names t [data|err]|result];
      simpl; unfold genre_calls; simpl; lia.
Qed.

(** One step: a lookup sends for the list of a category whose list is
    in hand only beside another that waits for it, and the list goes out
    of hand only when a request for it comes back empty. *)
Lemma step_genres_in_hand type (e : Event) (w : World) :
  length (genre_calls type (process (step KEY BASE e w)))
  + (if genres_in_hand type (step KEY BASE e w) then 0 else 1)
  ≤ length (genre_calls type (process w))
    + (if genres_in_hand type w then 0 else 1)
    + (if comes_back_empty type e w then 1 else 0)
    + (if sends_while_awaited type e w then 1 else 0).
Proof.
  destruct e as [c|i].
  - destruct (begin_parks c w type)
      as (pd & p' & Hbegin & _ & Hg & Hawaits & (sent & Hcalls' & Hsent) & _).
    assert (Hcalls : length (genre_calls type p')
                     = length (genre_calls type (process w))
                       + (if sends_for_genres type (Begin c) w then 1 else 0)).
    { rewrite Hcalls', length_app. by rewrite Hsent. }
    clear Hcalls' Hsent. simpl step. rewrite Hbegin. unfold genres_in_hand, sends_while_awaited.
    remember (sends_for_genres type (Begin c) w) as sends eqn:Hsends. simpl.
    rewrite Hcalls, Hg, existsb_app. simpl. rewrite Hawaits, orb_false_r.
    symmetry in Hsends. destruct sends.
    + assert (Hempty : Nat.ltb 0 (length (genreCache_get (genreCache (process w)) type))
                       = false).
      { destruct c; try done. simpl in Hsends.
        apply andb_true_iff in Hsends as [Hsends Hlt].
        apply andb_true_iff in Hsends as [Htype _].
        apply bool_decide_eq_true in Htype as ->. by apply negb_true_iff in Hlt. }
      rewrite Hempty, orb_true_r. simpl.
      destruct (existsb (awaits_genres type) (pending w)); simpl; lia.
    + rewrite orb_false_r. simpl.
      destruct (_ || _); lia.
  - simpl step. unfold resume, genres_in_hand, sends_while_awaited, comes_back_empty.
    simpl sends_for_genres. cbv [andb].
    destruct (pending w !! i) as [pd|] eqn:Hi; [|simpl; destruct (_ || _); lia].
    destruct (awaits_genres type pd) eqn:Hpd.
    + rewrite (existsb_lookup _ _ _ _ Hi Hpd), orb_true_r.
      destruct pd as [cachedIds keywordsToFetch [responses|err]|names t [data|err]|result];
        try done; simpl in Hpd; apply bool_decide_eq_true in Hpd as ->; simpl.
      * rewrite genreCache_get_set, decide_True by done. rewrite bool_decide_true by done.
        unfold genre_calls. simpl.
        destruct (genres data); simpl; [destruct (existsb _ _); lia|lia].
      * rewrite bool_decide_true by done. destruct (_ || _); lia.
    + assert (Hsame : ∀ p', genreCache_get (genreCache p') type
                            = genreCache_get (genreCache (process w)) type →
                fetched p' = fetched (process w) →
                length (genre_calls type p')
                + (if Nat.ltb 0 (length (genreCache_get (genreCache p') type))
                      || existsb (awaits_genres type) (delete i (pending w))
                   then 0 else 1)
                ≤ length (genre_calls type (process w))
                  + (if Nat.ltb 0 (length (genreCache_get (genreCache (process w)) type))
                        || existsb (awaits_genres type) (pending w)
                     then 0 else 1)).
      { intros p' -> Hf. rewrite (existsb_delete _ _ _ _ Hi Hpd).
        unfold genre_calls. rewrite Hf. lia. }
      destruct pd as [cachedIds keywordsToFetch [responses|err]|names t [data|err]|result];
        simpl in Hpd; cbn [fst process pending]; rewrite ?Hpd; cbn [andb];
        (etrans; [apply Hsame|simpl; lia]); try done.
      simpl. apply bool_decide_eq_false in Hpd. by rewrite genreCache_get_set, decide_False.
Qed.

Lemma run_genres_in_hand type (es : list Event) (w : World) :
  length (genre_calls type (process (run KEY BASE es w)))
  + (if genres_in_hand type (run KEY BASE es w) then 0 else 1)
  ≤ length (genre_calls type (process w))
    + (if genres_in_hand type w then 0 else 1)
    + count_along KEY BASE (comes_back_empty type) es w
    + count_along KEY BASE (sends_while_awaited type) es w.
Proof.
  revert w. induction es as [|e es IH]; intros w; [simpl; lia|].
  rewrite run_cons. simpl count_along.
  pose proof (IH (step KEY BASE e w)). pose proof (step_genres_in_hand type e w). lia.
Qed.

(** ** What is at rest stays as it is *)

Lemma stored_keys_are_fetched (responses : list TMDbKeywordResponse) ks k :
  k ∈ (omap first_match (zip responses ks)).*1 → k ∈ ks.
Proof.
  intros Hk. apply list_elem_of_fmap in Hk as ([k' v] & -> & Hin).
  apply list_elem_of_omap in Hin as ([res k''] & Hin & Hfirst).
  unfold first_match in Hfirst. simpl in Hfirst.
  destruct (keyword_results res); [done|]. injection Hfirst as <- _.
  by apply elem_of_zip_r in Hin.
Qed.

Lemma step_keeps_keys (e : Event) (w : World) k :
  is_Some (keywordCache (process w) !! k) →
  is_Some (keywordCache (process (step KEY BASE e w)) !! k).
Proof.
  intros Hk. destruct e as [c|i].
  - destruct (begin_parks c w movie) as (pd & p' & Hbegin & Hcache & _).
    simpl. rewrite Hbegin. simpl. by rewrite Hcache.
  - simpl. unfold resume. destruct (pending w !! i) as [pd|]; [|done].
    destruct pd as [cachedIds keywordsToFetch [responses|err]|names t [data|err]|result];
      simpl; try done.
    rewrite keep_first_match_fold. simpl.
    apply not_eq_None_Some. intros Hnone. apply store_all_None in Hnone as [Hnone _].
    rewrite Hnone in Hk. by destruct Hk.
Qed.

Lemma step_keeps_phrase (e : Event) (w : World) k v :
  keywordCache (process w) !! k = Some v → phrase_at_rest k w →
  keywordCache (process (step KEY BASE e w)) !! k = Some v
  ∧ phrase_at_rest k (step KEY BASE e w).
Proof.
  intros Hk Hrest. destruct e as [c|i].
  - destruct (begin_parks c w movie) as (pd & p' & Hbegin & Hcache & _ & _ & _ & Hmiss & _).
    simpl. rewrite Hbegin. simpl. rewrite Hcache. split; [done|].
    unfold phrase_at_rest. simpl. apply Forall_app. split; [done|].
    apply Forall_singleton. intros Hfetches. apply Hmiss in Hfetches. congruence.
  - simpl. unfold resume. destruct (pending w !! i) as [pd|] eqn:Hi; [|done].
    assert (Hothers : Forall (λ pd, ¬ fetches_phrase k pd) (delete i (pending w)))
      by by apply Forall_delete.
    pose proof (Forall_lookup_1 _ _ _ _ Hrest Hi) as Hpd.
    destruct pd as [cachedIds keywordsToFetch [responses|err]|names t [data|err]|result];
      simpl; try done.
    split; [|done]. rewrite keep_first_match_fold. simpl.
    rewrite store_all_other; [done|].
    intros Hin. apply Hpd. simpl. by eapply stored_keys_are_fetched.
Qed.

Lemma step_keeps_genres (e : Event) (w : World) type :
  genreCache_get (genreCache (process w)) type ≠ [] → genres_at_rest type w →
  genreCache_get (genreCache (process (step KEY BASE e w))) type
  = genreCache_get (genreCache (process w)) type
  ∧ genres_at_rest type (step KEY BASE e w)
  ∧ genre_calls type (process (step KEY BASE e w)) = genre_calls type (process w).
Proof.
  intros Hfilled Hrest. destruct e as [c|i].
  - destruct (begin_parks c w type)
      as (pd & p' & Hbegin & _ & Hcache & Hawaits & (sent & Hcalls & Hsent) & _ & Hempty).
    assert (Hpd : awaits_genres type pd = false).
    { destruct (awaits_genres type pd) eqn:Hpd; [|done]. by apply Hempty in Hpd. }
    simpl. rewrite Hbegin. simpl. rewrite Hcache. split; [done|]. split.
    + unfold genres_at_rest. simpl. apply Forall_app. split; [done|].
      by apply Forall_singleton.
    + rewrite <- Hawaits, Hpd in Hsent. destruct sent; [|done]. by rewrite app_nil_r in Hcalls.
  - simpl. unfold resume. destruct (pending w !! i) as [pd|] eqn:Hi; [|done].
    assert (Hothers : Forall (λ pd, awaits_genres type pd = false) (delete i (pending w)))
      by by apply Forall_delete.
    pose proof (Forall_lookup_1 _ _ _ _ Hrest Hi) as Hpd.
    destruct pd as [cachedIds keywordsToFetch [responses|err]|names t [data|err]|result];
      simpl; try done.
    split; [|done]. simpl in Hpd. apply bool_decide_eq_false in Hpd.
    by rewrite genreCache_get_set, decide_False.
Qed.

Lemma run_keeps_keys (es : list Event) (w : World) k :
  is_Some (keywordCache (process w) !! k) →
  is_Some (keywordCache (process (run KEY BASE es w)) !! k).
Proof.
  revert w. induction es as [|e es IH]; intros w Hk; [done|].
  rewrite run_cons. apply IH. by apply step_keeps_keys.
Qed.

Lemma run_keeps_phrase (es : list Event) (w : World) k v :
  keywordCache (process w) !! k = Some v → phrase_at_rest k w →
  keywordCache (process (run KEY BASE es w)) !! k = Some v
  ∧ phrase_at_rest k (run KEY BASE es w).
Proof.
  revert w. induction es as [|e es IH]; intros w Hk Hrest; [done|].
  rewrite run_cons. destruct (step_keeps_phrase e w k v Hk Hrest) as [Hk' Hrest'].
  by apply IH.
Qed.

Lemma run_keeps_genres (es : list Event) (w : World) type :
  genreCache_get (genreCache (process w)) type ≠ [] → genres_at_rest type w →
  genreCache_get (genreCache (process (run KEY BASE es w))) type
  = genreCache_get (genreCache (process w)) type
  ∧ genres_at_rest type (run KEY BASE es w)
  ∧ genre_calls type (process (run KEY BASE es w)) = genre_calls type (process w).
Proof.
  revert w. induction es as [|e es IH]; intros w Hfilled Hrest; [done|].
  rewrite run_cons.
  destruct (step_keeps_genres e w type Hfilled Hrest) as (Hsame & Hrest' & Hcalls).
  destruct (IH (step KEY BASE e w)) as (Hsame' & Hrest'' & Hcalls'); [by rewrite Hsame|done|].
  split; [by rewrite Hsame'|]. split; [done|]. by rewrite Hcalls'.
Qed.

(** ** A call that nothing overlaps *)

Lemma resume_last (pd : Pending) p (w : World) :
  pending (park pd p w) !! length (pending w) = Some pd
  ∧ delete (length (pending w)) (pending (park pd p w)) = pending w.
Proof.
  simpl. split.
  - rewrite lookup_app_r by lia. by rewrite Nat.sub_diag.
  - rewrite delete_take_drop, take_app_length.
    rewrite drop_ge; [by rewrite app_nil_r|]. rewrite length_app. simpl. lia.
Qed.

(** Resumed before anything else happens, a lookup does what
    [getKeywordIds] and [getGenreIds] do when they run from beginning to
    end. *)
Lemma getKeywordIds_alone server keywords language (w : World) :
  let r := getKeywordIds KEY BASE server keywords language (process w) in
  resume (length (pending w))
    (begin KEY BASE (GetKeywordIds ProviderInfo server keywords language) w)
  = ({| process := after r; pending := pending w |}, Some (answer Ids (outcome r))).
Proof.
  intros r. unfold r. clear r. rewrite begin_getKeywordIds.
  destruct keywords as [|k0 keywords].
  { simpl Nat.eqb. cbv iota. unfold resume.
    destruct (resume_last (Settling (Returned (Ids []))) (process w) w) as [-> ->]. done. }
  change (Nat.eqb (length (k0 :: keywords)) 0) with false. cbv iota.
  rewrite getKeywordIds_run by done.
  destruct (uncached (process w) (k0 :: keywords)) as [|k ks] eqn:Hun.
  - change (Nat.ltb 0 (length (@nil string))) with false. cbv iota. unfold resume.
    match goal with |- context [park ?pd ?p w] =>
      destruct (resume_last pd p w) as [-> ->] end.
    simpl. by rewrite app_nil_r, record_fetches_nil, set_keywordCache_same.
  - change (Nat.ltb 0 (length (k :: ks))) with true. cbv iota. unfold resume.
    match goal with |- context [park ?pd ?p w] =>
      destruct (resume_last pd p w) as [-> ->] end.
    destruct (all_settled _) as [responses|e]; [|done].
    rewrite keep_first_match_fold. done.
Qed.

Lemma getGenreIds_alone server names type language (w : World) :
  let r := getGenreIds KEY BASE server names type language (process w) in
  resume (length (pending w))
    (begin KEY BASE (GetGenreIds ProviderInfo server names type language) w)
  = ({| process := after r; pending := pending w |}, Some (answer Ids (outcome r))).
Proof.
  intros r. unfold r. clear r. rewrite begin_getGenreIds.
  destruct names as [|n names].
  { simpl Nat.eqb. cbv iota. unfold resume.
    destruct (resume_last (Settling (Returned (Ids []))) (process w) w) as [-> ->]. done. }
  change (Nat.eqb (length (n :: names)) 0) with false. cbv iota.
  rewrite getGenreIds_run by done.
  destruct (Nat.ltb 0 _); unfold resume;
    match goal with |- context [park ?pd ?p w] =>
      destruct (resume_last pd p w) as [-> ->] end; [done|].
  by destruct (settles _ _).
Qed.

(** So a session, in which each call has ended before the next begins,
    is the run in which each call is resumed as soon as it has begun. *)
Lemma call_alone (c : Call) (w : World) :
  (resume (length (pending w)) (begin KEY BASE c w)).1
  = {| process := process_after KEY BASE c (process w); pending := pending w |}.
Proof.
  destruct c;
    try (match goal with
         | |- context [begin _ _ ?c _] =>
             destruct (begin_query c w) as [result ->]; [done|done|]
         end;
         unfold resume;
         match goal with |- context [park ?pd ?p w] =>
           destruct (resume_last pd p w) as [-> ->] end; done).
  - by rewrite getKeywordIds_alone.
  - by rewrite getGenreIds_alone.
Qed.

Lemma session_is_a_run (cs : list Call) p :
  run KEY BASE (c ← cs; [Begin c; Resume 0]) (idle p) = idle (session KEY BASE cs p).
Proof.
  revert p. induction cs as [|c cs IH]; intros p; [done|].
  change (c0 ← c :: cs; [Begin c0; Resume 0])
    with ([Begin c; Resume 0] ++ (c0 ← cs; [Begin c0; Resume 0])).
  rewrite run_app, session_cons. rewrite <- IH. f_equal.
  exact (call_alone c (idle p)).
Qed.

(** C4 (as the code has it). Over any run of the process, with calls
    overlapping in any way: a lookup that begins while its category's
    list in the cache is not empty sends no request, however many names it
    asks for; the genre-list calls made for a category are as many as the
    lookups for it that begin, with at least one name, while its list is
    empty; once the list is not empty and no lookup is waiting for it, no
    genre-list call is made for the category any more; and the number of
    genre-list calls for a category is at most one, plus the number of
    its requests that fail or bring an empty list, plus the number of
    lookups that send for the list while another is waiting for it. *)
Theorem genre_list_calls_are_bounded (type : MediaType) (es : list Event) (w : World) :
  (∀ server names language,
     genreCache_get (genreCache (process w)) type ≠ [] →
     process (begin KEY BASE (GetGenreIds ProviderInfo server names type language) w)
     = process w)
  ∧ length (genre_calls type (process (run KEY BASE es w)))
    = length (genre_calls type (process w))
      + count_along KEY BASE (sends_for_genres type) es w
  ∧ (genreCache_get (genreCache (process w)) type ≠ [] → genres_at_rest type w →
     genre_calls type (process (run KEY BASE es w)) = genre_calls type (process w))
  ∧ length (genre_calls type (process (run KEY BASE es w)))
    ≤ length (genre_calls type (process w)) + 1
      + count_along KEY BASE (comes_back_empty type) es w
      + count_along KEY BASE (sends_while_awaited type) es w.
Proof.
  split_and!.
  - intros server names language Hfilled. rewrite begin_getGenreIds.
    apply nonempty_ltb in Hfilled. rewrite Hfilled. by destruct (Nat.eqb _ 0).
  - apply run_counts_senders.
  - intros Hfilled Hrest. by apply run_keeps_genres.
  - pose proof (run_genres_in_hand type es w).
    destruct (genres_in_hand type w), (genres_in_hand type (run KEY BASE es w)); lia.
Qed.

(** X18. A cache entry that no call under way is waiting to write is
    final.  Over any run of the process, with calls overlapping in any
    way and whatever the remote side answers: no key ever leaves the
    keyword cache; the entry of a phrase that no lookup under way is
    fetching stays as it is; and a category's genre list that is not empty
    and that no lookup under way is waiting for is never replaced. *)
Theorem cache_entries_at_rest_are_final (es : list Event) (w : World) :
  (∀ k, is_Some (keywordCache (process w) !! k) →
        is_Some (keywordCache (process (run KEY BASE es w)) !! k))
  ∧ (∀ k v, keywordCache (process w) !! k = Some v → phrase_at_rest k w →
            keywordCache (process (run KEY BASE es w)) !! k = Some v)
  ∧ (∀ type, genreCache_get (genreCache (process w)) type ≠ [] → genres_at_rest type w →
             genreCache_get (genreCache (process (run KEY BASE es w))) type
             = genreCache_get (genreCache (process w)) type).
Proof.
  split_and!.
  - intros k. apply run_keeps_keys.
  - intros k v Hk Hrest. by apply run_keeps_phrase.
  - intros type Hfilled Hrest. by apply run_keeps_genres.
Qed.

(** X20. A phrase that is resolved stays resolved.  Once the id of a
    phrase is in the keyword cache and no lookup under way is fetching the
    phrase, then after any run of the process, with calls overlapping in
    any way, a lookup of any phrase with the same lower-cased, trimmed
    form sends no request, leaves the process as it is, and has that id
    as its answer, whatever the remote side would answer. *)
Theorem resolved_phrase_stays_resolved (w : World) (k1 k2 : string) (v : Z)
    (es : list Event)
    (later_server : string → FetchOutcome TMDbKeywordResponse) (later_language : string) :
  keywordCache (process w) !! normalized k1 = Some v →
  phrase_at_rest (normalized k1) w →
  normalized k1 = normalized k2 →
  let w' := run KEY BASE es w in
  begin KEY BASE (GetKeywordIds ProviderInfo later_server [k2] later_language) w'
  = park (Settling (Returned (Ids [v]))) (process w') w'.
Proof.
  intros Hk Hrest Hsame w'.
  destruct (run_keeps_phrase es w _ _ Hk Hrest) as [Hk' _]. fold w' in Hk'.
  rewrite Hsame in Hk'. destruct (one_phrase_cached _ _ _ Hk') as [Hun Hids].
  rewrite begin_getKeywordIds. simpl Nat.eqb. cbv iota. by rewrite Hun, Hids.
Qed.

(** X21. A genre list that is in the cache keeps answering.  Once a
    category's list is not empty and no lookup under way is waiting for
    it, then after any run of the process, with calls overlapping in any
    way, a lookup for that category sends no request, leaves the process
    as it is, and has as its answer the ids of the genres of that list
    whose names are asked for, whatever the remote side would answer. *)
Theorem cached_genres_answer_later_lookups (w : World) (names : list string)
    (type : MediaType) (es : list Event)
    (later_server : string → FetchOutcome GenreListResponse) (later_language : string) :
  genreCache_get (genreCache (process w)) type ≠ [] →
  genres_at_rest type w →
  names ≠ [] →
  let w' := run KEY BASE es w in
  begin KEY BASE (GetGenreIds ProviderInfo later_server names type later_language) w'
  = park (Settling (Returned (Ids (matching_ids names
                                     (genreCache_get (genreCache (process w)) type)))))
         (process w') w'.
Proof.
  intros Hfilled Hrest Hnames w'.
  destruct (run_keeps_genres es w type Hfilled Hrest) as (Hsame & _). fold w' in Hsame.
  rewrite begin_getGenreIds. destruct names as [|n names]; [done|].
  change (Nat.eqb (length (n :: names)) 0) with false. cbv iota.
  rewrite Hsame. apply nonempty_ltb in Hfilled. by rewrite Hfilled.
Qed.

End OverlapFacts.

(** * The properties at concrete inputs *)

Example toLowerCase_trim_ex :
  JS.trim (JS.toLowerCase " SCI-FI") = "sci-fi" ∧ JS.trim (JS.toLowerCase "Sci-Fi ") = "sci-fi".
Proof. split; reflexivity. Qed.

Example encodeURIComponent_ex :
  JS.encodeURIComponent "time travel & more" = "time%20travel%20%26%20more".
Proof. reflexivity. Qed.

Example distinct_ex : JS.distinct [3; 1; 3; 2; 1]%Z = [3; 1; 2]%Z.
Proof. reflexivity. Qed.

Example show_ex : JS.show 2014 = "2014" ∧ JS.join "," (map JS.show [28; 878]%Z) = "28,878".
Proof. split; reflexivity. Qed.

Example final_url_ex :
  final_url demo_key demo_base (keyword_endpoint "time travel") "en-US"
  = "https://api.themoviedb.org/3/search/keyword?query=time%20travel&page=1&api_key=0123456789abcdef&language=en-US".
Proof. reflexivity. Qed.

Example getKeywordIds_ex :
  getKeywordIds demo_key demo_base finds_time_travel [" Time Travel"; "time travel "] "en-US" fresh
  = (Returned [4379%Z],
     {| keywordCache := {[ "time travel" := 4379%Z ]};
        genreCache := genreCache fresh;
        fetched := [keyword_call demo_key demo_base "en-US" "time travel"] |}).
Proof. vm_compute. reflexivity. Qed.

Example getGenreIds_ex :
  outcome (getGenreIds demo_key demo_base movie_genre_list ["science fiction "; "Western"] movie "en-US" fresh)
  = Returned [878%Z].
Proof. vm_compute. reflexivity. Qed.

Example discoverMedia_ex :
  fetched (after (discoverMedia demo_key demo_base unreachable tv [18; 80]%Z [] None (Some "release_date")
                    "en-US" (Some 2019%Z) fresh))
  = [call_of demo_key demo_base
       "discover/tv?sort_by=first_air_date.desc&page=1&include_adult=false&with_genres=18,80&first_air_date_year=2019"
       "en-US"].
Proof. vm_compute. reflexivity. Qed.

Example getSearchTermsFromAI_ex :
  outcome (OpenRouter.getSearchTermsFromAI "sk-or-0" "https://openrouter.ai/api/v1" "a-model"
             "Extract the criteria." parse_braces answers_braces "anything good" [])
  = Returned {| AI.search_query := None; AI.media_type := None; AI.genres := None;
                AI.keywords := None; AI.year := None |}.
Proof. reflexivity. Qed.

Example getChatResponseFromAI_ex :
  Gemini.getChatResponseFromAI (λ _, Gemini.sdk_resolves (Some "Try Aliens."))
    [ {| role := "user"; content := "Something like Alien?" |};
      {| role := "error"; content := "Sorry, something went wrong." |};
      {| role := "user"; content := "Hello?" |} ] []
  = (Returned "Try Aliens.",
     [ {| Gemini.model := "gemini-2.5-flash";
          Gemini.contents :=
            Gemini.turns
              [ {| Gemini.content_role := "user"; Gemini.parts := ["Something like Alien?"] |};
                {| Gemini.content_role := "user"; Gemini.parts := ["Hello?"] |} ];
          Gemini.systemInstruction := Some AI.CHAT_SYSTEM_INSTRUCTION;
          Gemini.responseMimeType := None;
          Gemini.responseSchema := false |} ]).
Proof. reflexivity. Qed.

Lemma extraction_never_fails_witness :
  http_call_failed parse_braces
    (offline (OpenRouter.search_request "sk-or-0" "https://openrouter.ai/api/v1" "a-model"
                "Extract the criteria." "The Matrix"))
  ∧ outcome (OpenRouter.getSearchTermsFromAI "sk-or-0" "https://openrouter.ai/api/v1" "a-model"
               "Extract the criteria." parse_braces offline "The Matrix" [])
    = Returned (AI.raw_query_only "The Matrix").
Proof.
  split; [constructor|].
  apply (proj2 (proj1 (extraction_never_fails "sk-or-0" "https://openrouter.ai/api/v1"
                         "a-model" "Extract the criteria." parse_braces "The Matrix" [] [])
                  offline)).
  constructor.
Defined.

Lemma chat_without_content_throws_witness :
  http_reply_without_content (resolves no_choice)
  ∧ outcome (OpenRouter.getChatResponseFromAI "sk-or-0" "https://openrouter.ai/api/v1" "a-model"
               (λ _, resolves no_choice)
               [ {| role := "user"; content := "Something like Alien?" |} ] [])
    = Thrown AI.chat_failure.
Proof.
  assert (H : http_reply_without_content (resolves no_choice)).
  { exists no_choice. split; [reflexivity|]. left. reflexivity. }
  split; [exact H|].
  apply (proj1 (proj1 (chat_without_content_throws "sk-or-0" "https://openrouter.ai/api/v1"
                         "a-model" [ {| role := "user"; content := "Something like Alien?" |} ]
                         [] [])
                  (λ _, resolves no_choice))).
  exact H.
Defined.

Lemma sort_option_mapping_witness :
  "newest" ≠ "release_date" ∧ "newest" ≠ "rating"
  ∧ getSortByValue (Some "newest") tv = "popularity.desc".
Proof.
  split; [discriminate|]. split; [discriminate|].
  apply (proj2 (proj2 (proj2 (proj2 (proj2 sort_option_mapping))))); discriminate.
Defined.

Lemma media_lists_are_filtered_witness :
  ∃ items,
    outcome (getTrending demo_key demo_base (λ _, resolves trending_page) None "en-US" fresh)
    = Returned items
    ∧ ∀ r, r ∈ items ↔ r ∈ results (default {| results := [] |} (json trending_page))
                        ∧ is_movie_or_tv_with_poster r ∧ poster_path r ≠ Some "".
Proof.
  apply (proj1 (proj2 (proj2 (media_lists_are_filtered demo_key demo_base (λ _, resolves trending_page)
                                "" None "en-US" fresh)))
           trending_page); reflexivity.
Defined.

Lemma failed_keyword_batch_caches_nothing_witness :
  (∃ e, outcome (getKeywordIds demo_key demo_base unreachable ["Time Travel"; "heist"] "en-US" fresh)
        = Thrown e)
  ∧ keywordCache (after (getKeywordIds demo_key demo_base unreachable ["Time Travel"; "heist"] "en-US" fresh))
    = keywordCache fresh
  ∧ genreCache (after (getKeywordIds demo_key demo_base unreachable ["Time Travel"; "heist"] "en-US" fresh))
    = genreCache fresh.
Proof.
  apply (proj1 (failed_keyword_batch_caches_nothing demo_key demo_base unreachable
                  ["Time Travel"; "heist"] "en-US" fresh) "heist").
  - vm_compute. right. left.
  - reflexivity.
  - constructor.
Defined.

Lemma resolved_keyword_ids_witness :
  ["Time Travel"; " time travel"] ≠ []
  ∧ match outcome (getKeywordIds demo_key demo_base finds_time_travel ["Time Travel"; " time travel"]
                     "en-US" fresh) with
    | Returned ids =>
        NoDup ids
        ∧ length ids ≤ size (list_to_set (map normalized ["Time Travel"; " time travel"])
                             : gset string)
        ∧ (∀ v, v ∈ ids →
             ∃ k, k ∈ map normalized ["Time Travel"; " time travel"]
                  ∧ (keywordCache fresh !! k = Some v
                     ∨ (keywordCache fresh !! k = None
                        ∧ first_match_is demo_key demo_base finds_time_travel "en-US" k v)))
        ∧ ((∀ k, k ∈ map normalized ["Time Travel"; " time travel"] →
                 keywordCache fresh !! k = None
                 ∧ no_match demo_key demo_base finds_time_travel "en-US" k = true) →
           ids = [])
    | Thrown _ =>
        ∃ k, k ∈ map normalized ["Time Travel"; " time travel"]
             ∧ keywordCache fresh !! k = None
             ∧ transport_fails (finds_time_travel
                                  (final_url demo_key demo_base (keyword_endpoint k) "en-US"))
    end.
Proof.
  split; [discriminate|].
  apply (resolved_keyword_ids demo_key demo_base finds_time_travel ["Time Travel"; " time travel"]
           "en-US" fresh).
  discriminate.
Defined.

(** A phrase without a match is looked up again by the second call. *)
Lemma second_resolve_fetches_again :
  outcome (getKeywordIds demo_key demo_base finds_nothing ["zzz"] "en-US" fresh) = Returned []
  ∧ fetched (after (getKeywordIds demo_key demo_base finds_nothing ["zzz"] "en-US" fresh))
    = [keyword_call demo_key demo_base "en-US" "zzz"]
  ∧ fetched (after (getKeywordIds demo_key demo_base finds_nothing ["zzz"] "en-US"
                      (after (getKeywordIds demo_key demo_base finds_nothing ["zzz"] "en-US" fresh))))
    = [keyword_call demo_key demo_base "en-US" "zzz"; keyword_call demo_key demo_base "en-US" "zzz"].
Proof. vm_compute. repeat split; reflexivity. Qed.

Lemma second_resolve_fetches_only_unmatched_witness :
  outcome (getKeywordIds demo_key demo_base finds_time_travel ["Time Travel"] "en-US" fresh)
  = Returned [4379%Z]
  ∧ fetched (after (getKeywordIds demo_key demo_base unreachable ["Time Travel"] "en-US"
                      (after (getKeywordIds demo_key demo_base finds_time_travel ["Time Travel"] "en-US"
                                fresh))))
    = fetched (after (getKeywordIds demo_key demo_base finds_time_travel ["Time Travel"] "en-US" fresh)).
Proof.
  assert (H : outcome (getKeywordIds demo_key demo_base finds_time_travel ["Time Travel"] "en-US" fresh)
              = Returned [4379%Z]) by reflexivity.
  split; [exact H|].
  apply (proj2 (second_resolve_fetches_only_unmatched demo_key demo_base finds_time_travel unreachable
                  ["Time Travel"] "en-US" "en-US" fresh [4379%Z] H)).
  intros k _ _. reflexivity.
Defined.

(** A genre list that could not be fetched, or that came back empty, is
    fetched again by the next lookup for the category; and two lookups
    that begin before the list has arrived both send for it. *)
Lemma genre_list_fetched_twice :
  length (genre_calls movie (process (run demo_key demo_base retry_after_failure (idle fresh))))
  = 2
  ∧ length (genre_calls movie
              (process (run demo_key demo_base retry_after_empty_list (idle fresh)))) = 2
  ∧ length (genre_calls movie
              (process (run demo_key demo_base two_lookups_at_once (idle fresh)))) = 2.
Proof. vm_compute. repeat split; reflexivity. Qed.

Lemma genre_list_calls_are_bounded_witness :
  genreCache_get (genreCache (process (idle (ProviderInfo := string) warm))) movie ≠ []
  ∧ genres_at_rest movie (idle (ProviderInfo := string) warm)
  ∧ genre_calls movie (process (run demo_key demo_base busy_run (idle warm)))
    = genre_calls movie (process (idle (ProviderInfo := string) warm))
  ∧ count_along demo_key demo_base (comes_back_empty movie) two_lookups_at_once (idle fresh) = 0
  ∧ count_along demo_key demo_base (sends_while_awaited movie) two_lookups_at_once (idle fresh)
    = 1
  ∧ length (genre_calls movie
              (process (run demo_key demo_base two_lookups_at_once (idle fresh)))) ≤ 0 + 1 + 0 + 1.
Proof.
  assert (Hfilled : genreCache_get (genreCache (process (idle (ProviderInfo := string) warm)))
                      movie ≠ []) by discriminate.
  assert (Hrest : genres_at_rest movie (idle (ProviderInfo := string) warm))
    by apply Forall_nil_2.
  split; [exact Hfilled|]. split; [exact Hrest|]. split.
  - exact (proj1 (proj2 (proj2 (genre_list_calls_are_bounded demo_key demo_base string movie
                                  busy_run (idle warm)))) Hfilled Hrest).
  - split; [reflexivity|]. split; [reflexivity|].
    exact (proj2 (proj2 (proj2 (genre_list_calls_are_bounded demo_key demo_base string movie
                                  two_lookups_at_once (idle fresh))))).
Defined.

Lemma lookup_ignores_case_and_spaces_witness :
  map normalized ["Sci-Fi "] = map normalized [" SCI-FI"]
  ∧ map normalized ["Sci-Fi "] = ["sci-fi"]
  ∧ getKeywordIds demo_key demo_base finds_time_travel ["Sci-Fi "] "en-US" fresh
    = getKeywordIds demo_key demo_base finds_time_travel [" SCI-FI"] "en-US" fresh
  ∧ getGenreIds demo_key demo_base movie_genre_list ["Sci-Fi "] movie "en-US" fresh
    = getGenreIds demo_key demo_base movie_genre_list [" SCI-FI"] movie "en-US" fresh.
Proof.
  split; [reflexivity|]. split; [reflexivity|]. split.
  - apply (proj1 (lookup_ignores_case_and_spaces demo_key demo_base)). reflexivity.
  - apply (proj1 (proj2 (lookup_ignores_case_and_spaces demo_key demo_base))). reflexivity.
Defined.


(** ** The further properties at concrete inputs *)

Example busy_session_ex :
  keywordCache (session demo_key demo_base busy_session warm) = keywordCache warm
  ∧ genreCache (session demo_key demo_base busy_session warm) = genreCache warm
  ∧ length (fetched (session demo_key demo_base busy_session warm)) = 9.
Proof. vm_compute. repeat split; reflexivity. Qed.

Example getWatchProviders_ex :
  getWatchProviders demo_key demo_base serves_providers movie 603 "US" fresh
  = (Returned (Some (own "https://www.themoviedb.org/movie/603/watch?locale=US")),
     record_fetch
       {| fetch_endpoint := "movie/603/watch/providers";
          fetch_url := "https://api.themoviedb.org/3/movie/603/watch/providers?api_key=0123456789abcdef&language=en-US" |}
       fresh)
  ∧ outcome (getWatchProviders demo_key demo_base serves_providers movie 603 "FR" fresh)
    = Returned None
  ∧ outcome (getWatchProviders demo_key demo_base serves_providers movie 603 "constructor" fresh)
    = Returned (Some (inherited "constructor")).
Proof. vm_compute. repeat split; reflexivity. Qed.

Example getSimilarMedia_ex :
  outcome (getSimilarMedia demo_key demo_base serves_trending_page tv 1399 "en-US" fresh)
  = Returned [ {| id := 603; media_type := Some "tv"; poster_path := Some "/matrix.jpg" |};
               {| id := 6384; media_type := Some "tv"; poster_path := Some "/reeves.jpg" |} ].
Proof. vm_compute. reflexivity. Qed.

Lemma transport_failure_is_uniform_witness :
  outcome (fetchFromTMDb demo_key demo_base (@server_error TMDbResponse) "trending/all/week?page=1"
             None fresh)
  = Thrown (Error "Failed to fetch data from TMDb for trending/all/week?page=1.")
  ∧ (Error "Failed to fetch data from TMDb for trending/all/week?page=1."
     = Error ("Failed to fetch data from TMDb for " +:+ "trending/all/week?page=1" +:+ ".")
     ∨ (Error "Failed to fetch data from TMDb for trending/all/week?page=1." = SyntaxError
        ∧ ∃ response,
            @server_error TMDbResponse
              (final_url demo_key demo_base "trending/all/week?page=1" (default "en-US" None))
            = resolves response
            ∧ ok response = true ∧ json response = None)).
Proof.
  split; [reflexivity|].
  apply (proj2 (proj2 (proj2 (proj2
           (transport_failure_is_uniform demo_key demo_base (@server_error TMDbResponse)
              "trending/all/week?page=1" None fresh))))).
  reflexivity.
Defined.

Lemma final_url_separator_witness :
  JS.includes "search/multi?query=alien&page=1&include_adult=false" "?" = true
  ∧ final_url demo_key demo_base "search/multi?query=alien&page=1&include_adult=false" "en-US"
    = (demo_base +:+ "/" +:+ "search/multi?query=alien&page=1&include_adult=false")
      +:+ "&api_key=" +:+ demo_key +:+ "&language=" +:+ "en-US".
Proof.
  split; [reflexivity|].
  apply (proj1 (final_url_separator demo_key demo_base
                  "search/multi?query=alien&page=1&include_adult=false" "en-US")).
  reflexivity.
Defined.

Lemma calls_that_skip_the_network_witness :
  after (getWatchProviders demo_key demo_base serves_providers movie 603 "" warm) = warm
  ∧ after (discoverMedia demo_key demo_base serves_trending_page movie [] [] (Some 3%Z)
             (Some "rating") "en-US" (Some 0%Z) warm) = warm.
Proof.
  destruct (calls_that_skip_the_network demo_key demo_base string warm)
    as (_ & _ & Hdiscover & _ & _ & _ & Hproviders).
  split.
  - apply Hproviders. right. reflexivity.
  - apply Hdiscover. split; [reflexivity|]. split; [reflexivity|]. right. reflexivity.
Defined.

Lemma discover_tags_every_item_witness :
  let r := discoverMedia demo_key demo_base serves_trending_page tv [18%Z] [] None None "en-US"
             None fresh in
  let items := [ {| id := 603; media_type := Some "tv"; poster_path := Some "/matrix.jpg" |};
                 {| id := 6384; media_type := Some "tv"; poster_path := Some "/reeves.jpg" |};
                 {| id := 1399; media_type := Some "tv"; poster_path := None |} ] in
  outcome r = Returned items
  ∧ after r ≠ fresh
  ∧ ∃ f response data,
      last (fetched (after r)) = Some f
      ∧ serves_trending_page (fetch_url f) = resolves response
      ∧ json response = Some data
      ∧ items = map (tagged tv) (results data)
      ∧ map id items = map id (results data)
      ∧ map poster_path items = map poster_path (results data).
Proof.
  intros r items.
  assert (Hret : outcome r = Returned items) by reflexivity.
  assert (Hfetched : after r ≠ fresh).
  { intros H. apply (f_equal (λ q, length (fetched q))) in H. vm_compute in H. discriminate H. }
  split; [exact Hret|]. split; [exact Hfetched|].
  exact (proj2 (discover_tags_every_item demo_key demo_base serves_trending_page tv [18%Z] []
                  None None "en-US" None fresh) items Hret Hfetched).
Defined.

Lemma discover_sort_defaults_witness :
  "newest" ≠ "release_date" ∧ "newest" ≠ "rating"
  ∧ discoverMedia demo_key demo_base serves_trending_page movie [28%Z] [] None (Some "newest")
      "en-US" None fresh
    = discoverMedia demo_key demo_base serves_trending_page movie [28%Z] [] None None
        "en-US" None fresh.
Proof.
  split; [discriminate|]. split; [discriminate|].
  apply (proj1 (discover_sort_defaults demo_key demo_base serves_trending_page movie [28%Z] []
                  None "newest" "en-US" None fresh ltac:(discriminate) ltac:(discriminate))).
Defined.

Lemma related_media_have_posters_witness :
  ∃ items,
    outcome (getRecommendedMedia demo_key demo_base serves_trending_page movie 603 "en-US" fresh)
    = Returned items
    ∧ ∀ item, item ∈ items
              ↔ ∃ x, x ∈ results (default {| results := [] |} (json trending_page))
                     ∧ poster_path x ≠ None ∧ poster_path x ≠ Some ""
                     ∧ item = tagged movie x.
Proof.
  destruct (related_media_have_posters demo_key demo_base serves_trending_page movie 603
              "en-US" fresh) as (_ & _ & _ & Hrecommended).
  apply (Hrecommended trending_page); [discriminate|reflexivity|reflexivity|reflexivity].
Defined.

Lemma media_details_are_tagged_witness :
  outcome (getMediaDetails demo_key demo_base serves_matrix tv 603 "en-US" fresh)
  = Returned (Some (tagged tv matrix))
  ∧ media_type (tagged tv matrix) = Some "tv"
  ∧ ∃ response data,
      serves_matrix (final_url demo_key demo_base
                       (media_type_name tv +:+ "/" +:+ JS.show 603
                        +:+ "?append_to_response=genres") "en-US") = resolves response
      ∧ ok response = true ∧ json response = Some data
      ∧ id (tagged tv matrix) = id data ∧ poster_path (tagged tv matrix) = poster_path data.
Proof.
  split; [reflexivity|].
  apply (proj2 (media_details_are_tagged demo_key demo_base serves_matrix tv 603 "en-US" fresh)
           (tagged tv matrix)).
  reflexivity.
Defined.

Lemma watch_providers_request_ignores_region_witness :
  after (getWatchProviders demo_key demo_base serves_providers movie 603 "US" fresh)
  = record_fetch (call_of demo_key demo_base "movie/603/watch/providers" "en-US") fresh
  ∧ after (getWatchProviders demo_key demo_base serves_providers movie 603 "DE" fresh)
    = after (getWatchProviders demo_key demo_base serves_providers movie 603 "US" fresh)
  ∧ outcome (getWatchProviders demo_key demo_base serves_providers movie 603 "US" fresh)
    = Returned (Some (own "https://www.themoviedb.org/movie/603/watch?locale=US")).
Proof.
  destruct (watch_providers_request_ignores_region demo_key demo_base string serves_providers
              movie 603 "US" fresh ltac:(discriminate) ltac:(discriminate))
    as (Hafter & Hother & Hreply).
  split; [exact Hafter|]. split; [apply Hother; discriminate|].
  exact (Hreply _ _ eq_refl eq_refl eq_refl).
Defined.

Lemma lookups_touch_only_their_own_cache_witness :
  genreCache_get (genreCache warm) movie ≠ []
  ∧ after (getGenreIds demo_key demo_base unreachable ["Western"] movie "en-US" warm) = warm
  ∧ genreCache_get
      (genreCache (after (getGenreIds demo_key demo_base empty_genre_list ["Drama"] tv "en-US"
                            warm))) movie
    = genreCache_get (genreCache warm) movie.
Proof.
  split; [discriminate|]. split.
  - apply (proj2 (lookups_touch_only_their_own_cache demo_key demo_base warm)
             unreachable ["Western"] movie "en-US").
    discriminate.
  - apply (proj2 (lookups_touch_only_their_own_cache demo_key demo_base warm)
             empty_genre_list ["Drama"] tv "en-US").
    discriminate.
Defined.

Lemma resolved_ids_are_complete_witness :
  outcome (getKeywordIds demo_key demo_base finds_nothing ["Time Travel"; "heist"] "en-US" warm)
  = Returned [4379%Z]
  ∧ ∀ v, v ∈ [4379%Z]
         ↔ ∃ k, k ∈ map normalized ["Time Travel"; "heist"]
                ∧ (keywordCache warm !! k = Some v
                   ∨ (keywordCache warm !! k = None
                      ∧ first_match_is demo_key demo_base finds_nothing "en-US" k v)).
Proof.
  assert (H : outcome (getKeywordIds demo_key demo_base finds_nothing ["Time Travel"; "heist"]
                         "en-US" warm) = Returned [4379%Z]) by (vm_compute; reflexivity).
  split; [exact H|].
  exact (resolved_ids_are_complete demo_key demo_base finds_nothing ["Time Travel"; "heist"]
           "en-US" warm [4379%Z] H).
Defined.

Lemma successful_lookup_caches_every_match_witness :
  outcome (getKeywordIds demo_key demo_base finds_time_travel ["Time Travel"] "en-US" fresh)
  = Returned [4379%Z]
  ∧ ∀ k v,
      keywordCache (after (getKeywordIds demo_key demo_base finds_time_travel ["Time Travel"]
                             "en-US" fresh)) !! k = Some v
      ↔ keywordCache fresh !! k = Some v
        ∨ (k ∈ map normalized ["Time Travel"] ∧ keywordCache fresh !! k = None
           ∧ first_match_is demo_key demo_base finds_time_travel "en-US" k v).
Proof.
  assert (H : outcome (getKeywordIds demo_key demo_base finds_time_travel ["Time Travel"]
                         "en-US" fresh) = Returned [4379%Z]) by (vm_compute; reflexivity).
  split; [exact H|].
  exact (successful_lookup_caches_every_match demo_key demo_base finds_time_travel
           ["Time Travel"] "en-US" fresh [4379%Z] H).
Defined.

Lemma all_cached_needs_no_server_witness :
  (∀ k, k ∈ map normalized [" Time Travel"; "TIME TRAVEL"] → is_Some (keywordCache warm !! k))
  ∧ getKeywordIds demo_key demo_base unreachable [" Time Travel"; "TIME TRAVEL"] "en-US" warm
    = (Returned (JS.distinct (omap (λ k, keywordCache warm !! k)
                                (JS.distinct (map normalized [" Time Travel"; "TIME TRAVEL"])))),
       warm).
Proof.
  assert (H : ∀ k, k ∈ map normalized [" Time Travel"; "TIME TRAVEL"] →
                   is_Some (keywordCache warm !! k)).
  { intros k Hk. change (map normalized [" Time Travel"; "TIME TRAVEL"])
      with ["time travel"; "time travel"] in Hk.
    apply elem_of_cons in Hk as [->|Hk]; [by exists 4379%Z|].
    apply elem_of_cons in Hk as [->|Hk]; [by exists 4379%Z|].
    by apply elem_of_nil in Hk. }
  split; [exact H|].
  exact (all_cached_needs_no_server demo_key demo_base unreachable
           [" Time Travel"; "TIME TRAVEL"] "en-US" warm H).
Defined.

Lemma inserted_keys_are_normalized_witness :
  keywordCache (after (getKeywordIds demo_key demo_base finds_time_travel [" Time Travel "]
                         "en-US" fresh)) !! "time travel" = Some 4379%Z
  ∧ keywordCache fresh !! "time travel" = None
  ∧ "time travel" ∈ map normalized [" Time Travel "]
  ∧ normalized "time travel" = "time travel".
Proof.
  assert (H : keywordCache (after (getKeywordIds demo_key demo_base finds_time_travel
                                     [" Time Travel "] "en-US" fresh)) !! "time travel"
              = Some 4379%Z) by (vm_compute; reflexivity).
  split; [exact H|]. split; [reflexivity|].
  exact (inserted_keys_are_normalized demo_key demo_base finds_time_travel [" Time Travel "]
           "en-US" fresh "time travel" 4379%Z H eq_refl).
Defined.

Lemma genre_ids_follow_the_cached_list_witness :
  let r := getGenreIds demo_key demo_base movie_genre_list
             [" science fiction"; "Western"; "SCIENCE FICTION"] movie "en-US" fresh in
  outcome r = Returned [878%Z]
  ∧ [878%Z]
    = map genre_id
        (List.filter
           (λ genre, bool_decide (normalized (genre_name genre)
                                  ∈ map normalized [" science fiction"; "Western";
                                                    "SCIENCE FICTION"]))
           (genreCache_get (genreCache (after r)) movie)).
Proof.
  intros r. assert (H : outcome r = Returned [878%Z]) by (vm_compute; reflexivity).
  split; [exact H|].
  exact (genre_ids_follow_the_cached_list demo_key demo_base movie_genre_list
           [" science fiction"; "Western"; "SCIENCE FICTION"] movie "en-US" fresh [878%Z]
           ltac:(discriminate) H).
Defined.

Lemma failed_genre_fetch_changes_nothing_witness :
  let r := getGenreIds demo_key demo_base server_error ["Drama"] tv "en-US" warm in
  (∃ e, outcome r = Thrown e)
  ∧ genreCache (after r) = genreCache warm
  ∧ keywordCache (after r) = keywordCache warm
  ∧ fetched (after r)
    = fetched warm ++ [ {| fetch_endpoint := genre_endpoint tv;
                           fetch_url := final_url demo_key demo_base (genre_endpoint tv) "en-US" |} ].
Proof.
  apply (failed_genre_fetch_changes_nothing demo_key demo_base server_error ["Drama"] tv "en-US"
           warm).
  - discriminate.
  - reflexivity.
  - apply http_status. reflexivity.
Defined.

Lemma genre_ids_ignore_order_and_repeats_witness :
  getGenreIds demo_key demo_base movie_genre_list ["Action"; "science fiction"] movie "en-US" fresh
  = getGenreIds demo_key demo_base movie_genre_list
      ["Science Fiction "; "action"; "ACTION"] movie "en-US" fresh.
Proof.
  apply (genre_ids_ignore_order_and_repeats demo_key demo_base movie_genre_list
           ["Action"; "science fiction"] ["Science Fiction "; "action"; "ACTION"] movie "en-US"
           fresh); [discriminate|discriminate|].
  intros name.
  change (map normalized ["Action"; "science fiction"]) with ["action"; "science fiction"].
  change (map normalized ["Science Fiction "; "action"; "ACTION"])
    with ["science fiction"; "action"; "action"].
  rewrite !elem_of_cons. tauto.
Defined.

(** Calls that overlap can replace what the cache has: of two lookups of
    a phrase that begin while the cache does not have it, the one resumed
    last leaves its id; and a lookup whose request brings an empty genre
    list empties the list that another has stored meanwhile. *)
Example overlapping_lookups_ex :
  keywordCache
    (process (run demo_key demo_base
                [ Begin (GetKeywordIds string finds_time_travel ["Time Travel"] "en-US");
                  Begin (GetKeywordIds string finds_time_travel_anew ["time travel"] "en-US");
                  Resume 0 ] (idle fresh))) !! "time travel" = Some 4379%Z
  ∧ keywordCache
      (process (run demo_key demo_base
                  [ Begin (GetKeywordIds string finds_time_travel ["Time Travel"] "en-US");
                    Begin (GetKeywordIds string finds_time_travel_anew ["time travel"] "en-US");
                    Resume 0; Resume 0 ] (idle fresh))) !! "time travel" = Some 10854%Z
  ∧ genreCache_get
      (genreCache
         (process (run demo_key demo_base
                     [ Begin (GetGenreIds string movie_genre_list ["Action"] movie "en-US");
                       Begin (GetGenreIds string empty_genre_list ["Action"] movie "en-US");
                       Resume 0; Resume 0 ] (idle fresh)))) movie = [].
Proof. vm_compute. repeat split; reflexivity. Qed.

Example session_is_a_run_ex :
  run demo_key demo_base (c ← busy_session; [Begin c; Resume 0]) (idle warm)
  = idle (session demo_key demo_base busy_session warm).
Proof. apply session_is_a_run. Qed.

Lemma cache_entries_at_rest_are_final_witness :
  keywordCache (process (idle (ProviderInfo := string) warm)) !! "time travel" = Some 4379%Z
  ∧ phrase_at_rest "time travel" (idle (ProviderInfo := string) warm)
  ∧ genreCache_get (genreCache (process (idle (ProviderInfo := string) warm))) movie ≠ []
  ∧ genres_at_rest movie (idle (ProviderInfo := string) warm)
  ∧ keywordCache (process (run demo_key demo_base busy_run (idle warm))) !! "time travel"
    = Some 4379%Z
  ∧ genreCache_get (genreCache (process (run demo_key demo_base busy_run (idle warm)))) movie
    = genreCache_get (genreCache (process (idle (ProviderInfo := string) warm))) movie.
Proof.
  assert (Hk : keywordCache (process (idle (ProviderInfo := string) warm)) !! "time travel"
               = Some 4379%Z) by (vm_compute; reflexivity).
  assert (Hphrase : phrase_at_rest "time travel" (idle (ProviderInfo := string) warm))
    by apply Forall_nil_2.
  assert (Hfilled : genreCache_get (genreCache (process (idle (ProviderInfo := string) warm)))
                      movie ≠ []) by discriminate.
  assert (Hrest : genres_at_rest movie (idle (ProviderInfo := string) warm))
    by apply Forall_nil_2.
  destruct (cache_entries_at_rest_are_final demo_key demo_base string busy_run (idle warm))
    as (_ & Hkeywords & Hgenres).
  split; [exact Hk|]. split; [exact Hphrase|]. split; [exact Hfilled|]. split; [exact Hrest|].
  split; [exact (Hkeywords _ _ Hk Hphrase)|exact (Hgenres _ Hfilled Hrest)].
Defined.

Lemma cache_keys_stay_normalized_witness :
  is_Some (keywordCache
             (session demo_key demo_base
                (GetKeywordIds string finds_time_travel [" Time Travel "] "en-US" :: busy_session)
                fresh) !! "time travel")
  ∧ normalized "time travel" = "time travel".
Proof.
  assert (H : is_Some (keywordCache
                         (session demo_key demo_base
                            (GetKeywordIds string finds_time_travel [" Time Travel "] "en-US"
                             :: busy_session) fresh) !! "time travel")).
  { exists 4379%Z. vm_compute. reflexivity. }
  split; [exact H|].
  exact (proj2 (cache_keys_stay_normalized demo_key demo_base string
                  (GetKeywordIds string finds_time_travel [" Time Travel "] "en-US"
                   :: busy_session) fresh) "time travel" H).
Defined.

Lemma resolved_phrase_stays_resolved_witness :
  let w' := run demo_key demo_base busy_run (idle warm) in
  keywordCache (process (idle (ProviderInfo := string) warm)) !! normalized "Time Travel"
  = Some 4379%Z
  ∧ phrase_at_rest (normalized "Time Travel") (idle (ProviderInfo := string) warm)
  ∧ normalized "Time Travel" = normalized " time travel "
  ∧ begin demo_key demo_base (GetKeywordIds string unreachable [" time travel "] "fr-FR") w'
    = park (Settling (Returned (Ids [4379%Z]))) (process w') w'.
Proof.
  intros w'.
  assert (Hk : keywordCache (process (idle (ProviderInfo := string) warm))
               !! normalized "Time Travel" = Some 4379%Z) by (vm_compute; reflexivity).
  assert (Hrest : phrase_at_rest (normalized "Time Travel") (idle (ProviderInfo := string) warm))
    by apply Forall_nil_2.
  split; [exact Hk|]. split; [exact Hrest|]. split; [reflexivity|].
  exact (resolved_phrase_stays_resolved demo_key demo_base string (idle warm)
           "Time Travel" " time travel " 4379%Z busy_run unreachable "fr-FR" Hk Hrest eq_refl).
Defined.

Lemma cached_genres_answer_later_lookups_witness :
  let w' := run demo_key demo_base busy_run (idle warm) in
  genreCache_get (genreCache (process (idle (ProviderInfo := string) warm))) movie ≠ []
  ∧ genres_at_rest movie (idle (ProviderInfo := string) warm)
  ∧ begin demo_key demo_base (GetGenreIds string unreachable ["Action"] movie "fr-FR") w'
    = park (Settling (Returned (Ids (matching_ids ["Action"]
                                       (genreCache_get (genreCache warm) movie)))))
           (process w') w'.
Proof.
  intros w'.
  assert (Hfilled : genreCache_get (genreCache (process (idle (ProviderInfo := string) warm)))
                      movie ≠ []) by discriminate.
  assert (Hrest : genres_at_rest movie (idle (ProviderInfo := string) warm))
    by apply Forall_nil_2.
  split; [exact Hfilled|]. split; [exact Hrest|].
  exact (cached_genres_answer_later_lookups demo_key demo_base string (idle warm) ["Action"]
           movie busy_run unreachable "fr-FR" Hfilled Hrest ltac:(discriminate)).
Defined.

Lemma chat_fails_with_one_error_witness :
  outcome (Gemini.getChatResponseFromAI
             (λ _, Gemini.sdk_rejects (Error "429 Too Many Requests")) chat_history [])
  = Thrown (Error "Failed to get chat response from AI.")
  ∧ Error "Failed to get chat response from AI." = AI.chat_failure.
Proof.
  split; [reflexivity|].
  apply (proj2 (proj2 (chat_fails_with_one_error "sk-or-0" "https://openrouter.ai/api/v1"
                         "a-model" chat_history [] [])
                  (λ _, Gemini.sdk_rejects (Error "429 Too Many Requests")))).
  reflexivity.
Defined.

Lemma extraction_returns_parsed_reply_witness :
  outcome (OpenRouter.getSearchTermsFromAI "sk-or-0" "https://openrouter.ai/api/v1" "a-model"
             "Extract the criteria." parse_braces answers_braces "anything good" [])
  = Returned {| AI.search_query := None; AI.media_type := None; AI.genres := None;
                AI.keywords := None; AI.year := None |}.
Proof.
  destruct (proj1 (extraction_returns_parsed_reply "sk-or-0" "https://openrouter.ai/api/v1"
                     "a-model" "Extract the criteria." parse_braces "anything good" [] [])
              answers_braces) as (_ & Hparsed & _).
  eapply Hparsed; [reflexivity|reflexivity|reflexivity|discriminate|reflexivity].
Defined.

Lemma search_requests_tell_the_query_witness :
  "alien" ≠ "" ∧ "aliens" ≠ "" ∧ "alien" ≠ "aliens"
  ∧ ∃ f1 f2,
      fetched (after (searchMedia demo_key demo_base serves_trending_page "alien" None "en-US"
                        fresh)) = fetched fresh ++ [f1]
      ∧ fetched (after (searchMedia demo_key demo_base serves_trending_page "aliens" None "en-US"
                          fresh)) = fetched fresh ++ [f2]
      ∧ fetch_url f1 ≠ fetch_url f2.
Proof.
  split; [discriminate|]. split; [discriminate|]. split; [discriminate|].
  apply (proj2 (search_requests_tell_the_query demo_key demo_base serves_trending_page
                  "alien" "aliens" None "en-US" fresh)); discriminate.
Defined.

Lemma lookups_that_skip_the_network_witness :
  after (getGenreIds demo_key demo_base unreachable ["Action"] movie "en-US" warm) = warm.
Proof.
  apply (proj2 (lookups_that_skip_the_network demo_key demo_base warm)
           unreachable ["Action"] movie "en-US").
  right. discriminate.
Defined.
